(** * SQInput: input remapping and polling for RPG Maker MZ

    A shallow embedding of [SQInput.js] (the binding table, the lookup
    maps rebuilt from it, the gamepad poller, the one-shot capture
    callbacks, the icon resolver and the configuration round trip) and of
    the remap handlers of [SQControlRemapper.js], followed by the
    properties of the plugin that the specification states.

    JavaScript objects whose enumeration order is observable
    ([SQInput.inputs], [Input._currentState]) are association lists in
    enumeration order; objects that are only looked up by key
    ([Input.keyMapper], [Input.gamepadMapper], the icon tables) are
    [gmap]s keyed by property name. *)

From Stdlib Require Import ZArith QArith Lia.
From stdpp Require Import base gmap strings list pretty.

Local Open Scope string_scope.
Local Open Scope list_scope.

(** ** JavaScript values *)

(** The values the plugin stores as bindings: [event.code] strings,
    button indices, and [undefined] for a property that was never set. *)
Inductive value :=
  | undefined
  | Str (s : string)
  | Num (n : Z).

#[global] Instance value_eq_dec : EqDecision value.
Proof. solve_decision. Defined.

(** [a === b] *)
Definition strict_eq (a b : value) : bool := bool_decide (a = b).

(** The property name a value denotes when it is used as [obj[v]]. *)
Definition propertyKey (v : value) : string :=
  match v with
  | undefined => "undefined"
  | Str s => s
  | Num n => pretty n
  end.

(** Truthiness of a string: only the empty string is falsy. *)
Definition truthy_string (s : string) : bool := negb (bool_decide (s = "")).

(** A JavaScript number as the icon arithmetic produces it:
    [undefined + n] is [NaN]. *)
Inductive number :=
  | NaN
  | Int (z : Z).

Definition num_add (a b : number) : number :=
  match a, b with
  | Int x, Int y => Int (x + y)
  | _, _ => NaN
  end.

Definition num_sub (a b : number) : number :=
  match a, b with
  | Int x, Int y => Int (x - y)
  | _, _ => NaN
  end.

(** [n >= 0], false on [NaN]. *)
Definition num_ge0 (a : number) : bool :=
  match a with
  | Int x => bool_decide (0 <= x)%Z
  | NaN => false
  end.

(** Outcome of a call that may throw. *)
Inductive exn := TypeError.

Inductive completion (A : Type) :=
  | Normal (a : A)
  | Throw (e : exn).
Arguments Normal {A} a.
Arguments Throw {A} e.

(** ** Objects in enumeration order *)

Definition obj (V : Type) := list (string * V).

Fixpoint obj_get {V} (k : string) (o : obj V) : option V :=
  match o with
  | [] => None
  | (k', v) :: o' => if decide (k' = k) then Some v else obj_get k o'
  end.

(** [o[k] = v]: an existing property keeps its place, a new one goes last. *)
Fixpoint obj_set {V} (k : string) (v : V) (o : obj V) : obj V :=
  match o with
  | [] => [(k, v)]
  | (k', v') :: o' =>
      if decide (k' = k) then (k', v) :: o' else (k', v') :: obj_set k v o'
  end.

(** In-place mutation of the object stored under [k]. *)
Fixpoint obj_alter {V} (f : V -> V) (k : string) (o : obj V) : obj V :=
  match o with
  | [] => []
  | (k', v) :: o' =>
      if decide (k' = k) then (k', f v) :: o' else (k', v) :: obj_alter f k o'
  end.

(** [Object.keys(o)] *)
Definition obj_keys {V} (o : obj V) : list string := fst <$> o.

(** [k in o] as far as the own properties of [o] go. *)
Definition obj_has {V} (k : string) (o : obj V) : bool :=
  match obj_get k o with Some _ => true | None => false end.

(** Modelled from the language: the property names that an object
    literal inherits from [Object.prototype]. [k in o] holds for them
    whatever the own properties of [o] are, and [o[k]] is then a function,
    or the prototype itself for "__proto__". *)
Definition objectPrototypeNames : list string :=
  ["constructor"; "__defineGetter__"; "__defineSetter__"; "hasOwnProperty";
   "__lookupGetter__"; "__lookupSetter__"; "isPrototypeOf";
   "propertyIsEnumerable"; "toString"; "valueOf"; "__proto__"; "toLocaleString"].

Definition inherited (k : string) : bool := bool_decide (k ∈ objectPrototypeNames).

(** [!!o[k]] for an object of booleans. *)
Definition obj_true (k : string) (o : obj bool) : bool :=
  match obj_get k o with Some b => b | None => false end.

(** ** Arrays with holes *)

(** [Input._gamepadStates[i]]: an array of booleans; [None] is a hole
    (reads as [undefined]). *)
Definition jsarray := list (option bool).

(** [a[i]] *)
Definition arr_get (a : jsarray) (i : nat) : option bool :=
  match a !! i with Some x => x | None => None end.

(** [a[i] = b], extending the array with holes when [i] is past the end. *)
Definition arr_set (i : nat) (b : bool) (a : jsarray) : jsarray :=
  if decide (i < length a)%nat then <[i := Some b]> a
  else a ++ replicate (i - length a) None ++ [Some b].

(** ** The binding table *)

Record InputFunction := mkInputFunction {
  name : string;
  fieldTitle : string;
  keyboardButton : value;
  gamepadButton : value;
  defaultKeyboardButton : value;
  defaultGamepButton : value;
  id : value;
}.

(** The third argument of [setControlButton]: the property to rebind. *)
Inductive buttonType := KeyboardButton | GamepadButton.

#[global] Instance buttonType_eq_dec : EqDecision buttonType.
Proof. solve_decision. Defined.

(** [input[type]] *)
Definition input_prop (type : buttonType) (input : InputFunction) : value :=
  match type with
  | KeyboardButton => keyboardButton input
  | GamepadButton => gamepadButton input
  end.

(** [input[type] = v] *)
Definition set_input_prop (type : buttonType) (v : value) (input : InputFunction)
  : InputFunction :=
  match type with
  | KeyboardButton =>
      mkInputFunction (name input) (fieldTitle input) v (gamepadButton input)
        (defaultKeyboardButton input) (defaultGamepButton input) (id input)
  | GamepadButton =>
      mkInputFunction (name input) (fieldTitle input) (keyboardButton input) v
        (defaultKeyboardButton input) (defaultGamepButton input) (id input)
  end.

Definition literal (n t : string) (kb : string) (gp : Z) : InputFunction :=
  mkInputFunction n t (Str kb) (Num gp) undefined undefined undefined.

(** [SQInput.inputs] as the object literal declares it. *)
Definition inputs_literal : obj InputFunction :=
  [ ("up", literal "up" "Up" "ArrowUp" 12);
    ("down", literal "down" "Down" "ArrowDown" 13);
    ("left", literal "left" "Left" "ArrowLeft" 14);
    ("right", literal "right" "Right" "ArrowRight" 15);
    ("cancel", literal "cancel" "Cancel" "KeyX" 1);
    ("confirm", literal "confirm" "Confirm" "KeyZ" 0);
    ("menu", literal "menu" "Menu" "KeyS" 3);
    ("dash", literal "dash" "Dash" "KeyQ" 6);
    ("cycle_right", literal "pageup" "Page Up" "PageUp" 7);
    ("cycle_left", literal "pagedown" "Page Down" "PageDown" 8) ].

(** Keys of [SQInput.gamepadMapper]: the sixteen standard buttons. *)
Definition gamepadMapper_keys : list string :=
  (fun i : nat => pretty i) <$> seq 0 16.

(** [SQInput.gamepadIndexToIconIndex] *)
Definition gamepadIndexToIconIndex : gmap string Z :=
  list_to_map
    [ ("14", 0); ("12", 1); ("15", 2); ("13", 3); ("10", 4); ("11", 5);
      ("9", 6); ("8", 7); ("3", 8); ("1", 9); ("0", 10); ("2", 11);
      ("4", 12); ("5", 13); ("6", 14); ("7", 15) ]%Z.

(** [SQInput.codeToIconIndex] *)
Definition codeToIconIndex : gmap string Z :=
  list_to_map
    [ ("ArrowLeft", 0); ("ArrowUp", 1); ("ArrowRight", 2); ("ArrowDown", 3);
      ("null", 0); ("Enter", 1); ("Space", 2);
      ("ControlLeft", 3); ("ControlRight", 3);
      ("ShiftLeft", 4); ("ShiftRight", 4); ("AltLeft", 5); ("AltRight", 5);
      ("Tab", 6); ("Backspace", 7); ("Insert", 8); ("Delete", 9);
      ("Home", 10); ("End", 11); ("PageUp", 12); ("PageDown", 13);
      ("CapsLock", 14); ("Pause", 15);
      ("Digit0", 16); ("Digit1", 17); ("Digit2", 18); ("Digit3", 19);
      ("Digit4", 20); ("Digit5", 21); ("Digit6", 22); ("Digit7", 23);
      ("Digit8", 24); ("Digit9", 25);
      ("Numpad0", 16); ("Numpad1", 17); ("Numpad2", 18); ("Numpad3", 19);
      ("Numpad4", 20); ("Numpad5", 21); ("Numpad6", 22); ("Numpad7", 23);
      ("Numpad8", 24); ("Numpad9", 25);
      ("Slash", 27); ("Equal", 28); ("Minus", 29);
      ("KeyA", 32); ("KeyB", 33); ("KeyC", 34); ("KeyD", 35); ("KeyE", 36);
      ("KeyF", 37); ("KeyG", 38); ("KeyH", 39); ("KeyI", 40); ("KeyJ", 41);
      ("KeyK", 42); ("KeyL", 43); ("KeyM", 44); ("KeyN", 45); ("KeyO", 46);
      ("KeyP", 47); ("KeyQ", 48); ("KeyR", 49); ("KeyS", 50); ("KeyT", 51);
      ("KeyU", 52); ("KeyV", 53); ("KeyW", 54); ("KeyX", 55); ("KeyY", 56);
      ("KeyZ", 57); ("231", 58);
      ("Backslash", 65); ("BracketLeft", 66); ("BracketRight", 67);
      ("Comma", 72); ("Period", 73); ("Quote", 74); ("Backquote", 75);
      ("Semicolon", 85); ("Escape", 95) ]%Z.

(** ** Devices and events *)

(** [SQInput.lastInputDevice] *)
Inductive device := keyboard | gamepad.

#[global] Instance device_eq_dec : EqDecision device.
Proof. solve_decision. Defined.

(** The [type] passed to a gamepad capture callback. *)
Inductive edge := press | release.

#[global] Instance edge_eq_dec : EqDecision edge.
Proof. solve_decision. Defined.

(** The fields of a DOM keyboard event that the plugin reads. *)
Record KeyboardEvent := mkKeyboardEvent {
  code : string;
  keyCode : Z;
  which : Z;
}.

(** A gamepad as [navigator.getGamepads()] reports it. An axis reading is
    a rational number; the poller only compares it with the threshold. *)
Module Gamepad.
Record t := mk {
  index : nat;
  id : string;
  connected : bool;
  buttons : list bool;
  axes : list Q;
}.
End Gamepad.

(** [navigator.getGamepads()]: an array whose empty slots are [null]. *)
Definition gamepads := list (option Gamepad.t).

(** An entry of the control map that is saved with the configuration. *)
Module ControlMap.
Record entry := mk {
  keyboardButton : value;
  gamepadButton : value;
}.
End ControlMap.

(** [config.SQConfig]; [None] is a key that the object does not have. *)
Record SQConfig := mkSQConfig {
  buttonSet : option Z;
  gamepadName : option (option string);
  controlMap : option (obj ControlMap.entry);
}.

(** What a capture callback is called with. *)
Inductive callArgs :=
  | GamepadArgs (buttonIndex : nat) (type : edge)
  | KeyboardArgs (event : KeyboardEvent).

(** ** Plugin state *)

Section Plugin.

(** Callbacks are JavaScript functions; [H] is the type of their
    identities and [run] (below) what calling one does to the state. *)
Context {H : Type}.

(** The mutable properties of [SQInput] (first block) and of the engine
    object [Input] (second block) that the plugin's code reads or writes.
    [_currentState] and [_previousState] are only ever tested for
    truthiness, so a stored [undefined] is recorded as [false]. *)
Record Game := mkGame {
  inputs : obj InputFunction;
  baseControlIconIndex : Z;
  numButtonSets : Z;
  activeButtonSet : Z;
  activeGamepadIndex : option nat;
  targetGamepadName : option string;
  lastInputDevice : device;
  _gamepadInputCallback : option H;
  _gamepadInputCallbackType : option edge;
  _keyboardInputCallback : option H;
  _resetMap : bool;

  keyMapper : gmap string (list string);
  gamepadMapper : gmap string (list string);
  _currentState : obj bool;
  _previousState : obj bool;
  _gamepadStates : gmap nat jsarray;
  _latestButton : option (list string);
  _pressedTime : Z;
  _virtualButton : option string;
}.

Definition set_inputs (v : obj InputFunction) (g : Game) : Game :=
  mkGame v (baseControlIconIndex g) (numButtonSets g) (activeButtonSet g)
    (activeGamepadIndex g) (targetGamepadName g) (lastInputDevice g)
    (_gamepadInputCallback g) (_gamepadInputCallbackType g)
    (_keyboardInputCallback g) (_resetMap g) (keyMapper g) (gamepadMapper g)
    (_currentState g) (_previousState g) (_gamepadStates g) (_latestButton g)
    (_pressedTime g) (_virtualButton g).

Definition set_activeButtonSet (v : Z) (g : Game) : Game :=
  mkGame (inputs g) (baseControlIconIndex g) (numButtonSets g) v
    (activeGamepadIndex g) (targetGamepadName g) (lastInputDevice g)
    (_gamepadInputCallback g) (_gamepadInputCallbackType g)
    (_keyboardInputCallback g) (_resetMap g) (keyMapper g) (gamepadMapper g)
    (_currentState g) (_previousState g) (_gamepadStates g) (_latestButton g)
    (_pressedTime g) (_virtualButton g).

Definition set_activeGamepadIndex (v : option nat) (g : Game) : Game :=
  mkGame (inputs g) (baseControlIconIndex g) (numButtonSets g)
    (activeButtonSet g) v (targetGamepadName g) (lastInputDevice g)
    (_gamepadInputCallback g) (_gamepadInputCallbackType g)
    (_keyboardInputCallback g) (_resetMap g) (keyMapper g) (gamepadMapper g)
    (_currentState g) (_previousState g) (_gamepadStates g) (_latestButton g)
    (_pressedTime g) (_virtualButton g).

Definition set_targetGamepadName (v : option string) (g : Game) : Game :=
  mkGame (inputs g) (baseControlIconIndex g) (numButtonSets g)
    (activeButtonSet g) (activeGamepadIndex g) v (lastInputDevice g)
    (_gamepadInputCallback g) (_gamepadInputCallbackType g)
    (_keyboardInputCallback g) (_resetMap g) (keyMapper g) (gamepadMapper g)
    (_currentState g) (_previousState g) (_gamepadStates g) (_latestButton g)
    (_pressedTime g) (_virtualButton g).

Definition set_lastInputDevice (v : device) (g : Game) : Game :=
  mkGame (inputs g) (baseControlIconIndex g) (numButtonSets g)
    (activeButtonSet g) (activeGamepadIndex g) (targetGamepadName g) v
    (_gamepadInputCallback g) (_gamepadInputCallbackType g)
    (_keyboardInputCallback g) (_resetMap g) (keyMapper g) (gamepadMapper g)
    (_currentState g) (_previousState g) (_gamepadStates g) (_latestButton g)
    (_pressedTime g) (_virtualButton g).

Definition set_gamepadInputCallback (v : option H) (g : Game) : Game :=
  mkGame (inputs g) (baseControlIconIndex g) (numButtonSets g)
    (activeButtonSet g) (activeGamepadIndex g) (targetGamepadName g)
    (lastInputDevice g) v (_gamepadInputCallbackType g)
    (_keyboardInputCallback g) (_resetMap g) (keyMapper g) (gamepadMapper g)
    (_currentState g) (_previousState g) (_gamepadStates g) (_latestButton g)
    (_pressedTime g) (_virtualButton g).

Definition set_gamepadInputCallbackType (v : option edge) (g : Game) : Game :=
  mkGame (inputs g) (baseControlIconIndex g) (numButtonSets g)
    (activeButtonSet g) (activeGamepadIndex g) (targetGamepadName g)
    (lastInputDevice g) (_gamepadInputCallback g) v (_keyboardInputCallback g)
    (_resetMap g) (keyMapper g) (gamepadMapper g) (_currentState g)
    (_previousState g) (_gamepadStates g) (_latestButton g) (_pressedTime g)
    (_virtualButton g).

Definition set_keyboardInputCallback (v : option H) (g : Game) : Game :=
  mkGame (inputs g) (baseControlIconIndex g) (numButtonSets g)
    (activeButtonSet g) (activeGamepadIndex g) (targetGamepadName g)
    (lastInputDevice g) (_gamepadInputCallback g)
    (_gamepadInputCallbackType g) v (_resetMap g) (keyMapper g)
    (gamepadMapper g) (_currentState g) (_previousState g) (_gamepadStates g)
    (_latestButton g) (_pressedTime g) (_virtualButton g).

Definition set_resetMap (v : bool) (g : Game) : Game :=
  mkGame (inputs g) (baseControlIconIndex g) (numButtonSets g)
    (activeButtonSet g) (activeGamepadIndex g) (targetGamepadName g)
    (lastInputDevice g) (_gamepadInputCallback g)
    (_gamepadInputCallbackType g) (_keyboardInputCallback g) v (keyMapper g)
    (gamepadMapper g) (_currentState g) (_previousState g) (_gamepadStates g)
    (_latestButton g) (_pressedTime g) (_virtualButton g).

Definition set_keyMapper (v : gmap string (list string)) (g : Game) : Game :=
  mkGame (inputs g) (baseControlIconIndex g) (numButtonSets g)
    (activeButtonSet g) (activeGamepadIndex g) (targetGamepadName g)
    (lastInputDevice g) (_gamepadInputCallback g)
    (_gamepadInputCallbackType g) (_keyboardInputCallback g) (_resetMap g) v
    (gamepadMapper g) (_currentState g) (_previousState g) (_gamepadStates g)
    (_latestButton g) (_pressedTime g) (_virtualButton g).

Definition set_gamepadMapper (v : gmap string (list string)) (g : Game) : Game :=
  mkGame (inputs g) (baseControlIconIndex g) (numButtonSets g)
    (activeButtonSet g) (activeGamepadIndex g) (targetGamepadName g)
    (lastInputDevice g) (_gamepadInputCallback g)
    (_gamepadInputCallbackType g) (_keyboardInputCallback g) (_resetMap g)
    (keyMapper g) v (_currentState g) (_previousState g) (_gamepadStates g)
    (_latestButton g) (_pressedTime g) (_virtualButton g).

Definition set_currentState (v : obj bool) (g : Game) : Game :=
  mkGame (inputs g) (baseControlIconIndex g) (numButtonSets g)
    (activeButtonSet g) (activeGamepadIndex g) (targetGamepadName g)
    (lastInputDevice g) (_gamepadInputCallback g)
    (_gamepadInputCallbackType g) (_keyboardInputCallback g) (_resetMap g)
    (keyMapper g) (gamepadMapper g) v (_previousState g) (_gamepadStates g)
    (_latestButton g) (_pressedTime g) (_virtualButton g).

Definition set_previousState (v : obj bool) (g : Game) : Game :=
  mkGame (inputs g) (baseControlIconIndex g) (numButtonSets g)
    (activeButtonSet g) (activeGamepadIndex g) (targetGamepadName g)
    (lastInputDevice g) (_gamepadInputCallback g)
    (_gamepadInputCallbackType g) (_keyboardInputCallback g) (_resetMap g)
    (keyMapper g) (gamepadMapper g) (_currentState g) v (_gamepadStates g)
    (_latestButton g) (_pressedTime g) (_virtualButton g).

Definition set_gamepadStates (v : gmap nat jsarray) (g : Game) : Game :=
  mkGame (inputs g) (baseControlIconIndex g) (numButtonSets g)
    (activeButtonSet g) (activeGamepadIndex g) (targetGamepadName g)
    (lastInputDevice g) (_gamepadInputCallback g)
    (_gamepadInputCallbackType g) (_keyboardInputCallback g) (_resetMap g)
    (keyMapper g) (gamepadMapper g) (_currentState g) (_previousState g) v
    (_latestButton g) (_pressedTime g) (_virtualButton g).

Definition set_latestButton (v : option (list string)) (g : Game) : Game :=
  mkGame (inputs g) (baseControlIconIndex g) (numButtonSets g)
    (activeButtonSet g) (activeGamepadIndex g) (targetGamepadName g)
    (lastInputDevice g) (_gamepadInputCallback g)
    (_gamepadInputCallbackType g) (_keyboardInputCallback g) (_resetMap g)
    (keyMapper g) (gamepadMapper g) (_currentState g) (_previousState g)
    (_gamepadStates g) v (_pressedTime g) (_virtualButton g).

Definition set_pressedTime (v : Z) (g : Game) : Game :=
  mkGame (inputs g) (baseControlIconIndex g) (numButtonSets g)
    (activeButtonSet g) (activeGamepadIndex g) (targetGamepadName g)
    (lastInputDevice g) (_gamepadInputCallback g)
    (_gamepadInputCallbackType g) (_keyboardInputCallback g) (_resetMap g)
    (keyMapper g) (gamepadMapper g) (_currentState g) (_previousState g)
    (_gamepadStates g) (_latestButton g) v (_virtualButton g).

Definition set_virtualButton (v : option string) (g : Game) : Game :=
  mkGame (inputs g) (baseControlIconIndex g) (numButtonSets g)
    (activeButtonSet g) (activeGamepadIndex g) (targetGamepadName g)
    (lastInputDevice g) (_gamepadInputCallback g)
    (_gamepadInputCallbackType g) (_keyboardInputCallback g) (_resetMap g)
    (keyMapper g) (gamepadMapper g) (_currentState g) (_previousState g)
    (_gamepadStates g) (_latestButton g) (_pressedTime g) v.

(** ** [Input.clear] (plugin override) *)

(** Every key of [_currentState] is set to [false]; the second loop
    writes [_currentState] again, for the keys of [_previousState], and
    leaves [_previousState] itself as it was. *)
Definition Input_clear (g : Game) : Game :=
  let cur := (fun '(k, _) => (k, false)) <$> _currentState g in
  let cur := fold_left (fun c k => obj_set k false c)
                       (obj_keys (_previousState g)) cur in
  set_virtualButton None
    (set_pressedTime 0%Z
      (set_latestButton None
        (set_gamepadStates ∅
          (set_currentState cur g)))).

(** ** [SQInput.rebuildButtonMapper] *)

(** [this.inputs[fn][type]] as a property name. The five functions read
    here are entries of the literal and nothing removes an entry, so the
    lookup is defined in every state the plugin reaches. *)
Definition bound (type : buttonType) (fn : string) (ins : obj InputFunction)
  : option string :=
  (fun input => propertyKey (input_prop type input)) <$> obj_get fn ins.

(** [map[this.inputs[fn][type]] = names] *)
Definition alias (type : buttonType) (fn : string) (names : list string)
    (ins : obj InputFunction) (m : gmap string (list string))
  : gmap string (list string) :=
  match bound type fn ins with
  | Some k => <[k := names]> m
  | None => m
  end.

(** [if (!map[k]) map[k] = names] *)
Definition ensure (k : string) (names : list string)
    (m : gmap string (list string)) : gmap string (list string) :=
  match m !! k with
  | Some _ => m
  | None => <[k := names]> m
  end.

(** The first loop of [rebuildButtonMapper]: the last function bound to a
    key replaces the earlier ones. *)
Definition keyboardLoop (ins : obj InputFunction) (m : gmap string (list string))
  : gmap string (list string) :=
  fold_left
    (fun m '(i, input) => <[propertyKey (keyboardButton input) := [i]]> m)
    ins m.

Definition newKeyboardMap (ins : obj InputFunction) : gmap string (list string) :=
  let m := keyboardLoop ins ∅ in
  let m := ensure "Tab" ["static_tab"] m in
  let m := ensure "Escape" ["static_escape"] m in
  let m := alias KeyboardButton "cancel" ["cancel"] ins m in
  let m := alias KeyboardButton "confirm" ["confirm"; "ok"] ins m in
  let m := alias KeyboardButton "dash" ["shift"] ins m in
  let m := alias KeyboardButton "cycle_left" ["pageup"] ins m in
  alias KeyboardButton "cycle_right" ["pagedown"] ins m.

(** The second loop of [rebuildButtonMapper]: every function bound to a
    button is pushed on the button's list. *)
Definition gamepadLoop (ins : obj InputFunction) (m : gmap string (list string))
  : gmap string (list string) :=
  fold_left
    (fun m '(i, input) =>
       let k := propertyKey (gamepadButton input) in
       <[k := default [] (m !! k) ++ [i]]> m)
    ins m.

Definition newGamepadMap (ins : obj InputFunction) : gmap string (list string) :=
  let m := gamepadLoop ins ∅ in
  let m := fold_left (fun m button => ensure button [] m) gamepadMapper_keys m in
  let m := alias GamepadButton "cancel" ["cancel"] ins m in
  let m := alias GamepadButton "confirm" ["confirm"; "ok"] ins m in
  alias GamepadButton "dash" ["shift"] ins m.

Definition rebuildButtonMapper (g : Game) : Game :=
  Input_clear
    (set_gamepadMapper (newGamepadMap (inputs g))
      (set_keyMapper (newKeyboardMap (inputs g)) g)).

(** ** Start-up *)

(** An entry of the [customControls] plugin parameter. *)
Record Control := mkControl {
  control_name : string;
  control_title : string;
  keyboardInput : value;
  controllerInput : value;
}.

(** The first loop of [SQInput.initialize]: remember the defaults. *)
Definition saveDefaults (ins : obj InputFunction) : obj InputFunction :=
  (fun '(i, input) =>
     (i, mkInputFunction (name input) (fieldTitle input)
           (keyboardButton input) (gamepadButton input)
           (keyboardButton input) (gamepadButton input) (Str i)))
  <$> ins.

(** One iteration of the loop of [SQInput.initCustomControls], for a
    control name that is neither an array index (JavaScript enumerates
    such a name before the others, [obj_set] puts a new name last) nor
    inherited from [Object.prototype] (the code then writes to the
    inherited object and the table gets no entry). *)
Definition addCustomControl (ins : obj InputFunction) (c : Control)
  : obj InputFunction :=
  let n := control_name c in
  let old :=
    match obj_get n ins with
    | Some input => input
    | None => mkInputFunction "" "" undefined undefined undefined undefined undefined
    end in
  obj_set n
    (mkInputFunction n (control_title c) (keyboardInput c) (controllerInput c)
       (defaultKeyboardButton old) (defaultGamepButton old) (Str n))
    ins.

Definition initCustomControls (customControls : list Control) (g : Game) : Game :=
  rebuildButtonMapper
    (set_inputs (fold_left addCustomControl customControls (inputs g)) g).

(** [SQInput.initialize], listeners and image loading left out. *)
Definition initialize (customControls : list Control) (g : Game) : Game :=
  initCustomControls customControls (set_inputs (saveDefaults (inputs g)) g).

(** The state when the plugin script has run: [iconOffset] and
    [buttonSetCount] are the plugin parameters ([None] when the
    parameter is missing, which [Number] turns into [NaN]). *)
Definition loaded (iconOffset : Z) (buttonSetCount : option Z) : Game :=
  let n :=
    match buttonSetCount with
    | Some c => if decide (Z.min c 4 = 0)%Z then 4%Z else Z.min c 4
    | None => 4%Z
    end in
  mkGame inputs_literal iconOffset n 0%Z None None keyboard None None None false
         ∅ ∅ [] [] ∅ None 0%Z None.

(** [Input.initialize] (plugin override): the engine's [initialize]
    clears the input state, then [SQInput.initialize] runs. *)
Definition Input_initialize (customControls : list Control) (g : Game) : Game :=
  initialize customControls (Input_clear g).

(** The state of a game started with the default parameters. *)
Definition boot : Game := Input_initialize [] (loaded 0 (Some 4%Z)).

(** ** Binding table operations *)

(** [SQInput.getInputByIndex]: [keys[index]] is [undefined] past the end,
    and [this.inputs[undefined]] reads the property named "undefined".
    Neither read can throw; [None] is the value [undefined]. *)
Definition getInputByIndex (index : nat) (g : Game)
  : completion (option InputFunction) :=
  let keys := obj_keys (inputs g) in
  match keys !! index with
  | Some k => Normal (obj_get k (inputs g))
  | None => Normal (obj_get "undefined" (inputs g))
  end.

(** [SQInput.resetMap] *)
Definition resetMap (g : Game) : Game :=
  rebuildButtonMapper
    (set_inputs
       ((fun '(i, input) =>
           (i, mkInputFunction (name input) (fieldTitle input)
                 (defaultKeyboardButton input) (defaultGamepButton input)
                 (defaultKeyboardButton input) (defaultGamepButton input)
                 (id input)))
        <$> inputs g)
       g).

(** The scan of [setControlButton] for another function that uses
    [keyCode]: the first one in enumeration order. *)
Fixpoint findDuplicate (control : string) (keyCode : value) (type : buttonType)
    (ins : obj InputFunction) : option string :=
  match ins with
  | [] => None
  | (i, input) :: rest =>
      if strict_eq (input_prop type input) keyCode && negb (bool_decide (i = control))
      then Some i
      else findDuplicate control keyCode type rest
  end.

(** [SQInput.setControlButton] *)
Definition setControlButton (control : string) (keyCode : value)
    (type : buttonType) (g : Game) : Game :=
  match obj_get control (inputs g) with
  | None => g
  | Some current =>
      let ins :=
        match findDuplicate control keyCode type (inputs g) with
        | Some duplicateFunction =>
            if truthy_string duplicateFunction then
              let currentControlKey := input_prop type current in
              obj_alter (set_input_prop type currentControlKey)
                        duplicateFunction (inputs g)
            else inputs g
        | None => inputs g
        end in
      rebuildButtonMapper
        (set_inputs (obj_alter (set_input_prop type keyCode) control ins) g)
  end.

Definition setGamepadButton (control : string) (buttonIndex : value) (g : Game)
  : Game := setControlButton control buttonIndex GamepadButton g.

Definition setKeyboardButton (control : string) (keyCode : value) (g : Game)
  : Game := setControlButton control keyCode KeyboardButton g.

(** ** Button sets and the preferred gamepad *)

Definition buttonSetSize : Z := 16.
Definition maxButtonSets : Z := 4.

(** [SQInput.defaultButtonIcon]: the icon to use if no other is available. *)
Definition defaultButtonIcon (g : Game) : Z :=
  (baseControlIconIndex g + buttonSetSize * maxButtonSets)%Z.

Definition baseKeyboardIconIndex (g : Game) : Z :=
  (baseControlIconIndex g + buttonSetSize * maxButtonSets)%Z.

Definition getButtonSet (g : Game) : Z := activeButtonSet g.

(** [SQInput.changeButtonSet]; [numButtonSets] is never 0. *)
Definition changeButtonSet (setIndex : Z) (g : Game) : Game :=
  set_activeButtonSet (Z.rem setIndex (numButtonSets g)) g.

Definition nextButtonSet (g : Game) : Game :=
  changeButtonSet (getButtonSet g + 1)%Z g.

Definition setTargetGamepadName (n : option string) (g : Game) : Game :=
  set_targetGamepadName n g.

(** [SQInput.setTargetGamepadIndex] *)
Definition setTargetGamepadIndex (allGamepads : gamepads) (gamepadIndex : nat)
    (g : Game) : Game :=
  match allGamepads !! gamepadIndex with
  | Some (Some pad) => setTargetGamepadName (Some (Gamepad.id pad)) g
  | _ => g
  end.

(** A loop over [allGamepads] that stops at the first connected slot
    accepted by [p]. *)
Fixpoint firstGamepad (p : Gamepad.t -> bool) (allGamepads : gamepads)
    (index : nat) : option nat :=
  match allGamepads with
  | [] => None
  | slot :: rest =>
      match slot with
      | Some pad =>
          if p pad then Some index else firstGamepad p rest (S index)
      | None => firstGamepad p rest (S index)
      end
  end.

(** [SQInput.updateActiveGamepad]; [!this.activeGamepadIndex] also holds
    for index 0. *)
Definition updateActiveGamepad (allGamepads : gamepads) (g : Game) : Game :=
  let g1 :=
    match targetGamepadName g with
    | Some target =>
        if truthy_string target then
          match firstGamepad (fun pad => bool_decide (Gamepad.id pad = target))
                             allGamepads 0 with
          | Some index => set_activeGamepadIndex (Some index) g
          | None => g
          end
        else g
    | None => g
    end in
  match activeGamepadIndex g1 with
  | Some (S _) => g1
  | _ =>
      match firstGamepad (fun _ => true) allGamepads 0 with
      | Some index => set_activeGamepadIndex (Some index) g1
      | None => g1
      end
  end.

(** ** One-shot capture callbacks *)

Definition onNextGamepadRelease (callback : H) (g : Game) : Game :=
  set_gamepadInputCallbackType (Some release)
    (set_gamepadInputCallback (Some callback) g).

Definition onNextGamepadPress (callback : H) (g : Game) : Game :=
  set_gamepadInputCallbackType (Some press)
    (set_gamepadInputCallback (Some callback) g).

Definition onNextGamepadInput (callback : H) (g : Game) : Game :=
  onNextGamepadPress callback g.

Definition cancelOnNextGamepadInput (g : Game) : Game :=
  set_gamepadInputCallbackType None (set_gamepadInputCallback None g).

Definition onNextKeyboardInput (callback : H) (g : Game) : Game :=
  set_keyboardInputCallback (Some callback) g.

Definition cancelOnNextKeyboardInput (g : Game) : Game :=
  set_keyboardInputCallback None g.

(** What calling a callback does to the state. *)
Variable run : H -> callArgs -> Game -> Game.

(** The state together with the callback invocations made so far, oldest
    first. The record of invocations is an observation: no code reads it. *)
Record Traced := mkTraced {
  game : Game;
  calls : list (H * callArgs);
}.

Definition on_game (f : Game -> Game) (t : Traced) : Traced :=
  mkTraced (f (game t)) (calls t).

(** [callback(args)] *)
Definition call (callback : H) (args : callArgs) (t : Traced) : Traced :=
  mkTraced (run callback args (game t)) (calls t ++ [(callback, args)]).

(** The tail of [nextGamepadInputHandler]: the device was just switched. *)
Definition trackGamepad (allGamepads : gamepads) (g : Game) : Game :=
  match lastInputDevice g with
  | gamepad => g
  | keyboard => set_lastInputDevice gamepad (updateActiveGamepad allGamepads g)
  end.

(** [SQInput.nextGamepadInputHandler] *)
Definition nextGamepadInputHandler (allGamepads : gamepads) (buttonIndex : nat)
    (type : edge) (t : Traced) : Traced :=
  let t1 :=
    match _gamepadInputCallback (game t), _gamepadInputCallbackType (game t) with
    | Some callback, Some armed =>
        if bool_decide (armed = type) then
          call callback (GamepadArgs buttonIndex type)
            (on_game (fun g => set_gamepadInputCallbackType None
                                 (set_gamepadInputCallback None g)) t)
        else t
    | _, _ => t
    end in
  on_game (trackGamepad allGamepads) t1.

(** [SQInput.nextKeyboardInputHandler] *)
Definition nextKeyboardInputHandler (event : KeyboardEvent) (t : Traced) : Traced :=
  let t1 :=
    match _keyboardInputCallback (game t) with
    | Some callback =>
        on_game (set_keyboardInputCallback None)
                (call callback (KeyboardArgs event) t)
    | None => t
    end in
  on_game (set_lastInputDevice keyboard) t1.

(** ** Saving and loading the control map *)

(** [SQInput.getControlMap] *)
Definition getControlMap (g : Game) : obj ControlMap.entry :=
  (fun '(func, funcData) =>
     (func, ControlMap.mk (keyboardButton funcData) (gamepadButton funcData)))
  <$> inputs g.

(** [SQInput.setControlMap]; [None] is a falsy [map]. *)
Definition setControlMap (map : option (obj ControlMap.entry)) (g : Game) : Game :=
  match map with
  | Some m =>
      rebuildButtonMapper
        (set_inputs
           (fold_left
              (fun ins '(key, buttons) =>
                 obj_alter
                   (fun func =>
                      set_input_prop KeyboardButton (ControlMap.keyboardButton buttons)
                        (set_input_prop GamepadButton (ControlMap.gamepadButton buttons)
                           func))
                   key ins)
              m (inputs g))
           g)
  | None => g
  end.

(** [ConfigManager.makeData], the part the plugin adds. *)
Definition ConfigManager_makeData (g : Game) : SQConfig :=
  mkSQConfig (Some (getButtonSet g)) (Some (targetGamepadName g))
             (Some (getControlMap g)).

(** [Number.prototype.clamp] of the engine. *)
Definition clamp (x lo hi : Z) : Z := Z.min (Z.max x lo) hi.

(** [ConfigManager.applyData], the part the plugin adds; on an integer
    [parseInt(b || 0)] is [b]. *)
Definition ConfigManager_applyData (sqConfig : SQConfig) (g : Game) : Game :=
  let buttonSet :=
    match buttonSet sqConfig with
    | Some b => clamp b 0 (numButtonSets g)
    | None => activeButtonSet g
    end in
  let gamepadName :=
    match gamepadName sqConfig with
    | Some n => n
    | None => None
    end in
  let controlMap :=
    match controlMap sqConfig with
    | Some m => m
    | None => []
    end in
  setControlMap (Some controlMap)
    (setTargetGamepadName gamepadName (changeButtonSet buttonSet g)).

(** ** Icon resolution *)

(** [table[key]] in arithmetic: a missing entry is [undefined], and
    adding [undefined] gives [NaN]. *)
Definition entry (table : gmap string Z) (key : string) : number :=
  match table !! key with
  | Some n => Int n
  | None => NaN
  end.

(** [SQInput.getKeyboardControlIconIndex]. Reading a property of a
    missing function throws, and so does [startsWith] on a binding that is
    not a string; for an inherited name [this.inputs[param]] is an object
    without [keyboardButton], and [startsWith] throws as well. *)
Definition getKeyboardControlIconIndex (param : string) (g : Game)
  : completion number :=
  match obj_get param (inputs g) with
  | None => Throw TypeError
  | Some input =>
      let iconIndex :=
        num_add (Int (baseKeyboardIconIndex g))
                (entry codeToIconIndex (propertyKey (keyboardButton input))) in
      match keyboardButton input with
      | Str s =>
          if String.prefix "Arrow" s
          then Normal (num_sub iconIndex (Int 64))
          else Normal iconIndex
      | _ => Throw TypeError
      end
  end.

(** [SQInput.getGamepadControlIconIndex]. For an inherited name
    [this.inputs[param]] is an object without [gamepadButton]: the table
    lookup gives [undefined] and the sum is [NaN]. *)
Definition getGamepadControlIconIndex (param : string) (g : Game)
  : completion number :=
  match obj_get param (inputs g) with
  | None => if inherited param then Normal NaN else Throw TypeError
  | Some input =>
      let buttonIndex :=
        entry gamepadIndexToIconIndex (propertyKey (gamepadButton input)) in
      Normal (num_add (Int (baseControlIconIndex g + buttonSetSize * activeButtonSet g))
                      buttonIndex)
  end.

Definition arrowCodes : list string :=
  ["ArrowLeft"; "ArrowUp"; "ArrowRight"; "ArrowDown"].

(** [arrowCodes.indexOf(param)] when [arrowCodes.includes(param)]. *)
Fixpoint indexOf (param : string) (l : list string) (i : Z) : option Z :=
  match l with
  | [] => None
  | x :: rest => if decide (x = param) then Some i else indexOf param rest (i + 1)%Z
  end.

(** [Window_Base.prototype.obtainEscapeCodeIconIndex], the icon image
    switching left out. [param in SQInput.inputs] also holds for an
    inherited name. In the [KB] branch [param in SQInput.codeToIconIndex]
    is the lookup in the table: for an inherited name the code adds a
    function to the base, which is no number, and the branch is the code's
    for every other name. *)
Definition obtainEscapeCodeIconIndex (code param : string) (g : Game)
  : completion number :=
  if bool_decide (code = "KBCTRL") && (obj_has param (inputs g) || inherited param) then
    getKeyboardControlIconIndex param g
  else if bool_decide (code = "JPCTRL") && (obj_has param (inputs g) || inherited param) then
    getGamepadControlIconIndex param g
  else if bool_decide (code = "CTRL") && (obj_has param (inputs g) || inherited param) then
    match lastInputDevice g with
    | keyboard => getKeyboardControlIconIndex param g
    | gamepad => getGamepadControlIconIndex param g
    end
  else if bool_decide (code = "KB") then
    match indexOf param arrowCodes 0 with
    | Some i => Normal (Int (baseControlIconIndex g + i))
    | None =>
        match codeToIconIndex !! param with
        | Some n => Normal (Int (baseKeyboardIconIndex g + n))
        | None => Normal (Int (defaultButtonIcon g))
        end
    end
  else if bool_decide (code = "JP") then
    let iconOffset := entry gamepadIndexToIconIndex param in
    let iconSet :=
      match iconOffset with
      | Int o => if bool_decide (0 <= o <= 3)%Z then 0%Z else activeButtonSet g
      | NaN => activeButtonSet g
      end in
    Normal (num_add (Int (baseControlIconIndex g + buttonSetSize * iconSet))
                    iconOffset)
  else Normal (Int (-1)).

(** ** Logical state queries *)

(** Engine code that the plugin calls and does not override
    ([Input._isEscapeCompatible] of rmmz_core.js). *)
Definition _isEscapeCompatible (keyName : string) : bool :=
  bool_decide (keyName = "cancel") || bool_decide (keyName = "menu").

(** Engine code that the plugin calls and does not override
    ([Input.isPressed] of rmmz_core.js). The inner call is on "escape",
    which is not escape compatible. *)
Definition Input_isPressed (keyName : string) (g : Game) : bool :=
  if _isEscapeCompatible keyName && obj_true "escape" (_currentState g)
  then true
  else obj_true keyName (_currentState g).

(** [SQInput.isVeryLongPressed] *)
Definition isVeryLongPressed (keyName : string) (g : Game) : bool :=
  Input_isPressed keyName g && bool_decide (300 <= _pressedTime g)%Z.

(** [this._latestButton.contains(keyName)]; [_latestButton] is [null]
    after [Input.clear]. *)
Definition latestContains (keyName : string) (g : Game) : completion bool :=
  match _latestButton g with
  | Some l => Normal (bool_decide (keyName ∈ l))
  | None => Throw TypeError
  end.

(** The [else] branch of [Input.isTriggered]. *)
Definition isTriggered_direct (keyName : string) (g : Game) : completion bool :=
  match latestContains keyName g with
  | Normal b => Normal (b && bool_decide (_pressedTime g = 0)%Z)
  | Throw e => Throw e
  end.

(** [Input.isTriggered] (plugin override) *)
Definition Input_isTriggered (keyName : string) (g : Game) : completion bool :=
  if _isEscapeCompatible keyName then
    match isTriggered_direct "escape" g with
    | Normal true => Normal true
    | Normal false => isTriggered_direct keyName g
    | Throw e => Throw e
    end
  else isTriggered_direct keyName g.

(** Modelled from the spec: the engine's [Input.keyRepeatWait], the
    delay before a held input repeats (24 frames by default). *)
Definition keyRepeatWait : Z := 24.

(** Modelled from the spec: the engine's [Input.keyRepeatInterval], the
    number of frames between repeats (6 by default). *)
Definition keyRepeatInterval : Z := 6.

(** The [else] branch of [Input.isRepeated]. *)
Definition isRepeated_direct (keyName : string) (g : Game) : completion bool :=
  match latestContains keyName g with
  | Normal b =>
      Normal (b && (bool_decide (_pressedTime g = 0)%Z
                    || (bool_decide (keyRepeatWait <= _pressedTime g)%Z
                        && bool_decide (Z.rem (_pressedTime g) keyRepeatInterval = 0)%Z)))
  | Throw e => Throw e
  end.

(** [Input.isRepeated] (plugin override) *)
Definition Input_isRepeated (keyName : string) (g : Game) : completion bool :=
  if _isEscapeCompatible keyName then
    match isRepeated_direct "escape" g with
    | Normal true => Normal true
    | Normal false => isRepeated_direct keyName g
    | Throw e => Throw e
    end
  else isRepeated_direct keyName g.

(** ** Polling the gamepad *)

Definition threshold : Q := 1 # 2.

(** [axes[i] < -threshold]; a missing axis compares false. *)
Definition axisBelow (pad : Gamepad.t) (i : nat) : bool :=
  match Gamepad.axes pad !! i with
  | Some x => if Qlt_le_dec x (- threshold) then true else false
  | None => false
  end.

(** [axes[i] > threshold] *)
Definition axisAbove (pad : Gamepad.t) (i : nat) : bool :=
  match Gamepad.axes pad !! i with
  | Some x => if Qlt_le_dec threshold x then true else false
  | None => false
  end.

(** The [newState] array that [originalUpdateGamepadState] builds. *)
Definition readGamepad (pad : Gamepad.t) : jsarray :=
  let newState := arr_set 15 false (arr_set 14 false (arr_set 13 false (arr_set 12 false []))) in
  let newState :=
    fold_left
      (fun a i =>
         match Gamepad.buttons pad !! i with
         | Some pressed => arr_set i pressed a
         | None => a
         end)
      (seq 0 (length (Gamepad.buttons pad))) newState in
  let newState :=
    if axisBelow pad 1 then arr_set 12 true newState
    else if axisAbove pad 1 then arr_set 13 true newState
    else newState in
  if axisBelow pad 0 then arr_set 14 true newState
  else if axisAbove pad 0 then arr_set 15 true newState
  else newState.

(** [for (let b of buttonNames) this._currentState[b] = v] *)
Definition setNames (buttonNames : list string) (v : bool) (g : Game) : Game :=
  fold_left (fun g b => set_currentState (obj_set b v (_currentState g)) g)
            buttonNames g.

(** The body of the loop of [originalUpdateGamepadState] over [j]. *)
Definition applyTransition (lastState newState : jsarray) (g : Game) (j : nat)
  : Game :=
  if decide (arr_get newState j = arr_get lastState j) then g
  else
    match gamepadMapper g !! pretty j with
    | Some buttonNames => setNames buttonNames (default false (arr_get newState j)) g
    | None => g
    end.

(** [SQInput.originalUpdateGamepadState]; the snapshot of the axes, which
    only the joystick getters read, is left out. *)
Definition originalUpdateGamepadState (pad : Gamepad.t) (g : Game) : Game :=
  let lastState := default [] (_gamepadStates g !! Gamepad.index pad) in
  let newState := readGamepad pad in
  let g := fold_left (applyTransition lastState newState)
                     (seq 0 (length newState)) g in
  set_gamepadStates (<[Gamepad.index pad := newState]> (_gamepadStates g)) g.

(** The loop of [Input._updateGamepadState] over the indices of
    [originalState]: it stops at the first index whose value changed. *)
Fixpoint scanTransitions (indices : list nat) (originalState newState : jsarray)
  : option (nat * edge) :=
  match indices with
  | [] => None
  | i :: rest =>
      if decide (arr_get originalState i = arr_get newState i)
      then scanTransitions rest originalState newState
      else Some (i, if decide (arr_get newState i = Some true) then press else release)
  end.

Definition firstTransition (originalState newState : jsarray) : option (nat * edge) :=
  scanTransitions (seq 0 (length originalState)) originalState newState.

(** The first half of [Input._updateGamepadState]: resolve the active
    gamepad if there is none, and read [pad] if it is the active one. *)
Definition readActive (allGamepads : gamepads) (pad : Gamepad.t) (g : Game) : Game :=
  let g :=
    match activeGamepadIndex g with
    | None => updateActiveGamepad allGamepads g
    | Some _ => g
    end in
  if decide (activeGamepadIndex g = Some (Gamepad.index pad))
  then originalUpdateGamepadState pad g
  else g.

(** [Input._updateGamepadState] (plugin override) *)
Definition Input_updateGamepadState (allGamepads : gamepads) (pad : Gamepad.t)
    (t : Traced) : Traced :=
  let originalState := default [] (_gamepadStates (game t) !! Gamepad.index pad) in
  let t := on_game (readActive allGamepads pad) t in
  let newState := default [] (_gamepadStates (game t) !! Gamepad.index pad) in
  match firstTransition originalState newState with
  | Some (i, type) => nextGamepadInputHandler allGamepads i type t
  | None => t
  end.

(** Engine code that the plugin calls and does not override
    ([Input._pollGamepads] of rmmz_core.js): every connected gamepad is
    passed to [_updateGamepadState]. *)
Definition Input_pollGamepads (allGamepads : gamepads) (t : Traced) : Traced :=
  fold_left
    (fun t slot =>
       match slot with
       | Some pad =>
           if Gamepad.connected pad then Input_updateGamepadState allGamepads pad t
           else t
       | None => t
       end)
    allGamepads t.

(** ** The frame update and the keyboard events *)

(** The body of the loop of [Input.update] for one name of
    [_currentState]. *)
Definition detectPress (g : Game) (entry : string * bool) : Game :=
  let '(name, current) := entry in
  let g :=
    if current && negb (obj_true name (_previousState g)) then
      set_pressedTime 0%Z
        (set_latestButton (Some (default [] (_latestButton g) ++ [name])) g)
    else g in
  set_previousState (obj_set name current (_previousState g)) g.

(** The loop of [Input.update] over the names of [_currentState]. *)
Definition detectPresses (g : Game) : Game :=
  fold_left detectPress (_currentState g) g.

(** The failsafe at the end of [Input.update]. *)
Definition failsafe (g : Game) : Game :=
  let longPressEscape :=
    isVeryLongPressed "escape" g || isVeryLongPressed "static_escape" g in
  let longPressTab :=
    isVeryLongPressed "tab" g || isVeryLongPressed "static_tab" g in
  if longPressEscape && longPressTab && negb (_resetMap g) then
    set_resetMap true (resetMap g)
  else if negb longPressEscape || negb longPressTab then
    set_resetMap false g
  else g.

(** [if (!this._latestButton) this._latestButton = []] *)
Definition ensureLatest (g : Game) : Game :=
  match _latestButton g with
  | Some l => g
  | None => set_latestButton (Some []) g
  end.

(** The hold counter of [Input.update]: it advances while the first
    latest button is held, and the latest buttons are dropped otherwise. *)
Definition countHold (g : Game) : Game :=
  match default [] (_latestButton g) with
  | first :: _ =>
      if obj_true first (_currentState g)
      then set_pressedTime (_pressedTime g + 1)%Z g
      else set_latestButton (Some []) g
  | [] => set_latestButton (Some []) g
  end.

(** [if (this._virtualButton) ...] *)
Definition takeVirtualButton (g : Game) : Game :=
  match _virtualButton g with
  | Some b =>
      if truthy_string b then
        set_virtualButton None
          (set_pressedTime 0%Z (set_latestButton (Some [b]) g))
      else g
  | None => g
  end.

(** What [Input.update] does after polling, step by step. The engine's
    [_updateDirection], which only writes the direction fields, and the
    sound are left out. *)
Definition afterPoll (g : Game) : Game :=
  failsafe (takeVirtualButton (detectPresses (countHold (ensureLatest g)))).

(** [Input.update] (plugin override) *)
Definition Input_update (allGamepads : gamepads) (t : Traced) : Traced :=
  on_game afterPoll (Input_pollGamepads allGamepads t).

(** [event.code || event.which] as a property name. *)
Definition eventKey (event : KeyboardEvent) : string :=
  if truthy_string (code event) then code event else pretty (which event).

(** [Input._onKeyDown] (plugin override), [preventDefault] left out. *)
Definition Input_onKeyDown (event : KeyboardEvent) (g : Game) : Game :=
  let g := if decide (keyCode event = 144)%Z then Input_clear g else g in
  match keyMapper g !! eventKey event with
  | Some buttonNames => setNames buttonNames true g
  | None => g
  end.

(** [Input._onKeyUp] (plugin override) *)
Definition Input_onKeyUp (event : KeyboardEvent) (g : Game) : Game :=
  match keyMapper g !! eventKey event with
  | Some buttonNames => setNames buttonNames false g
  | None => g
  end.

(** A [keydown] event reaches the engine's listener, registered when
    [Input] is set up, and then the one [SQInput.initialize] adds. *)
Definition keydown (event : KeyboardEvent) (t : Traced) : Traced :=
  nextKeyboardInputHandler event (on_game (Input_onKeyDown event) t).

Definition keyup (event : KeyboardEvent) (t : Traced) : Traced :=
  on_game (Input_onKeyUp event) t.

End Plugin.

Arguments Game : clear implicits.
Arguments Traced : clear implicits.

(** ** The remap scene *)

(** The functions that [Scene_SQControls.prototype.startRemap] passes as
    capture callbacks. [targetFunction] is the entry of [SQInput.inputs]
    picked when the remap starts; the callbacks read only its [id], which
    no code changes after start-up. *)
Inductive SceneCallback :=
  | remapKeyboardInputHandler (targetFunction : InputFunction)
  | remapGamepadInputHandler (targetFunction : InputFunction)
  | armRelease (targetFunction : InputFunction).

(** [Scene_SQControls.prototype.cancelRemap] as far as the input state
    goes; the prompt window it deactivates is in [Scene_cancelRemap]. *)
Definition cancelRemap (g : Game SceneCallback) : Game SceneCallback :=
  cancelOnNextKeyboardInput (cancelOnNextGamepadInput g).

(** What each callback does when it is called. A callback called with the
    arguments of the other device reads [undefined] for what it expects. *)
Definition Scene_run (callback : SceneCallback) (args : callArgs)
    (g : Game SceneCallback) : Game SceneCallback :=
  match callback with
  | remapKeyboardInputHandler targetFunction =>
      match args with
      | KeyboardArgs event =>
          if decide (which event = 27)%Z then cancelRemap g
          else cancelRemap
                 (setKeyboardButton (propertyKey (id targetFunction))
                                    (Str (code event)) g)
      | GamepadArgs _ _ =>
          cancelRemap
            (setKeyboardButton (propertyKey (id targetFunction)) undefined g)
      end
  | remapGamepadInputHandler targetFunction =>
      match args with
      | GamepadArgs buttonIndex release =>
          cancelRemap
            (setGamepadButton (propertyKey (id targetFunction))
                              (Num (Z.of_nat buttonIndex)) g)
      | _ => cancelRemap g
      end
  | armRelease targetFunction =>
      onNextGamepadRelease (remapGamepadInputHandler targetFunction) g
  end.

(** [Scene_SQControls.prototype.startRemap] for the selected cell of the
    controls window, as far as the input state goes; the prompt window it
    activates is in [Scene_startRemap]. The prompt window reads
    [targetFunction.fieldTitle], which throws when the row has no
    function. *)
Definition startRemap (selectedIndex : nat) (g : Game SceneCallback)
  : completion (Game SceneCallback) :=
  let indexMod := (selectedIndex mod 3)%nat in
  if decide (indexMod = 0)%nat then Normal g
  else
    match getInputByIndex (selectedIndex / 3)%nat g with
    | Normal (Some targetFunction) =>
        if decide (indexMod = 2)%nat then
          Normal (onNextKeyboardInput (remapKeyboardInputHandler targetFunction) g)
        else
          Normal (onNextGamepadPress (armRelease targetFunction) g)
    | Normal None => Throw TypeError
    | Throw e => Throw e
    end.

(** ** The remap prompt window *)

(** The controls scene as far as a remap goes: the input state with the
    callback invocations made so far, and the [active] flag of the remap
    prompt window, which the scene creates deactivated. *)
Record Scene := mkScene {
  input : Traced SceneCallback;
  promptActive : bool;
}.

(** [Scene_SQControls.prototype.cancelRemap] with the prompt window; the
    other windows, and the timer that gives the controls window back its
    focus, are left out. *)
Definition Scene_cancelRemap (s : Scene) : Scene :=
  mkScene (on_game cancelRemap (input s)) false.

(** [Scene_SQControls.prototype.startRemap] with the prompt window, which
    is activated before the target function is looked up. *)
Definition Scene_startRemap (selectedIndex : nat) (s : Scene) : completion Scene :=
  match startRemap selectedIndex (game (input s)) with
  | Normal g =>
      Normal
        (mkScene (mkTraced g (calls (input s)))
                 (if decide (selectedIndex mod 3 = 0)%nat then promptActive s else true))
  | Throw e => Throw e
  end.

(** [selectPressed] of [Window_SQControlRemapPrompt.prototype.update]:
    button 8 in the stored state of the selected gamepad; a missing state
    and a hole of the array are falsy. *)
Definition selectPressed (g : Game SceneCallback) : bool :=
  match activeGamepadIndex g with
  | Some index =>
      match _gamepadStates g !! index with
      | Some state => default false (arr_get state 8)
      | None => false
      end
  | None => false
  end.

(** The test of [Window_SQControlRemapPrompt.prototype.update] next to
    [this.active]. *)
Definition promptCancels (g : Game SceneCallback) : bool :=
  (selectPressed g && bool_decide (24 <= _pressedTime g)%Z)
  || Input_isPressed "static_escape" g.

(** [Window_SQControlRemapPrompt.prototype.update], the engine's
    [Window_Base.prototype.update] and the sound left out. *)
Definition Prompt_update (s : Scene) : Scene :=
  if promptActive s && promptCancels (game (input s))
  then Scene_cancelRemap s
  else s.

(** A call of one of the two remap handlers: both end with
    [cancelRemap], which deactivates the prompt window. *)
Definition closesPrompt (call : SceneCallback * callArgs) : bool :=
  match call.1 with
  | armRelease _ => false
  | _ => true
  end.

(** Input code run from the scene. The prompt's flag is not part of the
    input state: it is cleared here if the code called a remap handler. *)
Definition Scene_input (f : Traced SceneCallback -> Traced SceneCallback)
    (s : Scene) : Scene :=
  let t := f (input s) in
  mkScene t
    (promptActive s
     && forallb (fun call => negb (closesPrompt call))
                (drop (length (calls (input s))) (calls t))).

(** Modelled from the engine ([SceneManager.updateMain] of
    rmmz_managers.js): a frame updates the input and then the scene, whose
    windows are updated in turn. *)
Definition Scene_frame (allGamepads : gamepads) (s : Scene) : Scene :=
  Prompt_update (Scene_input (Input_update Scene_run allGamepads) s).

(** The gamepad capture that waits in a scene. *)
Definition gamepadCapture (s : Scene) : option SceneCallback * option edge :=
  (_gamepadInputCallback (game (input s)), _gamepadInputCallbackType (game (input s))).

(** [n] frames of the scene with the same gamepad snapshot. *)
Fixpoint Scene_frames (allGamepads : gamepads) (n : nat) (s : Scene) : Scene :=
  match n with
  | O => s
  | S n => Scene_frame allGamepads (Scene_frames allGamepads n s)
  end.

(** ** Vocabulary of the statements *)

(** No two distinct functions of the table have the same value in the
    slot [type]. *)
Definition injective_slot (type : buttonType) (ins : obj InputFunction) : Prop :=
  forall i j a b,
    obj_get i ins = Some a -> obj_get j ins = Some b -> i <> j ->
    input_prop type a <> input_prop type b.

(** A call [setControlButton(control, value, slot)]. *)
Record rebind := mkRebind {
  rebind_control : string;
  rebind_value : value;
  rebind_slot : buttonType;
}.

Definition rebinds {H} (calls : list rebind) (g : Game H) : Game H :=
  fold_left
    (fun g c => setControlButton (rebind_control c) (rebind_value c) (rebind_slot c) g)
    calls g.

(** What every table reached by rebinding from the defaults satisfies. *)
Definition table_ok (ins : obj InputFunction) : Prop :=
  obj_keys ins = obj_keys inputs_literal /\
  injective_slot KeyboardButton ins /\ injective_slot GamepadButton ins.

(** The table that [setControlButton] leaves, read off its body. *)
Definition rebound (control : string) (keyCode : value) (type : buttonType)
    (ins : obj InputFunction) : obj InputFunction :=
  match obj_get control ins with
  | None => ins
  | Some current =>
      obj_alter (set_input_prop type keyCode) control
        match findDuplicate control keyCode type ins with
        | Some d =>
            if truthy_string d
            then obj_alter (set_input_prop type (input_prop type current)) d ins
            else ins
        | None => ins
        end
  end.

(** Gamepad edges delivered one after the other to
    [nextGamepadInputHandler]. *)
Definition gamepadEdges {H} (run : H -> callArgs -> Game H -> Game H)
    (allGamepads : gamepads) (edges : list (nat * edge)) (t : Traced H)
  : Traced H :=
  fold_left
    (fun t '(buttonIndex, type) =>
       nextGamepadInputHandler run allGamepads buttonIndex type t)
    edges t.

(** [j] writes the name [b]: its value changed and [b] is one of the
    names the gamepad map gives for it. *)
Definition writes (o n : jsarray) (m : gmap string (list string)) (j : nat)
    (b : string) : Prop :=
  arr_get n j <> arr_get o j /\
  exists names, m !! pretty j = Some names /\ b ∈ names.

(** The names that the loop of [Input.update] pushes on [_latestButton]:
    those that are held now and were not held at the previous update. *)
Fixpoint pressedNow (current previous : obj bool) : list string :=
  match current with
  | [] => []
  | (name, held) :: rest =>
      if held && negb (obj_true name previous)
      then name :: pressedNow rest previous
      else pressedNow rest previous
  end.

(** Both halves of the failsafe chord are held. *)
Definition failsafeHeld {H} (g : Game H) : bool :=
  (Input_isPressed "escape" g || Input_isPressed "static_escape" g)
  && (Input_isPressed "tab" g || Input_isPressed "static_tab" g).

(** No gamepad is connected. *)
Definition noGamepad (allGamepads : gamepads) : Prop :=
  Forall (fun slot => match slot with
                      | Some pad => Gamepad.connected pad = false
                      | None => True
                      end) allGamepads.

(** Nothing is held and nothing is pending: every logical name is
    released in both snapshots, no virtual click and no keyboard capture
    is waiting. [_currentState] is an object: its keys are distinct. *)
Definition atRest {H} (g : Game H) : Prop :=
  NoDup (obj_keys (_currentState g)) /\
  (forall k, obj_true k (_currentState g) = false) /\
  (forall k, obj_true k (_previousState g) = false) /\
  _virtualButton g = None /\
  _keyboardInputCallback g = None.

(** [n] calls of [Input.update], one per frame. *)
Fixpoint frames {H} (run : H -> callArgs -> Game H -> Game H)
    (allGamepads : gamepads) (n : nat) (t : Traced H) : Traced H :=
  match n with
  | O => t
  | S n => Input_update run allGamepads (frames run allGamepads n t)
  end.


(** A first name of [_latestButton] is still held. *)
Definition firstHeld {H} (g : Game H) : Prop :=
  exists first rest,
    _latestButton g = Some (first :: rest) /\
    obj_true first (_currentState g) = true.

(** A held input that [Input.update] has already seen: the first latest
    button is held, the previous snapshot agrees with the current one,
    and neither a virtual click nor the failsafe chord interferes. *)
Definition holding {H} (g : Game H) : Prop :=
  NoDup (obj_keys (_currentState g)) /\
  firstHeld g /\
  pressedNow (_currentState g) (_previousState g) = [] /\
  _virtualButton g = None /\
  failsafeHeld g = false.

(** The keyboard and gamepad binding of an entry of the table. *)
Definition bindings (input : InputFunction) : value * value :=
  (keyboardButton input, gamepadButton input).

(** A callback that does nothing, and a key event. *)
Definition noCallback : unit -> callArgs -> Game unit -> Game unit :=
  fun _ _ g => g.

Definition keyEvent (code : string) (keyCode : Z) : KeyboardEvent :=
  mkKeyboardEvent code keyCode keyCode.

(** A standard gamepad with the given pressed buttons and centred sticks. *)
Definition pad (pressed : list bool) : Gamepad.t :=
  Gamepad.mk 0 "Pad" true pressed [0%Q; 0%Q; 0%Q; 0%Q].

Definition menuFunction : InputFunction :=
  mkInputFunction "menu" "Menu" (Str "KeyS") (Num 3) (Str "KeyS") (Num 3) (Str "menu").

(** ** Vocabulary of the further properties *)

(** Key-down events delivered one after the other. *)
Definition keydowns {H} (run : H -> callArgs -> Game H -> Game H)
    (events : list KeyboardEvent) (t : Traced H) : Traced H :=
  fold_left (fun t event => keydown run event t) events t.

(** A property name that is an array index, such as "0" or "12": digits
    (character codes 48 to 57) without a leading zero. JavaScript
    enumerates such names before every other name of an object, whatever
    the order of insertion. *)
Definition digit (c : Ascii.ascii) : bool :=
  (48 <=? Ascii.nat_of_ascii c)%nat && (Ascii.nat_of_ascii c <=? 57)%nat.

Definition arrayIndex (s : string) : bool :=
  match s with
  | EmptyString => false
  | String c rest =>
      forallb digit (String.list_ascii_of_string s)
      && (negb (Ascii.nat_of_ascii c =? 48)%nat || bool_decide (rest = ""))
  end.

(** The defaults of a function that is not built in are [undefined]. *)
Definition customUnset (ins : obj InputFunction) : Prop :=
  forall n input,
    obj_get n ins = Some input -> n ∉ obj_keys inputs_literal ->
    defaultKeyboardButton input = undefined /\ defaultGamepButton input = undefined.

(** No function of the table is bound to the key [k]. *)
Definition keyUnbound (k : string) (ins : obj InputFunction) : Prop :=
  Forall (fun p => propertyKey (keyboardButton p.2) <> k) ins.

(** The names that [rebuildButtonMapper] writes over the entries of the
    built-in functions, in the order of the assignments. *)
Definition aliases (type : buttonType) : list (string * list string) :=
  match type with
  | KeyboardButton =>
      [("cancel", ["cancel"]); ("confirm", ["confirm"; "ok"]); ("dash", ["shift"]);
       ("cycle_left", ["pageup"]); ("cycle_right", ["pagedown"])]
  | GamepadButton =>
      [("cancel", ["cancel"]); ("confirm", ["confirm"; "ok"]); ("dash", ["shift"])]
  end.

(** The lookup map of a slot. *)
Definition mapper {H} (type : buttonType) (g : Game H) : gmap string (list string) :=
  match type with
  | KeyboardButton => keyMapper g
  | GamepadButton => gamepadMapper g
  end.

(** None of the built-in functions in [als] is bound to [k]. *)
Definition noAlias (type : buttonType) (k : string) (ins : obj InputFunction)
    (als : list (string * list string)) : Prop :=
  Forall (fun a => bound type a.1 ins <> Some k) als.

(** [index] is the first connected slot of [allGamepads] whose gamepad
    satisfies [p]. *)
Definition firstSlot (p : Gamepad.t -> bool) (allGamepads : gamepads)
    (index : nat) : Prop :=
  (exists pad, allGamepads !! index = Some (Some pad) /\ p pad = true) /\
  forall j pad, (j < index)%nat -> allGamepads !! j = Some (Some pad) -> p pad = false.

(** [n] calls of [nextButtonSet]. *)
Fixpoint nextButtonSets {H} (n : nat) (g : Game H) : Game H :=
  match n with
  | O => g
  | S n => nextButtonSet (nextButtonSets n g)
  end.

(** What [setControlMap] writes into a function for an entry of the map. *)
Definition restore (buttons : ControlMap.entry) (func : InputFunction)
  : InputFunction :=
  set_input_prop KeyboardButton (ControlMap.keyboardButton buttons)
    (set_input_prop GamepadButton (ControlMap.gamepadButton buttons) func).

(** What the sticks contribute to index [i] of the gamepad read: the left
    stick doubles the d-pad. *)
Definition stick (pad : Gamepad.t) (i : nat) : bool :=
  match i with
  | 12 => axisBelow pad 1
  | 13 => axisAbove pad 1
  | 14 => axisBelow pad 0
  | 15 => axisAbove pad 0
  | _ => false
  end%nat.

(** The property names of the four d-pad buttons. *)
Definition dpadButtons : list string := ["12"; "13"; "14"; "15"].

(** [navigator.getGamepads()] has each gamepad at the position of its
    [index]. *)
Definition wellIndexed (allGamepads : gamepads) : Prop :=
  forall i pad, allGamepads !! i = Some (Some pad) -> Gamepad.index pad = i.

(** A poll of [allGamepads] finds nothing new: a gamepad is selected, and
    if a connected gamepad is the selected one, the state stored for it is
    what a read of it returns. With no connected gamepad this holds of
    every state. *)
Definition steady {H} (allGamepads : gamepads) (g : Game H) : Prop :=
  Forall (fun slot =>
            match slot with
            | Some pad =>
                Gamepad.connected pad = true ->
                exists a, activeGamepadIndex g = Some a /\
                  (a = Gamepad.index pad ->
                   _gamepadStates g !! a = Some (readGamepad pad))
            | None => True
            end) allGamepads.


(** Button [j] of the selected gamepad, which gives the names [names],
    goes down at the next poll of [allGamepads], and that is the only
    change of the poll: the gamepad is connected at the slot of its index,
    index [j] of its read is pressed and was not in the stored state, and
    every other index reads as stored. No gamepad capture is armed, and
    [updateActiveGamepad] would select the same gamepad. *)
Definition buttonGoesDown {H} (allGamepads : gamepads) (g : Game H) (j : nat)
    (names : list string) : Prop :=
  exists a p old,
    wellIndexed allGamepads /\
    allGamepads !! a = Some (Some p) /\
    Gamepad.connected p = true /\
    activeGamepadIndex g = Some a /\
    activeGamepadIndex (updateActiveGamepad allGamepads g) = Some a /\
    _gamepadInputCallback g = None /\
    _gamepadStates g !! a = Some old /\
    arr_get (readGamepad p) j = Some true /\
    arr_get old j <> Some true /\
    (forall i, i <> j -> arr_get (readGamepad p) i = arr_get old i) /\
    gamepadMapper g !! pretty j = Some names.

(** A standard gamepad in slot 0 with only button [j] down. *)
Definition padWith (j : nat) : gamepads :=
  [Some (pad (<[j := true]> (replicate 16 false)))].

(** * Properties *)

(** ** Objects *)

Section Objects.
Context {V : Type}.
Implicit Types (o : obj V) (k : string).

Lemma obj_get_alter (f : V -> V) k k' o :
  obj_get k (obj_alter f k' o)
  = if decide (k = k') then f <$> obj_get k o else obj_get k o.
Proof.
  induction o as [|[k0 v] o IH]; simpl.
  - by case_decide.
  - destruct (decide (k0 = k')) as [->|Hne]; simpl.
    + destruct (decide (k' = k)) as [->|Hne']; simpl.
      * by rewrite decide_True.
      * by rewrite decide_False.
    + destruct (decide (k0 = k)) as [->|Hne']; simpl.
      * by rewrite decide_False.
      * apply IH.
Qed.

Lemma obj_keys_alter (f : V -> V) k o : obj_keys (obj_alter f k o) = obj_keys o.
Proof.
  induction o as [|[k0 v] o IH]; simpl; [done|].
  case_decide; simpl; [done|]. f_equal. apply IH.
Qed.

Lemma obj_get_Some_keys k v o : obj_get k o = Some v -> k ∈ obj_keys o.
Proof.
  induction o as [|[k0 v0] o IH]; simpl; [done|].
  case_decide; subst.
  - intros _. left.
  - intros Hg. right. by apply IH.
Qed.

Lemma obj_get_elem k v o : obj_get k o = Some v -> (k, v) ∈ o.
Proof.
  induction o as [|[k0 v0] o IH]; simpl; [done|].
  case_decide; subst.
  - intros [= ->]. left.
  - intros Hg. right. by apply IH.
Qed.

Lemma obj_get_None_keys k o : obj_get k o = None <-> k ∉ obj_keys o.
Proof.
  induction o as [|[k0 v0] o IH]; simpl.
  - split; [intros _; apply not_elem_of_nil | done].
  - rewrite not_elem_of_cons. case_decide; subst.
    + split; [done | intros [? _]; done].
    + rewrite IH. split; [intros ?; split; congruence | intros [_ ?]; done].
Qed.

Lemma obj_elem_get k v o : NoDup (obj_keys o) -> (k, v) ∈ o -> obj_get k o = Some v.
Proof.
  induction o as [|[k0 v0] o IH]; simpl.
  - intros _ Hin. by apply elem_of_nil in Hin.
  - intros Hnd Hin. apply NoDup_cons in Hnd as [Hnot Hnd].
    apply elem_of_cons in Hin as [[= -> ->]|Hin].
    + by rewrite decide_True.
    + rewrite decide_False; [by apply IH|].
      intros ->. apply Hnot. apply (list_elem_of_fmap_2 fst) in Hin. exact Hin.
Qed.

Lemma obj_get_lookup (i : nat) k v o :
  NoDup (obj_keys o) -> o !! i = Some (k, v) -> obj_get k o = Some v.
Proof.
  intros Hnd Hl. apply obj_elem_get; [done|]. by eapply list_elem_of_lookup_2.
Qed.

End Objects.

(** ** Rebinding *)

Section Table.
Context {H : Type}.
Implicit Types (g : Game H) (ins : obj InputFunction).

Lemma inputs_Input_clear g : inputs (Input_clear g) = inputs g.
Proof. reflexivity. Qed.

Lemma inputs_rebuildButtonMapper g : inputs (rebuildButtonMapper g) = inputs g.
Proof. reflexivity. Qed.

Lemma input_prop_set_same type v input :
  input_prop type (set_input_prop type v input) = v.
Proof. by destruct type. Qed.

Lemma input_prop_set_other type type' v input :
  type <> type' -> input_prop type (set_input_prop type' v input) = input_prop type input.
Proof. by destruct type, type'. Qed.

Lemma findDuplicate_Some control keyCode type ins d :
  findDuplicate control keyCode type ins = Some d ->
  d <> control /\ exists input, (d, input) ∈ ins /\ input_prop type input = keyCode.
Proof.
  induction ins as [|[i input] ins IH]; simpl; [done|].
  destruct (strict_eq (input_prop type input) keyCode
            && negb (bool_decide (i = control))) eqn:E.
  - intros [= <-]. apply andb_true_iff in E as [E1 E2].
    apply bool_decide_eq_true in E1. apply negb_true_iff, bool_decide_eq_false in E2.
    split; [done|]. exists input. split; [left | done].
  - intros Hd. destruct (IH Hd) as (Hne & input' & Hin & Hp).
    split; [done|]. exists input'. split; [by right | done].
Qed.

Lemma findDuplicate_None control keyCode type ins i input :
  findDuplicate control keyCode type ins = None ->
  (i, input) ∈ ins -> i <> control -> input_prop type input <> keyCode.
Proof.
  induction ins as [|[i0 input0] ins IH]; simpl.
  - intros _ Hin. by apply elem_of_nil in Hin.
  - destruct (strict_eq (input_prop type input0) keyCode
              && negb (bool_decide (i0 = control))) eqn:E; [done|].
    intros Hd Hin Hne. apply elem_of_cons in Hin as [[= -> ->]|Hin]; [|by apply IH].
    apply andb_false_iff in E as [E|E].
    + by apply bool_decide_eq_false in E.
    + apply negb_false_iff, bool_decide_eq_true in E. done.
Qed.

Lemma inputs_setControlButton control keyCode type g :
  inputs (setControlButton control keyCode type g)
  = rebound control keyCode type (inputs g).
Proof.
  unfold setControlButton, rebound. by destruct (obj_get control (inputs g)).
Qed.

Lemma obj_keys_rebound control keyCode type ins :
  obj_keys (rebound control keyCode type ins) = obj_keys ins.
Proof.
  unfold rebound. destruct (obj_get control ins); [|done].
  rewrite obj_keys_alter.
  destruct (findDuplicate _ _ _ _); [|done].
  destruct (truthy_string _); [|done]. apply obj_keys_alter.
Qed.

Lemma rebound_other_slot control keyCode type type' ins i :
  type <> type' ->
  input_prop type <$> obj_get i (rebound control keyCode type' ins)
  = input_prop type <$> obj_get i ins.
Proof.
  intros Hne. unfold rebound. destruct (obj_get control ins) as [current|]; [|done].
  assert (Hstep : forall v k o,
    input_prop type <$> obj_get i (obj_alter (set_input_prop type' v) k o)
    = input_prop type <$> obj_get i o).
  { intros v k o. rewrite obj_get_alter. case_decide; [|done].
    destruct (obj_get i o); simpl; [|done]. by rewrite input_prop_set_other. }
  rewrite Hstep. destruct (findDuplicate _ _ _ _); [|done].
  destruct (truthy_string _); [|done]. apply Hstep.
Qed.

(** The rebound slot after the call: a swap when another function held
    the value, a plain assignment otherwise. *)
Lemma rebound_same_slot control keyCode type ins current i :
  NoDup (obj_keys ins) -> "" ∉ obj_keys ins -> injective_slot type ins ->
  obj_get control ins = Some current ->
  input_prop type <$> obj_get i (rebound control keyCode type ins)
  = if decide (i = control) then Some keyCode
    else match obj_get i ins with
         | Some input =>
             if decide (input_prop type input = keyCode)
             then Some (input_prop type current)
             else Some (input_prop type input)
         | None => None
         end.
Proof.
  intros Hnd Hempty Hinj Hc. unfold rebound. rewrite Hc, obj_get_alter.
  destruct (findDuplicate control keyCode type ins) as [d|] eqn:Hd.
  - destruct (findDuplicate_Some _ _ _ _ _ Hd) as (Hne & dup & Hin & Hp).
    assert (Hgd : obj_get d ins = Some dup) by by apply obj_elem_get.
    assert (Ht : truthy_string d = true).
    { unfold truthy_string. apply negb_true_iff, bool_decide_eq_false.
      intros ->. apply Hempty. by eapply obj_get_Some_keys. }
    rewrite Ht, obj_get_alter.
    destruct (decide (i = control)) as [->|Hic].
    + rewrite decide_False by done. rewrite Hc. simpl. by rewrite input_prop_set_same.
    + destruct (decide (i = d)) as [->|Hid].
      * rewrite Hgd. simpl. rewrite input_prop_set_same. by rewrite decide_True.
      * destruct (obj_get i ins) as [input|] eqn:Hgi; simpl; [|done].
        rewrite decide_False; [done|].
        intros Heq. apply (Hinj i d input dup); congruence.
  - destruct (decide (i = control)) as [->|Hic].
    + rewrite Hc. simpl. by rewrite input_prop_set_same.
    + destruct (obj_get i ins) as [input|] eqn:Hgi; simpl; [|done].
      rewrite decide_False; [done|].
      eapply findDuplicate_None; [done| |done]. by apply obj_get_elem.
Qed.

Lemma injective_slot_rebound control keyCode type type' ins :
  NoDup (obj_keys ins) -> "" ∉ obj_keys ins ->
  injective_slot type ins ->
  injective_slot type (rebound control keyCode type' ins).
Proof.
  intros Hnd Hempty Hinj.
  destruct (obj_get control ins) as [current|] eqn:Hc;
    [|unfold rebound; by rewrite Hc].
  intros i j a b Hi Hj Hij.
  destruct (decide (type = type')) as [<-|Hty].
  - pose proof (rebound_same_slot control keyCode type ins current i Hnd Hempty Hinj Hc) as Ei.
    pose proof (rebound_same_slot control keyCode type ins current j Hnd Hempty Hinj Hc) as Ej.
    rewrite Hi in Ei. rewrite Hj in Ej. simpl in Ei, Ej.
    destruct (decide (i = control)) as [->|Hic], (decide (j = control)) as [->|Hjc];
      [done| | |].
    + destruct (obj_get j ins) as [bj|] eqn:Hgj; [|done].
      destruct (decide (input_prop type bj = keyCode)) as [Hv|Hv].
      * injection Ei as ->. injection Ej as ->.
        intros Heq. apply (Hinj j control bj current); congruence.
      * injection Ei as ->. injection Ej as ->. congruence.
    + destruct (obj_get i ins) as [ai|] eqn:Hgi; [|done].
      destruct (decide (input_prop type ai = keyCode)) as [Hv|Hv].
      * injection Ei as ->. injection Ej as ->.
        intros Heq. apply (Hinj i control ai current); congruence.
      * injection Ei as ->. injection Ej as ->. congruence.
    + destruct (obj_get i ins) as [ai|] eqn:Hgi; [|done].
      destruct (obj_get j ins) as [bj|] eqn:Hgj; [|done].
      destruct (decide (input_prop type ai = keyCode)) as [Hvi|Hvi],
               (decide (input_prop type bj = keyCode)) as [Hvj|Hvj];
        injection Ei as ->; injection Ej as ->.
      * exfalso. apply (Hinj i j ai bj); congruence.
      * intros Heq. apply (Hinj control j current bj); congruence.
      * intros Heq. apply (Hinj i control ai current); congruence.
      * by apply (Hinj i j).
  - pose proof (rebound_other_slot control keyCode type type' ins i Hty) as Ei.
    pose proof (rebound_other_slot control keyCode type type' ins j Hty) as Ej.
    rewrite Hi in Ei. rewrite Hj in Ej. simpl in Ei, Ej.
    destruct (obj_get i ins) as [ai|] eqn:Hgi; [|done].
    destruct (obj_get j ins) as [bj|] eqn:Hgj; [|done].
    injection Ei as ->. injection Ej as ->. by apply (Hinj i j).
Qed.

End Table.

Section Injectivity.
Context {H : Type}.
Implicit Types (g : Game H) (ins : obj InputFunction).

Lemma injective_slot_NoDup type ins :
  NoDup ((fun p => input_prop type p.2) <$> ins) -> injective_slot type ins.
Proof.
  intros Hnd i j a b Hi Hj Hij Heq.
  apply obj_get_elem, list_elem_of_lookup in Hi as [n Hn].
  apply obj_get_elem, list_elem_of_lookup in Hj as [m Hm].
  assert (n = m); [|simplify_eq].
  eapply NoDup_lookup; [exact Hnd| |].
  - rewrite list_lookup_fmap, Hn. reflexivity.
  - rewrite list_lookup_fmap, Hm. simpl. by rewrite Heq.
Qed.

Lemma literal_keys_NoDup : NoDup (obj_keys inputs_literal).
Proof. apply (bool_decide_unpack _). by vm_compute. Qed.

Lemma literal_keys_nonempty : "" ∉ obj_keys inputs_literal.
Proof. apply (bool_decide_unpack _). by vm_compute. Qed.

Lemma boot_table_ok : table_ok (inputs (boot : Game H)).
Proof.
  split; [reflexivity|].
  split; apply injective_slot_NoDup; apply (bool_decide_unpack _); by vm_compute.
Qed.

Lemma setControlButton_table_ok control keyCode type g :
  table_ok (inputs g) -> table_ok (inputs (setControlButton control keyCode type g)).
Proof.
  intros (Hk & Hkb & Hgp). rewrite inputs_setControlButton.
  assert (NoDup (obj_keys (inputs g))) by (rewrite Hk; apply literal_keys_NoDup).
  assert ("" ∉ obj_keys (inputs g)) by (rewrite Hk; apply literal_keys_nonempty).
  split; [by rewrite obj_keys_rebound|].
  split; by apply injective_slot_rebound.
Qed.

Lemma rebinds_table_ok calls g :
  table_ok (inputs g) -> table_ok (inputs (rebinds calls g)).
Proof.
  revert g. induction calls as [|c calls IH]; intros g Hg; [done|].
  simpl. apply IH. by apply setControlButton_table_ok.
Qed.

(** C1. Starting from the default table, after any sequence of
    [setControlButton] calls no two distinct functions have the same
    binding in a slot; and when the value of a further call is held by
    another function, that function receives the rebound function's old
    value while the rebound function receives the new one. *)
Theorem rebinds_injective (calls : list rebind) (type : buttonType) :
  let g := rebinds calls (boot : Game H) in
  injective_slot type (inputs g) /\
  forall control keyCode d current dup,
    obj_get control (inputs g) = Some current ->
    obj_get d (inputs g) = Some dup ->
    d <> control ->
    input_prop type dup = keyCode ->
    let g' := setControlButton control keyCode type g in
    input_prop type <$> obj_get d (inputs g') = Some (input_prop type current) /\
    input_prop type <$> obj_get control (inputs g') = Some keyCode.
Proof.
  intros g.
  destruct (rebinds_table_ok calls boot boot_table_ok) as (Hk & Hkb & Hgp).
  fold g in Hk, Hkb, Hgp.
  assert (Hinj : injective_slot type (inputs g)) by by destruct type.
  split; [exact Hinj|].
  intros control keyCode d current dup Hc Hd Hne Hv g'.
  assert (Hnd : NoDup (obj_keys (inputs g))) by (rewrite Hk; apply literal_keys_NoDup).
  assert (Hem : "" ∉ obj_keys (inputs g)) by (rewrite Hk; apply literal_keys_nonempty).
  unfold g'. rewrite inputs_setControlButton.
  rewrite !(rebound_same_slot control keyCode type (inputs g) current) by done.
  rewrite decide_False by done. rewrite Hd, decide_True by done.
  by rewrite decide_True.
Qed.

End Injectivity.

Lemma rebinds_injective_witness :
  let g := rebinds [mkRebind "menu" (Str "KeyA") KeyboardButton]
                   (boot : Game unit) in
  let g' := setControlButton "cancel" (Num 0) GamepadButton g in
  input_prop GamepadButton <$> obj_get "confirm" (inputs g') = Some (Num 1) /\
  input_prop GamepadButton <$> obj_get "cancel" (inputs g') = Some (Num 0).
Proof.
  intros g g'.
  refine (proj2 (rebinds_injective [mkRebind "menu" (Str "KeyA") KeyboardButton]
                   GamepadButton)
            "cancel" (Num 0) "confirm"
            (mkInputFunction "cancel" "Cancel" (Str "KeyX") (Num 1) (Str "KeyX") (Num 1) (Str "cancel"))
            (mkInputFunction "confirm" "Confirm" (Str "KeyZ") (Num 0) (Str "KeyZ") (Num 0) (Str "confirm"))
            _ _ _ _); [reflexivity | reflexivity | done | reflexivity].
Defined.

(** ** Ordinal lookup *)

Section Ordinal.
Context {H : Type}.
Implicit Types (g : Game H).

(** C8, as the code has it. [getInputByIndex] returns the [i]-th
    function of the table in enumeration order when [i] is below the
    count; at or past the count it raises nothing and returns
    [this.inputs[undefined]], which is [undefined] unless a function is
    named "undefined". *)
Theorem getInputByIndex_ordinal g (i : nat) :
  NoDup (obj_keys (inputs g)) ->
  ((i < length (inputs g))%nat ->
     exists k input, inputs g !! i = Some (k, input) /\
                     getInputByIndex i g = Normal (Some input)) /\
  ((length (inputs g) <= i)%nat ->
     getInputByIndex i g = Normal (obj_get "undefined" (inputs g)) /\
     ("undefined" ∉ obj_keys (inputs g) -> getInputByIndex i g = Normal None)).
Proof.
  intros Hnd. unfold getInputByIndex, obj_keys. rewrite list_lookup_fmap. split.
  - intros Hlt. destruct (lookup_lt_is_Some_2 (inputs g) i Hlt) as [[k input] Hl].
    exists k, input. split; [done|]. rewrite Hl. simpl.
    f_equal. by eapply obj_get_lookup.
  - intros Hge. rewrite (lookup_ge_None_2 (inputs g) i Hge). simpl.
    split; [done|]. intros Hno. f_equal. by apply obj_get_None_keys.
Qed.

End Ordinal.

Lemma getInputByIndex_ordinal_witness :
  (exists k input, inputs (boot : Game unit) !! 6%nat = Some (k, input) /\
                   getInputByIndex 6 (boot : Game unit) = Normal (Some input)) /\
  getInputByIndex 10 (boot : Game unit) = Normal None.
Proof.
  assert (Hnd : NoDup (obj_keys (inputs (boot : Game unit))))
    by (apply (bool_decide_unpack _); by vm_compute).
  pose proof (getInputByIndex_ordinal (boot : Game unit) 6 Hnd) as [H6 _].
  pose proof (getInputByIndex_ordinal (boot : Game unit) 10 Hnd) as [_ H10].
  split.
  - apply H6. vm_compute. lia.
  - apply H10.
    + vm_compute. lia.
    + apply (bool_decide_unpack _). by vm_compute.
Defined.

(** C8 as stated fails: index 10 is the count of the default table, and
    [getInputByIndex(10)] returns [undefined] instead of raising. *)
Lemma getInputByIndex_past_end_does_not_throw :
  length (inputs (boot : Game unit)) = 10%nat /\
  getInputByIndex 10 (boot : Game unit) = Normal None /\
  ~ exists e, getInputByIndex 10 (boot : Game unit) = Throw e.
Proof.
  split; [reflexivity|]. split; [reflexivity|]. intros [e He]. discriminate He.
Qed.

Section Icons.
Context {H : Type}.
Implicit Types (g : Game H).

(** A keyboard binding that the icon table does not list resolves to
    [NaN], not to [defaultButtonIcon]. *)
Lemma getKeyboardControlIconIndex_unlisted g param input s :
  obj_get param (inputs g) = Some input ->
  keyboardButton input = Str s ->
  codeToIconIndex !! s = None ->
  getKeyboardControlIconIndex param g = Normal NaN.
Proof.
  intros Hg Hk Hc. unfold getKeyboardControlIconIndex, entry.
  rewrite Hg, Hk. cbn [propertyKey]. rewrite Hc. 
  by destruct (String.prefix _ _).
Qed.

Lemma getGamepadControlIconIndex_unlisted g param input :
  obj_get param (inputs g) = Some input ->
  gamepadIndexToIconIndex !! propertyKey (gamepadButton input) = None ->
  getGamepadControlIconIndex param g = Normal NaN.
Proof.
  intros Hg Hc. unfold getGamepadControlIconIndex, entry. by rewrite Hg, Hc.
Qed.

Lemma indexOf_None param l i : param ∉ l -> indexOf param l i = None.
Proof.
  revert i. induction l as [|x l IH]; intros i Hn; simpl; [done|].
  apply not_elem_of_cons in Hn as [Hne Hn].
  rewrite decide_False by done. by apply IH.
Qed.

(** The sibling path: the [KB] escape code falls back to
    [defaultButtonIcon] for a key code that the table does not list. *)
Lemma obtainEscapeCodeIconIndex_KB_unlisted g param :
  param ∉ arrowCodes ->
  codeToIconIndex !! param = None ->
  obtainEscapeCodeIconIndex "KB" param g = Normal (Int (defaultButtonIcon g)).
Proof.
  intros Ha Hc. unfold obtainEscapeCodeIconIndex.
  rewrite indexOf_None by done. rewrite Hc. reflexivity.
Qed.

End Icons.

(** C9 at a failing input. With "menu" rebound to the key F1, which
    [codeToIconIndex] does not list, and to gamepad button 16, which
    [gamepadIndexToIconIndex] does not list, both resolvers return [NaN];
    the [KB] escape code does fall back to [defaultButtonIcon] for F1. *)
Theorem icon_of_unlisted_binding_is_NaN :
  let g : Game unit := boot in
  codeToIconIndex !! "F1" = None /\
  getKeyboardControlIconIndex "menu" (setKeyboardButton "menu" (Str "F1") g)
    = Normal NaN /\
  gamepadIndexToIconIndex !! "16" = None /\
  getGamepadControlIconIndex "menu" (setGamepadButton "menu" (Num 16) g)
    = Normal NaN /\
  obtainEscapeCodeIconIndex "KB" "F1" g = Normal (Int (defaultButtonIcon g)).
Proof. repeat split; by vm_compute. Qed.

(** ** The keyboard map and the failsafe names *)

(** [x] is none of the elements of a list given in full. *)
Ltac not_listed :=
  let Hs := fresh in
  intros Hs;
  repeat (apply elem_of_cons in Hs as [Hs|Hs]; [discriminate Hs|]);
  by apply elem_of_nil in Hs.

Section KeyboardMap.
Implicit Types (ins : obj InputFunction) (m : gmap string (list string)).

Lemma keyboardLoop_names ins m k names :
  keyboardLoop ins m !! k = Some names ->
  m !! k = Some names \/ exists i, i ∈ obj_keys ins /\ names = [i].
Proof.
  revert m. induction ins as [|[i input] ins IH]; intros m; simpl; [by left|].
  intros Hl. apply IH in Hl as [Hl|(j & Hj & ->)].
  - destruct (decide (propertyKey (keyboardButton input) = k)) as [<-|Hne].
    + rewrite lookup_insert_eq in Hl. injection Hl as <-.
      right. exists i. split; [left | done].
    + rewrite lookup_insert_ne in Hl by done. by left.
  - right. exists j. split; [by right | done].
Qed.

Lemma keyboardLoop_keeps ins m k :
  is_Some (m !! k) -> is_Some (keyboardLoop ins m !! k).
Proof.
  revert m. induction ins as [|[i input] ins IH]; intros m Hs; simpl; [done|].
  apply IH. destruct (decide (propertyKey (keyboardButton input) = k)) as [<-|Hne].
  - by rewrite lookup_insert_eq.
  - by rewrite lookup_insert_ne.
Qed.

Lemma keyboardLoop_bound ins m i input :
  (i, input) ∈ ins ->
  is_Some (keyboardLoop ins m !! propertyKey (keyboardButton input)).
Proof.
  revert m. induction ins as [|[i0 input0] ins IH]; intros m Hin; simpl.
  - by apply elem_of_nil in Hin.
  - apply elem_of_cons in Hin as [[= <- <-]|Hin]; [|by apply IH].
    apply keyboardLoop_keeps. by rewrite lookup_insert_eq.
Qed.

Lemma alias_names type fn names' ins m k names :
  alias type fn names' ins m !! k = Some names ->
  names = names' \/ m !! k = Some names.
Proof.
  unfold alias. destruct (bound type fn ins) as [k'|]; [|by right].
  destruct (decide (k' = k)) as [->|Hne].
  - rewrite lookup_insert_eq. intros [= <-]. by left.
  - rewrite lookup_insert_ne by done. by right.
Qed.

Lemma ensure_names k0 names0 m k names :
  ensure k0 names0 m !! k = Some names ->
  m !! k = Some names \/ (m !! k0 = None /\ k = k0 /\ names = names0).
Proof.
  unfold ensure. destruct (m !! k0) eqn:E; [by left|].
  destruct (decide (k0 = k)) as [->|Hne].
  - rewrite lookup_insert_eq. intros [= <-]. by right.
  - rewrite lookup_insert_ne by done. by left.
Qed.

(** Whenever some function's keyboard binding is the Tab key, no key of
    the rebuilt keyboard map yields "static_tab". *)
Lemma newKeyboardMap_drops_static_tab ins i input :
  (i, input) ∈ ins ->
  propertyKey (keyboardButton input) = "Tab" ->
  "static_tab" ∉ obj_keys ins ->
  forall k names, newKeyboardMap ins !! k = Some names -> "static_tab" ∉ names.
Proof.
  intros Hin Htab Hno k names Hl. unfold newKeyboardMap in Hl.
  repeat (apply alias_names in Hl as [->|Hl]; [not_listed|]).
  apply ensure_names in Hl as [Hl|(_ & _ & ->)]; [|not_listed].
  apply ensure_names in Hl as [Hl|(Hnone & _ & _)].
  - apply (keyboardLoop_names ins ∅) in Hl as [Hl|(j & Hj & ->)].
    + by rewrite lookup_empty in Hl.
    + intros Hs. apply list_elem_of_singleton in Hs as <-. done.
  - exfalso. pose proof (keyboardLoop_bound ins ∅ i input Hin) as [x Hx].
    rewrite Htab in Hx. congruence.
Qed.

End KeyboardMap.

Lemma keyMapper_rebuildButtonMapper {H} (g : Game H) :
  keyMapper (rebuildButtonMapper g) = newKeyboardMap (inputs g).
Proof. reflexivity. Qed.

Lemma keyMapper_setControlButton {H} control keyCode type (g : Game H) :
  is_Some (obj_get control (inputs g)) ->
  keyMapper (setControlButton control keyCode type g)
  = newKeyboardMap (inputs (setControlButton control keyCode type g)).
Proof.
  intros [current Hc]. unfold setControlButton. rewrite Hc. reflexivity.
Qed.

(** C2 at a failing input. After "menu" is rebound to the Tab key the
    keyboard map sends Tab to "menu" alone, and no key of the map yields
    "static_tab". *)
Theorem static_tab_missing_when_Tab_is_bound :
  let g : Game unit := setKeyboardButton "menu" (Str "Tab") boot in
  keyMapper g !! "Tab" = Some ["menu"] /\
  forall k names, keyMapper g !! k = Some names -> "static_tab" ∉ names.
Proof.
  intros g. split; [by vm_compute|].
  unfold g, setKeyboardButton.
  rewrite keyMapper_setControlButton
    by (apply (bool_decide_unpack _); by vm_compute).
  apply (newKeyboardMap_drops_static_tab _ "menu"
           (mkInputFunction "menu" "Menu" (Str "Tab") (Num 3) (Str "KeyS") (Num 3) (Str "menu"))).
  - apply obj_get_elem. by vm_compute.
  - reflexivity.
  - apply (bool_decide_unpack _). by vm_compute.
Qed.

(** ** Capture callbacks *)

Section Capture.
Context {H : Type}.
Variable run : H -> callArgs -> Game H -> Game H.
Implicit Types (g : Game H) (t : Traced H).

Lemma callback_updateActiveGamepad pads g :
  _gamepadInputCallback (updateActiveGamepad pads g) = _gamepadInputCallback g /\
  _gamepadInputCallbackType (updateActiveGamepad pads g) = _gamepadInputCallbackType g.
Proof.
  unfold updateActiveGamepad.
  destruct (targetGamepadName g) as [target|]; [destruct (truthy_string target)|];
    repeat match goal with
           | |- context [match ?x with _ => _ end] => destruct x
           end; done.
Qed.

Lemma callback_trackGamepad pads g :
  _gamepadInputCallback (trackGamepad pads g) = _gamepadInputCallback g /\
  _gamepadInputCallbackType (trackGamepad pads g) = _gamepadInputCallbackType g.
Proof.
  unfold trackGamepad. destruct (lastInputDevice g); [|done].
  apply (callback_updateActiveGamepad pads g).
Qed.

Lemma nextGamepadInputHandler_idle pads i type t :
  _gamepadInputCallback (game t) = None ->
  nextGamepadInputHandler run pads i type t = on_game (trackGamepad pads) t.
Proof. intros Hn. unfold nextGamepadInputHandler. by rewrite Hn. Qed.

Lemma gamepadEdges_idle pads edges t :
  _gamepadInputCallback (game t) = None ->
  calls (gamepadEdges run pads edges t) = calls t.
Proof.
  revert t. induction edges as [|[i type] edges IH]; intros t Hn; [done|].
  simpl. rewrite nextGamepadInputHandler_idle by done.
  rewrite IH; [done|]. simpl. by rewrite (proj1 (callback_trackGamepad pads (game t))).
Qed.

(** C10. When an armed gamepad capture fires, the callback runs once, in
    a state whose callback and callback type are already [null]; what the
    callback installs is what the slot holds afterwards; and when the
    callback installs nothing, no later edge calls anything. *)
Theorem gamepad_capture_fires_once pads (h : H) (type : edge) (i : nat) t :
  _gamepadInputCallback (game t) = Some h ->
  _gamepadInputCallbackType (game t) = Some type ->
  let cleared := cancelOnNextGamepadInput (game t) in
  let after := run h (GamepadArgs i type) cleared in
  let t' := nextGamepadInputHandler run pads i type t in
  _gamepadInputCallback cleared = None /\
  _gamepadInputCallbackType cleared = None /\
  game t' = trackGamepad pads after /\
  calls t' = calls t ++ [(h, GamepadArgs i type)] /\
  _gamepadInputCallback (game t') = _gamepadInputCallback after /\
  _gamepadInputCallbackType (game t') = _gamepadInputCallbackType after /\
  (_gamepadInputCallback after = None ->
   forall edges, calls (gamepadEdges run pads edges t') = calls t').
Proof.
  intros Hcb Hty cleared after t'.
  assert (Ht' : t' = mkTraced (trackGamepad pads after)
                              (calls t ++ [(h, GamepadArgs i type)])).
  { unfold t', nextGamepadInputHandler. rewrite Hcb, Hty.
    rewrite bool_decide_eq_true_2 by done. reflexivity. }
  rewrite Ht'. cbn [game calls].
  destruct (callback_trackGamepad pads after) as [E1 E2].
  repeat split; try done.
  intros Hnone edges. rewrite gamepadEdges_idle; [done|].
  cbn [game]. by rewrite E1.
Qed.

Lemma setNames_currentState names v g :
  setNames names v g
  = set_currentState (fold_left (fun c b => obj_set b v c) names (_currentState g)) g.
Proof.
  unfold setNames. revert g. induction names as [|b names IH]; intros g.
  - by destruct g.
  - simpl. by rewrite IH.
Qed.

Lemma callback_Input_onKeyDown e g :
  _keyboardInputCallback (Input_onKeyDown e g) = _keyboardInputCallback g.
Proof.
  unfold Input_onKeyDown.
  destruct (decide (keyCode e = 144)%Z); cbn zeta;
    match goal with
    | |- context [keyMapper ?x !! ?k] => destruct (keyMapper x !! k)
    end; try done; by rewrite setNames_currentState.
Qed.

(** C5. After [onNextKeyboardInput(h)], the first key-down calls [h]
    with that event and empties the slot; the second key-down calls
    nothing and only goes through [_onKeyDown] and the device tracking. *)
Theorem keyboard_capture_one_shot (h : H) (e1 e2 : KeyboardEvent) t :
  let t0 := on_game (onNextKeyboardInput h) t in
  let t1 := keydown run e1 t0 in
  let t2 := keydown run e2 t1 in
  calls t1 = calls t ++ [(h, KeyboardArgs e1)] /\
  _keyboardInputCallback (game t1) = None /\
  calls t2 = calls t ++ [(h, KeyboardArgs e1)] /\
  game t2 = set_lastInputDevice keyboard (Input_onKeyDown e2 (game t1)).
Proof.
  intros t0 t1 t2.
  pose proof callback_Input_onKeyDown as Hcb.
  assert (H1 : t1 = mkTraced
                 (set_lastInputDevice keyboard
                    (set_keyboardInputCallback None
                       (run h (KeyboardArgs e1) (Input_onKeyDown e1 (game t0)))))
                 (calls t ++ [(h, KeyboardArgs e1)])).
  { unfold t1, keydown, nextKeyboardInputHandler. cbn [on_game game calls].
    rewrite Hcb. unfold t0. cbn [on_game game calls]. reflexivity. }
  assert (H2 : t2 = on_game (set_lastInputDevice keyboard)
                      (on_game (Input_onKeyDown e2) t1)).
  { unfold t2, keydown, nextKeyboardInputHandler. cbn [on_game game calls].
    rewrite Hcb. rewrite H1. cbn [game]. reflexivity. }
  rewrite H2. cbn [on_game game calls]. rewrite H1. cbn [game calls]. done.
Qed.

End Capture.

(** ** The logical state written by a gamepad read *)

Lemma obj_get_set {V} k k' (v : V) o :
  obj_get k (obj_set k' v o) = if decide (k = k') then Some v else obj_get k o.
Proof.
  induction o as [|[k0 v0] o IH]; simpl.
  - destruct (decide (k' = k)) as [->|Hne].
    + by rewrite decide_True.
    + by rewrite decide_False.
  - destruct (decide (k0 = k')) as [->|Hne]; simpl.
    + destruct (decide (k' = k)) as [->|Hne'].
      * by rewrite decide_True.
      * by rewrite decide_False.
    + destruct (decide (k0 = k)) as [->|Hne'].
      * by rewrite decide_False.
      * apply IH.
Qed.

Lemma obj_get_set_names {V} k (v : V) names o :
  obj_get k (fold_left (fun c b => obj_set b v c) names o)
  = if decide (k ∈ names) then Some v else obj_get k o.
Proof.
  revert o. induction names as [|b names IH]; intros o; cbn [fold_left].
  - destruct (decide (k ∈ [])) as [Hin|]; [|done]. by apply elem_of_nil in Hin.
  - rewrite IH, obj_get_set.
    destruct (decide (k ∈ names)) as [Hin|Hnin].
    + rewrite decide_True; [done|]. by right.
    + destruct (decide (k = b)) as [->|Hne].
      * rewrite decide_True; [done|]. left.
      * rewrite decide_False; [done|]. by intros [?|?]%elem_of_cons.
Qed.

Section Transitions.
Context {H : Type}.
Variable run : H -> callArgs -> Game H -> Game H.
Implicit Types (g : Game H) (t : Traced H) (o n : jsarray).

Lemma scanTransitions_Some o n s len i type :
  scanTransitions (seq s len) o n = Some (i, type) ->
  (s <= i < s + len)%nat /\
  arr_get o i <> arr_get n i /\
  (forall j, (s <= j < i)%nat -> arr_get o j = arr_get n j) /\
  type = (if decide (arr_get n i = Some true) then press else release).
Proof.
  revert s. induction len as [|len IH]; intros s; simpl; [done|].
  destruct (decide (arr_get o s = arr_get n s)) as [He|Hne].
  - intros Hs. apply IH in Hs as (Hr & Hd & Hb & Ht).
    split; [lia|]. split; [done|]. split; [|done].
    intros j Hj. destruct (decide (j = s)) as [->|]; [done|]. apply Hb. lia.
  - intros [= <- <-]. split; [lia|]. split; [done|]. split; [|done].
    intros j Hj. lia.
Qed.

Lemma scanTransitions_None o n s len :
  scanTransitions (seq s len) o n = None ->
  forall j, (s <= j < s + len)%nat -> arr_get o j = arr_get n j.
Proof.
  revert s. induction len as [|len IH]; intros s; simpl; [intros _ j Hj; lia|].
  destruct (decide (arr_get o s = arr_get n s)) as [He|Hne]; [|done].
  intros Hs j Hj. destruct (decide (j = s)) as [->|]; [done|].
  apply (IH (S s)); [done|lia].
Qed.

(** The logical state after the loop of [originalUpdateGamepadState]
    over the indices [js]. *)
Lemma gamepadMapper_applyTransition o n g j :
  gamepadMapper (applyTransition o n g j) = gamepadMapper g.
Proof.
  unfold applyTransition. destruct (decide _); [done|].
  destruct (gamepadMapper g !! pretty j); [|done]. by rewrite setNames_currentState.
Qed.

Lemma gamepadMapper_transitions o n js g :
  gamepadMapper (fold_left (applyTransition o n) js g) = gamepadMapper g.
Proof.
  revert g. induction js as [|j js IH]; intros g; [done|].
  simpl. by rewrite IH, gamepadMapper_applyTransition.
Qed.

Lemma currentState_applyTransition_writes o n g j b :
  writes o n (gamepadMapper g) j b ->
  obj_get b (_currentState (applyTransition o n g j))
  = Some (default false (arr_get n j)).
Proof.
  intros (Hd & names & Hm & Hin). unfold applyTransition.
  rewrite decide_False by done. rewrite Hm, setNames_currentState.
  cbn [_currentState set_currentState]. rewrite obj_get_set_names. by rewrite decide_True.
Qed.

Lemma currentState_applyTransition_other o n g j b :
  ~ writes o n (gamepadMapper g) j b ->
  obj_get b (_currentState (applyTransition o n g j)) = obj_get b (_currentState g).
Proof.
  intros Hw. unfold applyTransition.
  destruct (decide (arr_get n j = arr_get o j)) as [|Hd]; [done|].
  destruct (gamepadMapper g !! pretty j) as [names|] eqn:Hm; [|done].
  rewrite setNames_currentState. cbn [_currentState set_currentState].
  rewrite obj_get_set_names. rewrite decide_False; [done|].
  intros Hin. apply Hw. split; [done|]. by exists names.
Qed.

Lemma currentState_transitions_other o n js g b :
  (forall j, j ∈ js -> ~ writes o n (gamepadMapper g) j b) ->
  obj_get b (_currentState (fold_left (applyTransition o n) js g))
  = obj_get b (_currentState g).
Proof.
  revert g. induction js as [|j js IH]; intros g Hno; [done|].
  simpl. rewrite IH.
  - apply currentState_applyTransition_other. apply Hno. left.
  - intros j' Hj'. rewrite gamepadMapper_applyTransition. apply Hno. by right.
Qed.

Lemma currentState_transitions o n js1 j js2 g b :
  writes o n (gamepadMapper g) j b ->
  (forall j', j' ∈ js2 -> ~ writes o n (gamepadMapper g) j' b) ->
  obj_get b (_currentState (fold_left (applyTransition o n) (js1 ++ j :: js2) g))
  = Some (default false (arr_get n j)).
Proof.
  intros Hw Hno. rewrite fold_left_app. simpl.
  rewrite currentState_transitions_other.
  - apply currentState_applyTransition_writes. by rewrite gamepadMapper_transitions.
  - intros j' Hj'. rewrite gamepadMapper_applyTransition, gamepadMapper_transitions.
    by apply Hno.
Qed.

End Transitions.

(** ** First transition wins *)

Section FirstTransition.
Context {H : Type}.
Variable run : H -> callArgs -> Game H -> Game H.
Implicit Types (g : Game H) (t : Traced H) (o n : jsarray).

Lemma updateActiveGamepad_fields pads g :
  exists index, updateActiveGamepad pads g = set_activeGamepadIndex index g.
Proof.
  unfold updateActiveGamepad.
  assert (Hid : g = set_activeGamepadIndex (activeGamepadIndex g) g) by by destruct g.
  destruct (targetGamepadName g) as [target|]; [destruct (truthy_string target)|];
    repeat match goal with
           | |- context [match ?x with _ => _ end] => destruct x eqn:?
           end; eauto.
Qed.

Lemma activeGamepadIndex_transitions o n js g :
  activeGamepadIndex (fold_left (applyTransition o n) js g) = activeGamepadIndex g.
Proof.
  revert g. induction js as [|j js IH]; intros g; [done|].
  simpl. rewrite IH. unfold applyTransition.
  destruct (decide _); [done|]. destruct (gamepadMapper g !! pretty j); [|done].
  by rewrite setNames_currentState.
Qed.

Lemma originalUpdateGamepadState_fields pad g :
  let lastState := default [] (_gamepadStates g !! Gamepad.index pad) in
  let newState := readGamepad pad in
  let g1 := fold_left (applyTransition lastState newState)
                      (seq 0 (length newState)) g in
  _gamepadStates (originalUpdateGamepadState pad g) !! Gamepad.index pad
    = Some newState /\
  _currentState (originalUpdateGamepadState pad g) = _currentState g1 /\
  activeGamepadIndex (originalUpdateGamepadState pad g) = activeGamepadIndex g.
Proof.
  intros lastState newState g1. unfold originalUpdateGamepadState.
  fold lastState newState g1.
  cbn [_gamepadStates set_gamepadStates _currentState activeGamepadIndex].
  split; [apply lookup_insert_eq|]. split; [done|].
  apply activeGamepadIndex_transitions.
Qed.

(** C3. [Input._updateGamepadState] reads the gamepad if it is the
    active one and then delivers exactly one event, for the lowest index
    below the length of the previous state whose value changed, a press
    if the new value is [true] and a release otherwise; if no such index
    exists nothing is delivered. The read itself writes the logical state
    of every name whose index changed, also past the first one. *)
Theorem first_transition_wins pads pad t :
  let originalState := default [] (_gamepadStates (game t) !! Gamepad.index pad) in
  let t1 := on_game (readActive pads pad) t in
  let newState := default [] (_gamepadStates (game t1) !! Gamepad.index pad) in
  (forall i type,
     firstTransition originalState newState = Some (i, type) ->
     Input_updateGamepadState run pads pad t
       = nextGamepadInputHandler run pads i type t1 /\
     (i < length originalState)%nat /\
     arr_get originalState i <> arr_get newState i /\
     (forall j, (j < i)%nat -> arr_get originalState j = arr_get newState j) /\
     type = (if decide (arr_get newState i = Some true) then press else release)) /\
  (firstTransition originalState newState = None ->
     Input_updateGamepadState run pads pad t = t1 /\
     forall j, (j < length originalState)%nat ->
               arr_get originalState j = arr_get newState j) /\
  (activeGamepadIndex (game t1) = Some (Gamepad.index pad) ->
   forall j b,
     (j < length newState)%nat ->
     writes originalState newState (gamepadMapper (game t)) j b ->
     (forall j', (j < j')%nat ->
                 ~ writes originalState newState (gamepadMapper (game t)) j' b) ->
     obj_get b (_currentState (game t1)) = Some (default false (arr_get newState j))).
Proof.
  intros originalState t1 newState.
  split; [|split].
  - intros i type Hf.
    split.
    { unfold Input_updateGamepadState. fold originalState t1 newState. by rewrite Hf. }
    unfold firstTransition in Hf.
    apply scanTransitions_Some in Hf as (Hr & Hd & Hb & Ht).
    split; [lia|]. split; [done|]. split; [|done]. intros j Hj. apply Hb. lia.
  - intros Hf.
    split.
    { unfold Input_updateGamepadState. fold originalState t1 newState. by rewrite Hf. }
    unfold firstTransition in Hf. intros j Hj.
    eapply scanTransitions_None; [exact Hf|lia].
  - intros Hactive j b Hj Hw Hlater.
    unfold t1 in *. cbn [on_game game] in *. unfold readActive in *.
    set (g0 := match activeGamepadIndex (game t) with
               | Some _ => game t
               | None => updateActiveGamepad pads (game t)
               end) in *.
    assert (Hg0 : exists index, g0 = set_activeGamepadIndex index (game t)).
    { unfold g0. destruct (activeGamepadIndex (game t)) eqn:E.
      - exists (Some n). destruct (game t). cbn in E. by subst.
      - apply updateActiveGamepad_fields. }
    destruct Hg0 as [index Hg0].
    destruct (decide (activeGamepadIndex g0 = Some (Gamepad.index pad))) as [Ha|Hna].
    + destruct (originalUpdateGamepadState_fields pad g0) as (Hs & Hc & _).
      assert (Hn : newState = readGamepad pad).
      { unfold newState. exact (f_equal (default []) Hs). }
      assert (Ho : default [] (_gamepadStates g0 !! Gamepad.index pad) = originalState).
      { unfold originalState. by rewrite Hg0. }
      rewrite Hc, Ho, <- Hn.
      assert (Hm : gamepadMapper g0 = gamepadMapper (game t)) by by rewrite Hg0.
      replace (seq 0 (length newState))
        with (seq 0 j ++ j :: seq (S j) (length newState - S j)).
      * apply currentState_transitions; rewrite Hm; [done|].
        intros j' Hj'. apply Hlater. apply elem_of_seq in Hj'. lia.
      * replace (length newState) with (j + S (length newState - S j))%nat at 2 by lia.
        by rewrite seq_app.
    + exfalso. apply Hna. exact Hactive.
Qed.

End FirstTransition.

(** ** The frame update *)

Section Update.
Context {H : Type}.
Variable run : H -> callArgs -> Game H -> Game H.
Implicit Types (g : Game H) (t : Traced H).

Lemma obj_true_set k k' v (o : obj bool) :
  obj_true k (obj_set k' v o) = if decide (k = k') then v else obj_true k o.
Proof. unfold obj_true. rewrite obj_get_set. by case_decide. Qed.

Lemma obj_keys_set {V} k (v : V) o :
  obj_keys (obj_set k v o)
  = if decide (k ∈ obj_keys o) then obj_keys o else obj_keys o ++ [k].
Proof.
  unfold obj_keys. induction o as [|[k0 v0] o IH]; cbn [obj_set fmap list_fmap fst].
  - rewrite decide_False; [done|]. apply not_elem_of_nil.
  - destruct (decide (k0 = k)) as [->|Hne]; cbn [fmap list_fmap fst].
    + rewrite decide_True; [done|]. left.
    + rewrite IH. destruct (decide (k ∈ fst <$> o)) as [Hin|Hnin].
      * rewrite decide_True; [done|]. by right.
      * rewrite decide_False; [done|]. intros [?|?]%elem_of_cons; congruence.
Qed.

Lemma obj_keys_set_NoDup {V} k (v : V) o :
  NoDup (obj_keys o) -> NoDup (obj_keys (obj_set k v o)).
Proof.
  intros Hnd. rewrite obj_keys_set. case_decide; [done|].
  apply NoDup_app. split; [done|]. split; [|apply NoDup_singleton].
  intros x Hx Hx'. apply list_elem_of_singleton in Hx'. by subst.
Qed.

Lemma pressedNow_set es name v previous :
  name ∉ obj_keys es ->
  pressedNow es (obj_set name v previous) = pressedNow es previous.
Proof.
  unfold obj_keys. induction es as [|[n c] es IH]; cbn [pressedNow fmap list_fmap fst]; [done|].
  intros [Hne Hnot]%not_elem_of_cons. rewrite obj_true_set, decide_False by done.
  by rewrite IH.
Qed.


(** The loop of [Input.update] in closed form. *)
Lemma detectPresses_fold (es : obj bool) g l :
  NoDup (obj_keys es) ->
  _latestButton g = Some l ->
  exists previous,
    fold_left detectPress
      es g
    = set_previousState previous
        (set_pressedTime
           (match pressedNow es (_previousState g) with
            | [] => _pressedTime g
            | _ => 0%Z
            end)
           (set_latestButton (Some (l ++ pressedNow es (_previousState g))) g)) /\
    (forall n c, (n, c) ∈ es -> obj_get n previous = Some c) /\
    (forall n, n ∉ obj_keys es -> obj_get n previous = obj_get n (_previousState g)).
Proof.
  revert g l. induction es as [|[name current] es IH]; intros g l Hnd Hl.
  - exists (_previousState g). split; [|split].
    + cbn [pressedNow fold_left]. rewrite app_nil_r. destruct g; cbn in *. by subst.
    + intros n c Hin. by apply elem_of_nil in Hin.
    + done.
  - unfold obj_keys in Hnd. cbn [fmap list_fmap fst] in Hnd.
    apply NoDup_cons in Hnd as [Hnot Hnd]. cbn [fold_left pressedNow].
    unfold detectPress at 2. rewrite Hl. cbn [default from_option Datatypes.id].
    destruct (current && negb (obj_true name (_previousState g))) eqn:Hp;
      cbn [_previousState set_previousState set_pressedTime set_latestButton
           _latestButton].
    + edestruct (IH (set_previousState (obj_set name current (_previousState g))
                      (set_pressedTime 0%Z (set_latestButton (Some (l ++ [name])) g)))
                    (l ++ [name]) Hnd eq_refl) as (previous & Heq & Hin & Hout).
      exists previous. split; [|split].
      * rewrite Heq.
        cbn [_previousState set_previousState set_pressedTime set_latestButton _pressedTime].
        rewrite pressedNow_set by done. rewrite <- app_assoc. cbn [app].
        by destruct (pressedNow es (_previousState g)).
      * intros n c [[= -> ->]|Hn]%elem_of_cons; [|by apply Hin].
        rewrite Hout by done. cbn [_previousState set_previousState].
        rewrite obj_get_set. by rewrite decide_True.
      * intros n [Hne Hn]%not_elem_of_cons. rewrite Hout by done.
        cbn [_previousState set_previousState]. rewrite obj_get_set.
        by rewrite decide_False.
    + edestruct (IH (set_previousState (obj_set name current (_previousState g)) g)
                    l Hnd Hl) as (previous & Heq & Hin & Hout).
      exists previous. split; [|split].
      * rewrite Heq.
        cbn [_previousState set_previousState set_pressedTime set_latestButton _pressedTime].
        by rewrite pressedNow_set by done.
      * intros n c [[= -> ->]|Hn]%elem_of_cons; [|by apply Hin].
        rewrite Hout by done. cbn [_previousState set_previousState].
        rewrite obj_get_set. by rewrite decide_True.
      * intros n [Hne Hn]%not_elem_of_cons. rewrite Hout by done.
        cbn [_previousState set_previousState]. rewrite obj_get_set.
        by rewrite decide_False.
Qed.

End Update.

Section Holding.
Context {H : Type}.
Variable run : H -> callArgs -> Game H -> Game H.
Implicit Types (g : Game H) (t : Traced H).

Lemma failsafe_off g : failsafeHeld g = false -> failsafe g = set_resetMap false g.
Proof.
  unfold failsafeHeld, failsafe, isVeryLongPressed.
  destruct (Input_isPressed "escape" g), (Input_isPressed "static_escape" g),
    (Input_isPressed "tab" g), (Input_isPressed "static_tab" g),
    (bool_decide (300 <= _pressedTime g)%Z), (_resetMap g); cbn; congruence.
Qed.

Lemma pressedNow_synced (es previous : obj bool) :
  (forall n c, (n, c) ∈ es -> obj_get n previous = Some c) ->
  pressedNow es previous = [].
Proof.
  induction es as [|[n c] es IH]; intros Hs; cbn [pressedNow]; [done|].
  unfold obj_true. rewrite (Hs n c) by left.
  destruct c; cbn; apply IH; intros n' c' Hin; apply Hs; by right.
Qed.

Lemma pressedNow_elem (es previous : obj bool) n :
  n ∈ pressedNow es previous -> (n, true) ∈ es.
Proof.
  induction es as [|[n0 c] es IH]; cbn [pressedNow]; [by intros ?%elem_of_nil|].
  destruct c; cbn [andb].
  - destruct (negb _); [|by right; apply IH].
    intros [->|Hin]%elem_of_cons; [left | right; by apply IH].
  - intros Hin. right. by apply IH.
Qed.

Lemma pressedNow_intro (es previous : obj bool) n :
  (n, true) ∈ es -> obj_true n previous = false -> n ∈ pressedNow es previous.
Proof.
  intros Hin Hp. induction es as [|[n0 c] es IH]; [by apply elem_of_nil in Hin|].
  cbn [pressedNow]. apply elem_of_cons in Hin as [[= <- <-]|Hin].
  - rewrite Hp. cbn. left.
  - destruct (c && negb _); [right|]; by apply IH.
Qed.

Lemma obj_true_elem (es : obj bool) n :
  NoDup (obj_keys es) -> (n, true) ∈ es -> obj_true n es = true.
Proof. intros Hnd Hin. unfold obj_true. by rewrite (obj_elem_get n true es). Qed.

(** What [afterPoll] does to a held input: one more frame of hold. *)
Lemma afterPoll_holding g :
  holding g ->
  exists previous,
    afterPoll g
    = set_resetMap false
        (set_previousState previous (set_pressedTime (_pressedTime g + 1)%Z g)) /\
    holding (afterPoll g).
Proof.
  intros (Hnd & (first & rest & Hl & Hf) & Hpn & Hv & Hfs).
  unfold afterPoll, ensureLatest. rewrite Hl.
  unfold countHold. rewrite Hl. cbn [default from_option Datatypes.id].
  rewrite Hf. unfold detectPresses. cbn [_currentState set_pressedTime].
  destruct (detectPresses_fold (_currentState g)
              (set_pressedTime (_pressedTime g + 1)%Z g) (first :: rest) Hnd Hl)
    as (previous & Heq & Hin & _).
  rewrite Heq. cbn [_previousState set_pressedTime]. rewrite Hpn, app_nil_r.
  unfold takeVirtualButton.
  cbn [_virtualButton set_previousState set_pressedTime set_latestButton _pressedTime].
  rewrite Hv.
  set (g' := set_previousState _ _).
  assert (Hfs' : failsafeHeld g' = false) by exact Hfs.
  rewrite (failsafe_off g' Hfs').
  exists previous. split.
  - unfold g'. destruct g; cbn in *. by subst.
  - split; [exact Hnd|]. split; [|split; [|split]].
    + exists first, rest. split; [reflexivity | exact Hf].
    + cbn [_currentState _previousState set_resetMap]. unfold g'.
      cbn [_currentState _previousState set_previousState].
      by apply pressedNow_synced.
    + exact Hv.
    + exact Hfs.
Qed.

End Holding.

Section Repeat.
Context {H : Type}.
Variable run : H -> callArgs -> Game H -> Game H.
Implicit Types (g : Game H) (t : Traced H).

Lemma obj_get_fmap_false k (o : obj bool) :
  obj_get k ((fun '(k, _) => (k, false)) <$> o) = (fun _ => false) <$> obj_get k o.
Proof.
  induction o as [|[k0 v] o IH]; cbn [fmap list_fmap obj_get]; [done|].
  by case_decide.
Qed.

Lemma obj_keys_fmap_false (o : obj bool) :
  obj_keys ((fun '(k, _) => (k, false)) <$> o) = obj_keys o.
Proof.
  unfold obj_keys. rewrite <- list_fmap_compose. apply list_fmap_ext.
  by intros i [k v] _.
Qed.

Lemma obj_keys_set_names_NoDup {V} (v : V) names o :
  NoDup (obj_keys o) ->
  NoDup (obj_keys (fold_left (fun c b => obj_set b v c) names o)).
Proof.
  revert o. induction names as [|b names IH]; intros o Hnd; [done|].
  cbn [fold_left]. apply IH. by apply obj_keys_set_NoDup.
Qed.

Lemma atRest_Input_clear g : atRest g -> atRest (Input_clear g).
Proof.
  intros (Hnd & Hc & Hp & Hv & Hk). unfold atRest, Input_clear.
  cbn [_currentState _previousState _virtualButton _keyboardInputCallback
       set_virtualButton set_pressedTime set_latestButton set_gamepadStates
       set_currentState].
  split; [|split; [|done]].
  - apply obj_keys_set_names_NoDup. by rewrite obj_keys_fmap_false.
  - intros k. unfold obj_true. rewrite obj_get_set_names.
    case_decide; [done|]. rewrite obj_get_fmap_false.
    by destruct (obj_get k (_currentState g)).
Qed.

(** The state after a key-down on a state at rest. *)
Lemma Input_onKeyDown_atRest e names g :
  atRest g ->
  keyMapper g !! eventKey e = Some names ->
  let g1 := Input_onKeyDown e g in
  NoDup (obj_keys (_currentState g1)) /\
  (forall n, obj_true n (_currentState g1) = bool_decide (n ∈ names)) /\
  _previousState g1 = _previousState g /\
  _virtualButton g1 = None.
Proof.
  intros Hr Hm g1. unfold g1, Input_onKeyDown.
  assert (Hgen : forall g', atRest g' -> _previousState g' = _previousState g ->
            keyMapper g' = keyMapper g ->
            NoDup (obj_keys (_currentState (setNames names true g'))) /\
            (forall n, obj_true n (_currentState (setNames names true g'))
                       = bool_decide (n ∈ names)) /\
            _previousState (setNames names true g') = _previousState g /\
            _virtualButton (setNames names true g') = None).
  { intros g' (Hnd & Hc & Hp & Hv & Hk) Hpe Hke. rewrite setNames_currentState.
    cbn [_currentState _previousState _virtualButton set_currentState].
    split; [by apply obj_keys_set_names_NoDup|]. split; [|done].
    intros n. unfold obj_true. rewrite obj_get_set_names.
    destruct (decide (n ∈ names)).
    - by rewrite bool_decide_eq_true_2.
    - rewrite bool_decide_eq_false_2 by done. apply (Hc n). }
  destruct (decide (keyCode e = 144)%Z); cbn zeta.
  - assert (keyMapper (Input_clear g) = keyMapper g) as -> by reflexivity.
    rewrite Hm. apply Hgen; [by apply atRest_Input_clear|done|done].
  - rewrite Hm. by apply Hgen.
Qed.

End Repeat.

Section Repeat2.
Context {H : Type}.
Variable run : H -> callArgs -> Game H -> Game H.
Implicit Types (g : Game H) (t : Traced H).

Lemma failsafeHeld_currentState g g' :
  _currentState g = _currentState g' -> failsafeHeld g = failsafeHeld g'.
Proof. intros Hc. unfold failsafeHeld, Input_isPressed. by rewrite Hc. Qed.

(** The first update after a fresh press: the pressed names are on
    [_latestButton] and the hold time is 0. *)
Lemma afterPoll_pressed g b :
  NoDup (obj_keys (_currentState g)) ->
  obj_true b (_currentState g) = true ->
  (forall n, obj_true n (_previousState g) = false) ->
  _virtualButton g = None ->
  failsafeHeld g = false ->
  holding (afterPoll g) /\
  _pressedTime (afterPoll g) = 0%Z /\
  (exists L, _latestButton (afterPoll g) = Some L /\ b ∈ L) /\
  _currentState (afterPoll g) = _currentState g.
Proof.
  intros Hnd Hb Hp Hv Hfs.
  set (g2 := countHold (ensureLatest g)).
  assert (Hg2 : exists l2 time, g2 = set_pressedTime time (set_latestButton (Some l2) g) /\
            (l2 = [] \/ exists first rest, l2 = first :: rest /\
                                      obj_true first (_currentState g) = true)).
  { unfold g2, ensureLatest, countHold.
    destruct (_latestButton g) as [[|first rest]|] eqn:Hl.
    - rewrite Hl. cbn. exists [], (_pressedTime g). split; [|by left].
      destruct g; cbn in *. by subst.
    - rewrite Hl. cbn [default from_option Datatypes.id].
      destruct (obj_true first (_currentState g)) eqn:Hf.
      + exists (first :: rest), (_pressedTime g + 1)%Z. split; [|right; eauto].
        destruct g; cbn in *. by subst.
      + exists [], (_pressedTime g). split; [|by left]. destruct g; cbn in *. by subst.
    - cbn. exists [], (_pressedTime g). split; [|by left]. destruct g; by cbn in *. }
  destruct Hg2 as (l2 & time & Hg2 & Hl2).
  unfold afterPoll. fold g2. rewrite Hg2. unfold detectPresses.
  cbn [_currentState set_pressedTime set_latestButton].
  destruct (detectPresses_fold (_currentState g)
              (set_pressedTime time (set_latestButton (Some l2) g)) l2 Hnd eq_refl)
    as (previous & Heq & Hin & _).
  rewrite Heq. cbn [_previousState set_pressedTime set_latestButton _pressedTime].
  assert (Hbin : b ∈ pressedNow (_currentState g) (_previousState g)).
  { apply pressedNow_intro; [|apply Hp]. apply obj_get_elem.
    unfold obj_true in Hb. by destruct (obj_get b (_currentState g)) as [[]|]. }
  destruct (pressedNow (_currentState g) (_previousState g)) as [|p ps] eqn:Hpn;
    [by apply elem_of_nil in Hbin|].
  unfold takeVirtualButton.
  cbn [_virtualButton set_previousState set_pressedTime set_latestButton].
  rewrite Hv.
  set (g3 := set_previousState _ _).
  assert (Hfs3 : failsafeHeld g3 = false) by exact Hfs.
  rewrite (failsafe_off g3 Hfs3).
  split; [|split; [done|split; [|done]]].
  - split; [exact Hnd|]. split; [|split; [|split; [exact Hv|exact Hfs]]].
    + destruct Hl2 as [->|(first & rest & -> & Hf)].
      * exists p, ps. split; [reflexivity|]. apply obj_true_elem; [done|].
        apply (pressedNow_elem (_currentState g) (_previousState g)).
        rewrite Hpn. left.
      * exists first, (rest ++ p :: ps). split; [reflexivity | exact Hf].
    + by apply pressedNow_synced.
  - exists (l2 ++ p :: ps). split; [reflexivity|]. apply elem_of_app. by right.
Qed.


End Repeat2.

(** ** Repeat timing *)


Section Repeat3.
Context {H : Type}.
Variable run : H -> callArgs -> Game H -> Game H.
Implicit Types (g : Game H) (t : Traced H).


Lemma Input_isTriggered_held g b L :
  _latestButton g = Some L -> b ∈ L ->
  Input_isTriggered b g = Normal (bool_decide (_pressedTime g = 0)%Z).
Proof.
  intros HL Hb. unfold Input_isTriggered, isTriggered_direct, latestContains.
  rewrite HL. rewrite (bool_decide_eq_true_2 (b ∈ L)) by done. cbn [andb].
  destruct (_isEscapeCompatible b); [|done].
  destruct (bool_decide ("escape" ∈ L)); cbn [andb]; [|done].
  by destruct (bool_decide (_pressedTime g = 0)%Z).
Qed.

Lemma Input_isPressed_held g b :
  obj_true b (_currentState g) = true -> Input_isPressed b g = true.
Proof. intros Hb. unfold Input_isPressed. rewrite Hb. by destruct (_ && _). Qed.


End Repeat3.

Section Frame.
Context {H : Type}.
Implicit Types (g : Game H).

Lemma arr_get_Some_lt (a : jsarray) j v : arr_get a j = Some v -> (j < length a)%nat.
Proof.
  unfold arr_get. destruct (a !! j) eqn:E; [|discriminate].
  intros _. by apply lookup_lt_Some in E.
Qed.

Lemma arr_get_ge (a : jsarray) j : (length a <= j)%nat -> arr_get a j = None.
Proof.
  intros Hge. unfold arr_get, jsarray in *. by rewrite (lookup_ge_None_2 a j Hge).
Qed.

Lemma set_activeGamepadIndex_same g :
  set_activeGamepadIndex (activeGamepadIndex g) g = g.
Proof. by destruct g. Qed.

(** The loop of [Input.update] changes three fields. *)
Lemma detectPresses_frame (es : obj bool) g :
  exists previous time latest,
    fold_left detectPress es g
    = set_previousState previous (set_pressedTime time (set_latestButton latest g)).
Proof.
  revert g. induction es as [|[name current] es IH]; intros g.
  - exists (_previousState g), (_pressedTime g), (_latestButton g). by destruct g.
  - cbn [fold_left]. destruct (IH (detectPress g (name, current)))
      as (previous & time & latest & ->).
    unfold detectPress. destruct (current && negb _); by eexists _, _, _.
Qed.

(** Unless the failsafe fires, [afterPoll] changes only the bookkeeping
    of the update: the table, the lookup maps, the current logical state
    and the capture slots are as before. *)
Lemma afterPoll_frame g :
  failsafeHeld g = false ->
  exists reset virtual previous time latest,
    afterPoll g
    = set_resetMap reset
        (set_virtualButton virtual
           (set_previousState previous
              (set_pressedTime time (set_latestButton latest g)))).
Proof.
  intros Hfs. unfold afterPoll.
  assert (H1 : exists time latest,
            countHold (ensureLatest g)
            = set_pressedTime time (set_latestButton latest g)).
  { unfold ensureLatest, countHold. destruct (_latestButton g) as [[|first rest]|] eqn:E.
    - rewrite E. cbn. by exists (_pressedTime g), (Some []).
    - rewrite E. cbn [default from_option Datatypes.id].
      destruct (obj_true first (_currentState g)).
      + exists (_pressedTime g + 1)%Z, (Some (first :: rest)).
        destruct g; cbn in *. by subst.
      + by exists (_pressedTime g), (Some []).
    - cbn. by exists (_pressedTime g), (Some []). }
  destruct H1 as (time1 & latest1 & ->). unfold detectPresses.
  cbn [_currentState set_pressedTime set_latestButton].
  destruct (detectPresses_frame (_currentState g)
              (set_pressedTime time1 (set_latestButton latest1 g)))
    as (previous & time & latest & ->).
  set (g3 := set_previousState _ _).
  assert (H3 : exists virtual time' latest',
            takeVirtualButton g3
            = set_virtualButton virtual
                (set_previousState previous
                   (set_pressedTime time' (set_latestButton latest' g)))).
  { unfold takeVirtualButton, g3.
    cbn [_virtualButton set_previousState set_pressedTime set_latestButton].
    destruct (_virtualButton g) as [b|] eqn:Ev.
    - destruct (truthy_string b).
      + by exists None, 0%Z, (Some [b]).
      + exists (Some b), time, latest. destruct g; cbn in *. by subst.
    - exists None, time, latest. destruct g; cbn in *. by subst. }
  destruct H3 as (virtual & time' & latest' & ->).
  rewrite failsafe_off by exact Hfs. by eexists _, _, _, _, _.
Qed.

(** An update with nothing held ends every hold. *)
Lemma afterPoll_released g :
  NoDup (obj_keys (_currentState g)) ->
  (forall n, obj_true n (_currentState g) = false) ->
  _virtualButton g = None ->
  _latestButton (afterPoll g) = Some [].
Proof.
  intros Hnd Hc Hv.
  assert (Hfs : failsafeHeld g = false).
  { unfold failsafeHeld, Input_isPressed. by rewrite !Hc, !andb_false_r. }
  unfold afterPoll.
  assert (H1 : exists time, countHold (ensureLatest g)
                            = set_pressedTime time (set_latestButton (Some []) g)).
  { unfold ensureLatest, countHold. destruct (_latestButton g) as [[|first rest]|] eqn:E.
    - rewrite E. cbn. exists (_pressedTime g). by destruct g.
    - rewrite E. cbn [default from_option Datatypes.id]. rewrite Hc.
      exists (_pressedTime g). by destruct g.
    - cbn. exists (_pressedTime g). by destruct g. }
  destruct H1 as (time & ->). unfold detectPresses.
  cbn [_currentState set_pressedTime set_latestButton].
  destruct (detectPresses_fold (_currentState g)
              (set_pressedTime time (set_latestButton (Some []) g)) [] Hnd eq_refl)
    as (previous & -> & _ & _).
  assert (Hpn : pressedNow (_currentState g) (_previousState g) = []).
  { destruct (pressedNow (_currentState g) (_previousState g)) as [|p ps] eqn:E; [done|].
    assert (Hp : p ∈ pressedNow (_currentState g) (_previousState g))
      by (rewrite E; left).
    apply pressedNow_elem in Hp. apply obj_true_elem in Hp; [|done].
    by rewrite Hc in Hp. }
  cbn [_previousState set_pressedTime set_latestButton]. rewrite Hpn.
  unfold takeVirtualButton.
  cbn [_virtualButton set_previousState set_pressedTime set_latestButton]. rewrite Hv.
  set (g3 := set_previousState _ _).
  assert (Hfs3 : failsafeHeld g3 = false) by exact Hfs.
  by rewrite (failsafe_off g3 Hfs3).
Qed.

End Frame.

(** ** Holds while the gamepads are steady *)

Section Steady.
Context {H : Type}.
Variable run : H -> callArgs -> Game H -> Game H.
Implicit Types (g : Game H) (t : Traced H).

Lemma noGamepad_steady pads g : noGamepad pads -> steady pads g.
Proof.
  intros Hno. unfold steady. eapply Forall_impl; [exact Hno|].
  intros [pad|] Hs; [|done]. intros Hc. congruence.
Qed.

Lemma steady_fields pads g g' :
  activeGamepadIndex g' = activeGamepadIndex g ->
  _gamepadStates g' = _gamepadStates g ->
  steady pads g -> steady pads g'.
Proof.
  intros Ha Hs Hst. unfold steady in *. eapply Forall_impl; [exact Hst|].
  intros [pad|] Hp; [|done]. intros Hc. rewrite Ha, Hs. by apply Hp.
Qed.

Lemma applyTransition_same n js g : fold_left (applyTransition n n) js g = g.
Proof.
  induction js as [|j js IH]; [done|]. cbn [fold_left].
  unfold applyTransition at 2. by rewrite decide_True.
Qed.

Lemma scanTransitions_same js o : scanTransitions js o o = None.
Proof.
  induction js as [|j js IH]; [done|]. cbn [scanTransitions]. by rewrite decide_True.
Qed.

Lemma set_gamepadStates_same g : set_gamepadStates (_gamepadStates g) g = g.
Proof. by destruct g. Qed.

Lemma on_game_same (f : Game H -> Game H) t : f (game t) = game t -> on_game f t = t.
Proof. intros Hf. unfold on_game. rewrite Hf. by destruct t. Qed.

(** Reading a gamepad that is not the selected one, or whose stored state
    is what the read returns, changes nothing and delivers no event. *)
Lemma Input_updateGamepadState_steady pads pad t a :
  activeGamepadIndex (game t) = Some a ->
  (a = Gamepad.index pad -> _gamepadStates (game t) !! a = Some (readGamepad pad)) ->
  Input_updateGamepadState run pads pad t = t.
Proof.
  intros Ha Hs. unfold Input_updateGamepadState.
  assert (Hr : readActive pads pad (game t) = game t).
  { unfold readActive. rewrite Ha. cbn zeta. rewrite Ha.
    destruct (decide (Some a = Some (Gamepad.index pad))) as [[= Heq]|Hne]; [|done].
    unfold originalUpdateGamepadState. rewrite <- Heq.
    pose proof (Hs Heq) as Hl.
    replace (default [] (_gamepadStates (game t) !! a)) with (readGamepad pad)
      by (unfold jsarray in *; by rewrite Hl).
    rewrite applyTransition_same.
    rewrite insert_id by exact Hl. apply set_gamepadStates_same. }
  rewrite (on_game_same _ t Hr). unfold firstTransition.
  by rewrite scanTransitions_same.
Qed.

Lemma Input_pollGamepads_steady pads t :
  steady pads (game t) -> Input_pollGamepads run pads t = t.
Proof.
  unfold Input_pollGamepads, steady. generalize pads at 2. intros all Hst.
  induction Hst as [|slot rest Hs Hst IH]; [done|].
  cbn [fold_left]. destruct slot as [pad|]; [|apply IH].
  destruct (Gamepad.connected pad) eqn:Hc; [|apply IH].
  destruct (Hs eq_refl) as (a & Ha & Hst').
  rewrite (Input_updateGamepadState_steady all pad t a Ha Hst'). apply IH.
Qed.

Lemma frames_shift pads (k : nat) t :
  frames run pads (S k) t = frames run pads k (Input_update run pads t).
Proof.
  induction k as [|k IH]; [done|].
  change (frames run pads (S (S k)) t)
    with (Input_update run pads (frames run pads (S k) t)).
  by rewrite IH.
Qed.

(** A hold that starts with the update [afterPoll g1]: the names pressed
    in [g1] are new, and every later poll finds the gamepads as they are
    stored. [k] is the number of updates since then. *)
Lemma hold_frames pads b t1 g1 (k : nat) :
  game t1 = afterPoll g1 ->
  NoDup (obj_keys (_currentState g1)) ->
  obj_true b (_currentState g1) = true ->
  (forall n, obj_true n (_previousState g1) = false) ->
  _virtualButton g1 = None ->
  failsafeHeld g1 = false ->
  steady pads g1 ->
  let g := game (frames run pads k t1) in
  holding g /\
  _pressedTime g = Z.of_nat k /\
  (exists L, _latestButton g = Some L /\ b ∈ L) /\
  _currentState g = _currentState g1 /\
  keyMapper g = keyMapper g1 /\
  steady pads g.
Proof.
  intros Ht1 Hnd Hb Hp Hv Hfs Hst.
  induction k as [|k IH]; cbn zeta.
  - cbn [frames]. rewrite Ht1.
    destruct (afterPoll_pressed g1 b Hnd Hb Hp Hv Hfs) as (Hh & Ht & HL & Hcur).
    destruct (afterPoll_frame g1 Hfs) as (r & v & p & ti & l & Heq).
    split; [done|]. split; [done|]. split; [done|]. split; [done|].
    rewrite Heq. split; [done|]. by apply (steady_fields pads g1).
  - cbn zeta in IH. destruct IH as (Hh & Ht & (L & HL & HbL) & Hcur & Hkey & Hstk).
    cbn [frames].
    assert (Hup : game (Input_update run pads (frames run pads k t1))
                  = afterPoll (game (frames run pads k t1))).
    { unfold Input_update. by rewrite (Input_pollGamepads_steady pads _ Hstk). }
    rewrite Hup. clear Hup.
    set (g := game (frames run pads k t1)) in *.
    destruct (afterPoll_holding g Hh) as (previous & Heq & Hh').
    split; [done|]. rewrite Heq.
    cbn [_pressedTime _latestButton _currentState keyMapper set_resetMap
         set_previousState set_pressedTime].
    split; [lia|]. split; [by exists L|]. split; [done|]. split; [done|].
    by apply (steady_fields pads g).
Qed.


(** A key that goes down on a state at rest, the gamepads steady. *)
Lemma key_hold pads e names b t (k : nat) :
  atRest (game t) ->
  keyMapper (game t) !! eventKey e = Some names ->
  b ∈ names ->
  failsafeHeld (Input_onKeyDown e (game t)) = false ->
  steady pads (Input_onKeyDown e (game t)) ->
  let g := game (frames run pads (S k) (keydown run e t)) in
  holding g /\
  _pressedTime g = Z.of_nat k /\
  (exists L, _latestButton g = Some L /\ b ∈ L) /\
  _currentState g = _currentState (Input_onKeyDown e (game t)) /\
  keyMapper g = keyMapper (Input_onKeyDown e (game t)) /\
  steady pads g.
Proof.
  intros Hr Hm Hb Hfs Hst.
  destruct (Input_onKeyDown_atRest e names (game t) Hr Hm) as (Hnd & Hc & Hp & Hv).
  assert (Hk : game (keydown run e t)
               = set_lastInputDevice keyboard (Input_onKeyDown e (game t))).
  { unfold keydown, nextKeyboardInputHandler. cbn [on_game game].
    rewrite callback_Input_onKeyDown. by rewrite (proj2 (proj2 (proj2 (proj2 Hr)))). }
  set (g1 := set_lastInputDevice keyboard (Input_onKeyDown e (game t))).
  assert (Hst1 : steady pads g1) by by apply (steady_fields pads (Input_onKeyDown e (game t))).
  cbn zeta. rewrite frames_shift.
  apply (hold_frames pads b (Input_update run pads (keydown run e t)) g1 k).
  - unfold Input_update. rewrite Input_pollGamepads_steady by (by rewrite Hk).
    cbn [on_game game]. by rewrite Hk.
  - exact Hnd.
  - unfold g1. cbn [_currentState set_lastInputDevice]. rewrite Hc.
    by apply bool_decide_eq_true_2.
  - intros n. unfold g1. cbn [_previousState set_lastInputDevice]. rewrite Hp.
    apply (proj1 (proj2 (proj2 Hr))).
  - exact Hv.
  - exact Hfs.
  - exact Hst1.
Qed.

End Steady.

Section ButtonHold.
Context {H : Type}.
Variable run : H -> callArgs -> Game H -> Game H.
Implicit Types (g : Game H) (t : Traced H).

Lemma Input_pollGamepads_others (all ps : gamepads) t a :
  activeGamepadIndex (game t) = Some a ->
  Forall (fun slot => match slot with
                      | Some pad => Gamepad.index pad <> a
                      | None => True
                      end) ps ->
  fold_left
    (fun t slot =>
       match slot with
       | Some pad =>
           if Gamepad.connected pad then Input_updateGamepadState run all pad t
           else t
       | None => t
       end) ps t = t.
Proof.
  intros Ha Hps. induction Hps as [|slot rest Hs Hps IH]; [done|].
  cbn [fold_left]. destruct slot as [pad|]; [|apply IH].
  destruct (Gamepad.connected pad); [|apply IH].
  rewrite (Input_updateGamepadState_steady run all pad t a Ha); [apply IH|].
  intros Heq. by destruct Hs.
Qed.

(** Only index [j] of the read differs from the stored state. *)
Lemma applyTransition_single o n names j js g :
  (forall i, i <> j -> arr_get n i = arr_get o i) ->
  arr_get n j <> arr_get o j ->
  gamepadMapper g !! pretty j = Some names ->
  NoDup js ->
  fold_left (applyTransition o n) js g
  = if decide (j ∈ js) then setNames names (default false (arr_get n j)) g else g.
Proof.
  intros Hother Hj Hm. revert g Hm. induction js as [|i js IH]; intros g Hm Hnd.
  - by rewrite decide_False by apply not_elem_of_nil.
  - apply NoDup_cons in Hnd as [Hnot Hnd]. cbn [fold_left].
    destruct (decide (i = j)) as [->|Hne].
    + rewrite IH; [|by rewrite gamepadMapper_applyTransition|done].
      rewrite (decide_False (P := j ∈ js)) by done.
      rewrite decide_True by left. unfold applyTransition.
      by rewrite decide_False, Hm by done.
    + unfold applyTransition at 2. rewrite decide_True by (by apply Hother).
      rewrite IH by done. apply decide_ext. split; [by right|].
      intros [?|?]%elem_of_cons; [congruence|done].
Qed.

Lemma updateActiveGamepad_congr pads g g' :
  targetGamepadName g' = targetGamepadName g ->
  activeGamepadIndex g' = activeGamepadIndex g ->
  activeGamepadIndex (updateActiveGamepad pads g')
  = activeGamepadIndex (updateActiveGamepad pads g).
Proof.
  intros Ht Ha. unfold updateActiveGamepad. rewrite Ht.
  destruct (targetGamepadName g) as [target|]; [destruct (truthy_string target)|];
    try destruct (firstGamepad (fun pad => bool_decide (Gamepad.id pad = target)) pads 0)
      as [[|i]|];
    cbn [activeGamepadIndex set_activeGamepadIndex]; rewrite ?Ha;
    destruct (activeGamepadIndex g) as [[|n]|] eqn:Eg;
    destruct (firstGamepad (fun _ => true) pads 0);
    cbn [activeGamepadIndex set_activeGamepadIndex]; rewrite ?Ha, ?Eg; reflexivity.
Qed.

Lemma set_lastInputDevice_same g : set_lastInputDevice (lastInputDevice g) g = g.
Proof. by destruct g. Qed.

(** The poll that sees button [j] of the selected gamepad go down, no
    capture being armed: the names of the button are written and the read
    is stored. *)
Lemma Input_pollGamepads_press pads a p old j names t :
  wellIndexed pads ->
  pads !! a = Some (Some p) ->
  Gamepad.connected p = true ->
  activeGamepadIndex (game t) = Some a ->
  activeGamepadIndex (updateActiveGamepad pads (game t)) = Some a ->
  _gamepadInputCallback (game t) = None ->
  _gamepadStates (game t) !! a = Some old ->
  arr_get (readGamepad p) j = Some true ->
  arr_get old j <> Some true ->
  (forall i, i <> j -> arr_get (readGamepad p) i = arr_get old i) ->
  gamepadMapper (game t) !! pretty j = Some names ->
  exists device,
    game (Input_pollGamepads run pads t)
    = set_lastInputDevice device
        (set_gamepadStates (<[a := readGamepad p]> (_gamepadStates (game t)))
           (setNames names true (game t))).
Proof.
  intros Hwi Hp Hc Ha Hsel Hcb Hold Hj Hoj Hother Hm.
  assert (Hidx : Gamepad.index p = a) by by apply Hwi.
  set (g2 := set_gamepadStates (<[a := readGamepad p]> (_gamepadStates (game t)))
               (setNames names true (game t))).
  assert (Hact2 : activeGamepadIndex g2 = Some a).
  { unfold g2. by rewrite setNames_currentState. }
  (* the read of [p] *)
  assert (Hread : exists device,
            Input_updateGamepadState run pads p t
            = mkTraced (set_lastInputDevice device g2) (calls t)).
  { unfold Input_updateGamepadState. rewrite Hidx.
    assert (Hr : readActive pads p (game t) = g2).
    { unfold readActive. rewrite Ha. cbn zeta. rewrite Ha, Hidx.
      rewrite decide_True by done. unfold originalUpdateGamepadState. rewrite Hidx.
      replace (default [] (_gamepadStates (game t) !! a)) with old
        by (unfold jsarray in *; by rewrite Hold).
      rewrite (applyTransition_single old (readGamepad p) names j); try done.
      - rewrite decide_True.
        + rewrite Hj. cbn [default from_option Datatypes.id]. unfold g2.
          by rewrite setNames_currentState.
        + apply elem_of_seq. apply arr_get_Some_lt in Hj. lia.
      - rewrite Hj. congruence.
      - apply NoDup_seq. }
    assert (Ht' : on_game (readActive pads p) t = mkTraced g2 (calls t))
      by (unfold on_game; by rewrite Hr).
    cbn zeta. rewrite Ht'. cbn [game calls].
    assert (Hnew : default [] (_gamepadStates g2 !! a) = readGamepad p).
    { unfold g2. rewrite setNames_currentState.
      cbn [_gamepadStates set_gamepadStates set_currentState].
      unfold jsarray in *. by rewrite lookup_insert_eq. }
    rewrite Hnew.
    replace (default [] (_gamepadStates (game t) !! a)) with old
      by (unfold jsarray in *; by rewrite Hold).
    assert (Hcb2 : _gamepadInputCallback g2 = None).
    { unfold g2. by rewrite setNames_currentState. }
    destruct (firstTransition old (readGamepad p)) as [[i type]|].
    - rewrite nextGamepadInputHandler_idle by exact Hcb2.
      unfold on_game. cbn [game calls]. unfold trackGamepad.
      destruct (lastInputDevice g2) eqn:Hdev.
      + exists gamepad. f_equal. f_equal.
        destruct (updateActiveGamepad_fields pads g2) as [index Hu].
        assert (Hi : index = Some a).
        { assert (E : activeGamepadIndex (updateActiveGamepad pads g2) = Some a).
          { rewrite (updateActiveGamepad_congr pads (game t) g2); [done| |].
            - unfold g2. by rewrite setNames_currentState.
            - by rewrite Hact2, Ha. }
          by rewrite Hu in E. }
        rewrite Hu, Hi, <- Hact2. apply set_activeGamepadIndex_same.
      + exists gamepad. f_equal. rewrite <- Hdev. symmetry. apply set_lastInputDevice_same.
    - exists (lastInputDevice g2). rewrite set_lastInputDevice_same. reflexivity. }
  destruct Hread as (device & Hread). exists device.
  unfold Input_pollGamepads.
  set (step := fun (t : Traced H) (slot : option Gamepad.t) => _).
  rewrite <- (take_drop_middle pads a (Some p) Hp).
  rewrite fold_left_app. cbn [fold_left]. subst step. cbn beta.
  rewrite (Input_pollGamepads_others pads (take a pads) t a Ha).
  - rewrite Hc, Hread.
    rewrite (Input_pollGamepads_others pads (drop (S a) pads) _ a); [done|done|].
    apply Forall_lookup. intros i [q|] Hq; [|done].
    rewrite lookup_drop in Hq. apply Hwi in Hq. lia.
  - apply Forall_lookup. intros i [q|] Hq; [|done].
    apply lookup_take_Some in Hq as [Hq Hlt]. apply Hwi in Hq. lia.
Qed.

(** A button of the selected gamepad that goes down on a state at rest,
    nothing else changing. *)
Lemma button_hold pads a p old j names b t (k : nat) :
  wellIndexed pads ->
  pads !! a = Some (Some p) ->
  Gamepad.connected p = true ->
  atRest (game t) ->
  activeGamepadIndex (game t) = Some a ->
  activeGamepadIndex (updateActiveGamepad pads (game t)) = Some a ->
  _gamepadInputCallback (game t) = None ->
  _gamepadStates (game t) !! a = Some old ->
  arr_get (readGamepad p) j = Some true ->
  arr_get old j <> Some true ->
  (forall i, i <> j -> arr_get (readGamepad p) i = arr_get old i) ->
  gamepadMapper (game t) !! pretty j = Some names ->
  b ∈ names ->
  failsafeHeld (setNames names true (game t)) = false ->
  let g := game (frames run pads (S k) t) in
  holding g /\
  _pressedTime g = Z.of_nat k /\
  (exists L, _latestButton g = Some L /\ b ∈ L) /\
  obj_true b (_currentState g) = true.
Proof.
  intros Hwi Hp Hc (Hnd & Hcur & Hprev & Hv & _) Ha Hsel Hcb Hold Hj Hoj Hother Hm Hb Hfs.
  destruct (Input_pollGamepads_press pads a p old j names t
              Hwi Hp Hc Ha Hsel Hcb Hold Hj Hoj Hother Hm) as (device & Hpoll).
  set (g1 := game (Input_pollGamepads run pads t)) in *.
  assert (Hc1 : _currentState g1
                = fold_left (fun c n => obj_set n true c) names (_currentState (game t))).
  { rewrite Hpoll, setNames_currentState. reflexivity. }
  assert (Hb1 : obj_true b (_currentState g1) = true).
  { rewrite Hc1. unfold obj_true. rewrite obj_get_set_names. by rewrite decide_True. }
  cbn zeta. rewrite frames_shift.
  destruct (hold_frames run pads b (Input_update run pads t) g1 k)
    as (Hh & Ht & HL & Hcurk & _ & _).
  - reflexivity.
  - rewrite Hc1. by apply obj_keys_set_names_NoDup.
  - exact Hb1.
  - intros n. rewrite Hpoll, setNames_currentState. apply Hprev.
  - rewrite Hpoll, setNames_currentState. exact Hv.
  - rewrite <- Hfs. apply failsafeHeld_currentState.
    rewrite Hc1. by rewrite setNames_currentState.
  - apply Forall_lookup. intros i [q|] Hq; [|done]. intros Hcq. exists a. split.
    + rewrite Hpoll. by rewrite setNames_currentState.
    + intros Heq. pose proof (Hwi _ _ Hq) as Hi.
      assert (E : i = a) by lia. rewrite E in Hq.
      assert (q = p) as -> by (unfold gamepads in *; congruence).
      rewrite Hpoll, setNames_currentState.
      cbn [_gamepadStates set_lastInputDevice set_gamepadStates set_currentState].
      apply lookup_insert_eq.
  - split; [done|]. split; [done|]. split; [done|]. by rewrite Hcurk.
Qed.

End ButtonHold.

Section Timing.
Context {H : Type}.
Variable run : H -> callArgs -> Game H -> Game H.
Implicit Types (g : Game H) (t : Traced H).

Lemma buttonGoesDown_hold pads j names b t (k : nat) :
  atRest (game t) ->
  buttonGoesDown pads (game t) j names ->
  b ∈ names ->
  failsafeHeld (setNames names true (game t)) = false ->
  let g := game (frames run pads (S k) t) in
  holding g /\
  _pressedTime g = Z.of_nat k /\
  (exists L, _latestButton g = Some L /\ b ∈ L) /\
  obj_true b (_currentState g) = true.
Proof.
  intros Hr (a & p & old & Hwi & Hp & Hc & Ha & Hsel & Hcb & Hold & Hj & Hoj & Hother & Hm)
    Hb Hfs.
  by apply (button_hold run pads a p old j names b t k).
Qed.


End Timing.

(** ** Queries after a reset, and the configuration round trip *)

Section Queries.
Context {H : Type}.
Implicit Types (g : Game H).

Lemma currentState_Input_clear g k :
  obj_true k (_currentState (Input_clear g)) = false.
Proof.
  unfold Input_clear.
  cbn [_currentState set_virtualButton set_pressedTime set_latestButton
       set_gamepadStates set_currentState].
  unfold obj_true. rewrite obj_get_set_names.
  case_decide; [done|]. rewrite obj_get_fmap_false.
  by destruct (obj_get k (_currentState g)).
Qed.

(** Right after the lookup maps are rebuilt, which ends with
    [Input.clear], [_latestButton] is [null]: [isTriggered] and
    [isRepeated] throw for every name, while [isPressed] is false. *)
Lemma queries_after_rebuildButtonMapper g keyName :
  let g' := rebuildButtonMapper g in
  Input_isTriggered keyName g' = Throw TypeError /\
  Input_isRepeated keyName g' = Throw TypeError /\
  Input_isPressed keyName g' = false.
Proof.
  intros g'. unfold g', rebuildButtonMapper.
  set (g0 := set_gamepadMapper _ _).
  split; [|split].
  - unfold Input_isTriggered, isTriggered_direct, latestContains.
    cbn [_latestButton Input_clear set_virtualButton set_pressedTime set_latestButton].
    by destruct (_isEscapeCompatible keyName).
  - unfold Input_isRepeated, isRepeated_direct, latestContains.
    cbn [_latestButton Input_clear set_virtualButton set_pressedTime set_latestButton].
    by destruct (_isEscapeCompatible keyName).
  - unfold Input_isPressed. rewrite !currentState_Input_clear.
    by rewrite andb_false_r.
Qed.

End Queries.

(** C7 at a failing input. From the start-up state Escape and Tab go
    down and stay down. At the 301st update the failsafe resets the
    table, which clears the input state: in the state that update leaves,
    [isTriggered] and [isRepeated] throw for "system_menu", a name that is
    not in the table, instead of returning false. One update earlier they
    return false. *)
Theorem unknown_name_query_throws_after_reset :
  let chord := keydown noCallback (keyEvent "Tab" 9)
                 (keydown noCallback (keyEvent "Escape" 27) (mkTraced boot [])) in
  let before := game (frames noCallback [] 300 chord) in
  let after := game (frames noCallback [] 301 chord) in
  obj_get "system_menu" (inputs after) = None /\
  Input_isTriggered "system_menu" before = Normal false /\
  Input_isRepeated "system_menu" before = Normal false /\
  _latestButton after = None /\
  Input_isTriggered "system_menu" after = Throw TypeError /\
  Input_isRepeated "system_menu" after = Throw TypeError /\
  Input_isPressed "system_menu" after = false.
Proof. repeat split; by vm_compute. Qed.

Section RoundTrip.
Context {H : Type}.
Implicit Types (g : Game H) (ins : obj InputFunction).

(** The loop of [setControlMap] over a control map taken from [ins]. *)
Lemma setControlMap_loop (m : obj InputFunction) ins fn :
  NoDup (obj_keys m) ->
  bindings <$> obj_get fn
    (fold_left
       (fun ins '(key, buttons) =>
          obj_alter
            (fun func =>
               set_input_prop KeyboardButton (ControlMap.keyboardButton buttons)
                 (set_input_prop GamepadButton (ControlMap.gamepadButton buttons) func))
            key ins)
       ((fun '(func, funcData) =>
           (func, ControlMap.mk (keyboardButton funcData) (gamepadButton funcData)))
        <$> m)
       ins)
  = match obj_get fn m with
    | Some saved => (fun _ => bindings saved) <$> obj_get fn ins
    | None => bindings <$> obj_get fn ins
    end.
Proof.
  revert ins. induction m as [|[k a] m IH]; intros ins Hnd; [done|].
  unfold obj_keys in Hnd. cbn [fmap list_fmap fst] in Hnd.
  apply NoDup_cons in Hnd as [Hnot Hnd].
  cbn [fmap list_fmap fold_left obj_get]. rewrite (IH _ Hnd).
  destruct (decide (k = fn)) as [->|Hne].
  - assert (obj_get fn m = None) as -> by by apply obj_get_None_keys.
    rewrite obj_get_alter, decide_True by done.
    by destruct (obj_get fn ins).
  - rewrite obj_get_alter, decide_False by done.
    by destruct (obj_get fn m).
Qed.

(** C4. The configuration saved from a state [g], applied to a state
    [g'] that has the same functions, gives every function the keyboard
    and gamepad binding it has in [g] and the preferred gamepad name of
    [g]. *)
Theorem config_round_trip g g' :
  NoDup (obj_keys (inputs g)) ->
  obj_keys (inputs g') = obj_keys (inputs g) ->
  let restored := ConfigManager_applyData (ConfigManager_makeData g) g' in
  (forall fn, bindings <$> obj_get fn (inputs restored)
              = bindings <$> obj_get fn (inputs g)) /\
  targetGamepadName restored = targetGamepadName g.
Proof.
  intros Hnd Hkeys restored. split; [|reflexivity].
  intros fn. unfold restored, ConfigManager_applyData, ConfigManager_makeData.
  cbn [controlMap buttonSet gamepadName]. unfold setControlMap.
  rewrite inputs_rebuildButtonMapper. cbn [inputs set_inputs].
  unfold getControlMap.
  assert (Hin : inputs (setTargetGamepadName (targetGamepadName g)
                  (changeButtonSet (clamp (getButtonSet g) 0 (numButtonSets g')) g'))
                = inputs g') by reflexivity.
  rewrite Hin, setControlMap_loop by done.
  destruct (obj_get fn (inputs g)) as [saved|] eqn:Hg.
  - assert (Hin' : fn ∈ obj_keys (inputs g')).
    { rewrite Hkeys. by eapply obj_get_Some_keys. }
    destruct (obj_get fn (inputs g')) eqn:Hg'; [done|].
    by apply obj_get_None_keys in Hg'.
  - apply obj_get_None_keys in Hg. rewrite <- Hkeys in Hg.
    apply obj_get_None_keys in Hg. by rewrite Hg.
Qed.

End RoundTrip.

(** ** Instances *)

Lemma gamepad_capture_fires_once_witness :
  let h := remapGamepadInputHandler menuFunction in
  let t := mkTraced (onNextGamepadRelease h boot) [] in
  let t' := nextGamepadInputHandler Scene_run [] 5 release t in
  calls t' = [(h, GamepadArgs 5 release)] /\
  forall edges, calls (gamepadEdges Scene_run [] edges t') = calls t'.
Proof.
  intros h t t'.
  pose proof (gamepad_capture_fires_once Scene_run [] h release 5 t eq_refl eq_refl)
    as (_ & _ & _ & Hc & _ & _ & Hn).
  split; [exact Hc|]. apply Hn. by vm_compute.
Defined.

Lemma first_transition_wins_witness :
  let pads := [Some (pad (replicate 16 false))] in
  let pads' := [Some (pad ([true; true] ++ replicate 14 false))] in
  let t := Input_update noCallback pads (mkTraced boot []) in
  let p := pad ([true; true] ++ replicate 14 false) in
  let t1 := on_game (readActive pads' p) t in
  Input_updateGamepadState noCallback pads' p t
    = nextGamepadInputHandler noCallback pads' 0 press t1 /\
  obj_get "cancel" (_currentState (game t1)) = Some true.
Proof.
  intros pads pads' t p t1.
  pose proof (first_transition_wins noCallback pads' p t) as (Hfirst & _ & Hlater).
  split.
  - apply (Hfirst 0%nat press). by vm_compute.
  - refine (Hlater _ 1%nat "cancel" _ _ _).
    + by vm_compute.
    + vm_compute. lia.
    + split; [by vm_compute|]. exists ["cancel"]. split; [by vm_compute|left].
    + intros j' Hj' [Hd _]. apply Hd.
      destruct j' as [|[|j']]; [lia|lia|]. by vm_compute.
Defined.

Lemma obj_true_all_false (o : obj bool) k :
  forallb (fun p => negb p.2) o = true -> obj_true k o = false.
Proof.
  unfold obj_true. induction o as [|[n v] o IH]; cbn [forallb obj_get]; [done|].
  intros [Hv Ho]%andb_true_iff. destruct (decide (n = k)); [|by apply IH].
  by destruct v.
Qed.

(** The start-up state after one update, with no gamepad and with an
    idle gamepad in slot 0. *)
Lemma started_atRest (pads : gamepads) :
  pads = [] \/ pads = [Some (pad (replicate 16 false))] ->
  atRest (game (frames noCallback pads 1 (mkTraced boot []))).
Proof.
  intros [-> | ->].
  - split; [apply (bool_decide_unpack _); by vm_compute|].
    split; [intros k; by vm_compute|].
    split; [intros k; by vm_compute|]. split; by vm_compute.
  - split; [apply (bool_decide_unpack _); by vm_compute|].
    split; [intros k; apply obj_true_all_false; by vm_compute|].
    split; [intros k; apply obj_true_all_false; by vm_compute|]. split; by vm_compute.
Qed.

(** Button 0 of the gamepad in slot 0 goes down after an idle read. *)
Lemma started_buttonGoesDown :
  buttonGoesDown [Some (pad (true :: replicate 15 false))]
    (game (frames noCallback [Some (pad (replicate 16 false))] 1 (mkTraced boot [])))
    0 ["confirm"; "ok"].
Proof.
  exists 0%nat, (pad (true :: replicate 15 false)),
    (readGamepad (pad (replicate 16 false))).
  split; [intros [|i] q Hq; [by injection Hq as <-|done]|].
  split; [done|]. split; [done|]. split; [by vm_compute|]. split; [by vm_compute|].
  split; [by vm_compute|]. split; [by vm_compute|]. split; [by vm_compute|].
  split; [by vm_compute|]. split; [|by vm_compute].
  intros i Hi.
  do 16 (destruct i as [|i]; [first [done | by vm_compute]|]).
  rewrite !arr_get_ge; [done| |]; vm_compute; lia.
Qed.



Lemma config_round_trip_witness :
  let g : Game unit :=
    setTargetGamepadName (Some "Pad")
      (setKeyboardButton "menu" (Str "KeyM") boot) in
  let restored := ConfigManager_applyData (ConfigManager_makeData g) (boot : Game unit) in
  bindings <$> obj_get "menu" (inputs restored) = Some (Str "KeyM", Num 3) /\
  targetGamepadName restored = Some "Pad".
Proof.
  intros g restored.
  assert (Hnd : NoDup (obj_keys (inputs g)))
    by (apply (bool_decide_unpack _); by vm_compute).
  assert (Hk : obj_keys (inputs (boot : Game unit)) = obj_keys (inputs g))
    by (by vm_compute).
  pose proof (config_round_trip g boot Hnd Hk) as [Hb Hn].
  split; [|exact Hn]. etrans; [exact (Hb "menu")|]. by vm_compute.
Defined.

(** * Further properties *)

(** ** The capture slot and the first read of a gamepad *)

Section CaptureSlot.
Context {H : Type}.
Variable run : H -> callArgs -> Game H -> Game H.
Implicit Types (g : Game H) (t : Traced H).

Lemma keydowns_idle events t :
  _keyboardInputCallback (game t) = None ->
  calls (keydowns run events t) = calls t.
Proof.
  revert t. induction events as [|e events IH]; intros t Hn; [done|].
  cbn [keydowns fold_left]. fold (keydowns run events (keydown run e t)).
  assert (Hk : keydown run e t
               = on_game (set_lastInputDevice keyboard)
                   (on_game (Input_onKeyDown e) t)).
  { unfold keydown, nextKeyboardInputHandler. cbn [on_game game].
    by rewrite callback_Input_onKeyDown, Hn. }
  rewrite IH; rewrite Hk; cbn [on_game game calls]; [done|].
  cbn [_keyboardInputCallback set_lastInputDevice].
  by rewrite callback_Input_onKeyDown.
Qed.

(** X1. Cancelling a capture leaves nothing to fire: after
    [cancelOnNextGamepadInput] no sequence of gamepad edges calls a
    callback, and after [cancelOnNextKeyboardInput] no sequence of
    key-down events does, whatever was armed before. *)
Theorem cancelled_capture_never_fires pads edges events t :
  calls (gamepadEdges run pads edges (on_game cancelOnNextGamepadInput t)) = calls t /\
  calls (keydowns run events (on_game cancelOnNextKeyboardInput t)) = calls t.
Proof.
  split.
  - by rewrite gamepadEdges_idle.
  - by rewrite keydowns_idle.
Qed.

(** X2. One capture at a time: arming again replaces the callback that
    was waiting. The next edge of the armed type calls the new callback
    only, and an edge of the other type calls nothing and leaves the
    capture armed. *)
Theorem rearming_replaces_capture pads (h1 h2 : H) (i : nat) t :
  let armed := on_game (fun g => onNextGamepadRelease h2 (onNextGamepadPress h1 g)) t in
  calls (nextGamepadInputHandler run pads i release armed)
    = calls t ++ [(h2, GamepadArgs i release)] /\
  calls (nextGamepadInputHandler run pads i press armed) = calls t /\
  _gamepadInputCallback (game (nextGamepadInputHandler run pads i press armed))
    = Some h2 /\
  _gamepadInputCallbackType (game (nextGamepadInputHandler run pads i press armed))
    = Some release.
Proof.
  intros armed. split; [|split; [|split]].
  - unfold nextGamepadInputHandler, armed. cbn [on_game game calls]. reflexivity.
  - unfold nextGamepadInputHandler, armed. cbn [on_game game calls]. reflexivity.
  - unfold nextGamepadInputHandler, armed.
    cbn [on_game game calls onNextGamepadRelease _gamepadInputCallback
         _gamepadInputCallbackType set_gamepadInputCallbackType
         set_gamepadInputCallback bool_decide decide_rel].
    change (bool_decide (release = press)) with false. cbn [on_game game].
    by rewrite (proj1 (callback_trackGamepad pads _)).
  - unfold nextGamepadInputHandler, armed.
    cbn [on_game game calls onNextGamepadRelease _gamepadInputCallback
         _gamepadInputCallbackType set_gamepadInputCallbackType
         set_gamepadInputCallback].
    change (bool_decide (release = press)) with false. cbn [on_game game].
    by rewrite (proj2 (callback_trackGamepad pads _)).
Qed.

Lemma lastInputDevice_trackGamepad pads g :
  lastInputDevice (trackGamepad pads g) = gamepad.
Proof. unfold trackGamepad. by destruct (lastInputDevice g) eqn:E. Qed.

(** X3. The last used device follows the events whatever the capture
    callbacks do: after [nextGamepadInputHandler] it is the gamepad, after
    a key-down it is the keyboard. *)
Theorem last_input_device_follows_events pads i type e t :
  lastInputDevice (game (nextGamepadInputHandler run pads i type t)) = gamepad /\
  lastInputDevice (game (keydown run e t)) = keyboard.
Proof.
  split.
  - unfold nextGamepadInputHandler. cbn [on_game game].
    apply lastInputDevice_trackGamepad.
  - reflexivity.
Qed.

Lemma transitions_frame o n js g :
  exists current, fold_left (applyTransition o n) js g = set_currentState current g.
Proof.
  revert g. induction js as [|j js IH]; intros g.
  - exists (_currentState g). by destruct g.
  - cbn [fold_left]. destruct (IH (applyTransition o n g j)) as [current ->].
    unfold applyTransition. destruct (decide _); [by exists current|].
    destruct (gamepadMapper g !! pretty j); [|by exists current].
    rewrite setNames_currentState. by exists current.
Qed.

Lemma originalUpdateGamepadState_frame pad g :
  exists current,
    originalUpdateGamepadState pad g
    = set_gamepadStates (<[Gamepad.index pad := readGamepad pad]> (_gamepadStates g))
        (set_currentState current g).
Proof.
  unfold originalUpdateGamepadState.
  destruct (transitions_frame (default [] (_gamepadStates g !! Gamepad.index pad))
              (readGamepad pad) (seq 0 (length (readGamepad pad))) g) as [current ->].
  by exists current.
Qed.

Lemma readActive_frame pads pad g :
  exists index states current,
    readActive pads pad g
    = set_gamepadStates states
        (set_currentState current (set_activeGamepadIndex index g)).
Proof.
  unfold readActive.
  set (g0 := match activeGamepadIndex g with
             | Some _ => g
             | None => updateActiveGamepad pads g
             end).
  assert (Hg0 : exists index, g0 = set_activeGamepadIndex index g).
  { unfold g0. destruct (activeGamepadIndex g) eqn:E.
    - exists (Some n). rewrite <- E. symmetry. apply set_activeGamepadIndex_same.
    - apply updateActiveGamepad_fields. }
  destruct Hg0 as [index ->].
  destruct (decide _).
  - destruct (originalUpdateGamepadState_frame pad (set_activeGamepadIndex index g))
      as [current ->]. by eexists _, _, _.
  - exists index, (_gamepadStates g), (_currentState g). by destruct g.
Qed.

(** The logical state that [originalUpdateGamepadState] leaves for a
    name written by index [j] and by no later index. *)
Lemma originalUpdateGamepadState_currentState pad g j b :
  let lastState := default [] (_gamepadStates g !! Gamepad.index pad) in
  let newState := readGamepad pad in
  (j < length newState)%nat ->
  writes lastState newState (gamepadMapper g) j b ->
  (forall j', (j < j')%nat -> ~ writes lastState newState (gamepadMapper g) j' b) ->
  obj_get b (_currentState (originalUpdateGamepadState pad g))
  = Some (default false (arr_get newState j)).
Proof.
  intros lastState newState Hj Hw Hlater.
  destruct (originalUpdateGamepadState_fields pad g) as (_ & -> & _).
  fold lastState newState.
  replace (seq 0 (length newState))
    with (seq 0 j ++ j :: seq (S j) (length newState - S j)).
  - apply currentState_transitions; [done|].
    intros j' Hj'. apply Hlater. apply elem_of_seq in Hj'. lia.
  - replace (length newState) with (j + S (length newState - S j))%nat at 2 by lia.
    by rewrite seq_app.
Qed.

(** X4. The first read of a gamepad that has no previous state (at
    start-up, and after every rebind or reset, which end with
    [Input.clear]) delivers no event: no callback is called, an armed
    capture stays armed and the last used device is not switched, even if
    buttons are down. The logical state is written all the same: a name
    that the gamepad map gives for a pressed button, and for no later
    index of the read, is held afterwards when the gamepad is the active
    one. *)
Theorem first_poll_is_silent pads pad t :
  _gamepadStates (game t) !! Gamepad.index pad = None ->
  let t' := Input_updateGamepadState run pads pad t in
  calls t' = calls t /\
  lastInputDevice (game t') = lastInputDevice (game t) /\
  _gamepadInputCallback (game t') = _gamepadInputCallback (game t) /\
  (activeGamepadIndex (game t') = Some (Gamepad.index pad) ->
   forall j names b,
     arr_get (readGamepad pad) j = Some true ->
     gamepadMapper (game t) !! pretty j = Some names ->
     b ∈ names ->
     (forall j' names', (j < j' < length (readGamepad pad))%nat ->
        gamepadMapper (game t) !! pretty j' = Some names' -> b ∉ names') ->
     obj_get b (_currentState (game t')) = Some true).
Proof.
  intros Hnone t'.
  assert (Ht' : t' = on_game (readActive pads pad) t).
  { unfold t', Input_updateGamepadState. unfold jsarray in *. by rewrite Hnone. }
  rewrite Ht'. cbn [on_game game calls].
  destruct (readActive_frame pads pad (game t)) as (index & states & current & Heq).
  split; [done|]. split; [by rewrite Heq|]. split; [by rewrite Heq|].
  clear Heq. intros Hactive j names b Hpressed Hm Hb Hlater.
  unfold readActive in *.
  set (g0 := match activeGamepadIndex (game t) with
             | Some _ => game t
             | None => updateActiveGamepad pads (game t)
             end) in *.
  assert (Hg0 : exists index, g0 = set_activeGamepadIndex index (game t)).
  { unfold g0. destruct (activeGamepadIndex (game t)) eqn:E.
    - exists (Some n). rewrite <- E. symmetry. apply set_activeGamepadIndex_same.
    - apply updateActiveGamepad_fields. }
  destruct Hg0 as [index' Hg0].
  destruct (decide (activeGamepadIndex g0 = Some (Gamepad.index pad))) as [Ha|Hna];
    [|by exfalso].
  assert (Hlast : default [] (_gamepadStates g0 !! Gamepad.index pad) = []).
  { rewrite Hg0. cbn [_gamepadStates set_activeGamepadIndex].
    unfold jsarray in *. by rewrite Hnone. }
  assert (Hmap : gamepadMapper g0 = gamepadMapper (game t)) by (by rewrite Hg0).
  assert (Hj : (j < length (readGamepad pad))%nat) by (by eapply arr_get_Some_lt).
  rewrite (originalUpdateGamepadState_currentState pad g0 j b Hj).
  - by rewrite Hpressed.
  - rewrite Hlast, Hmap. split; [by rewrite Hpressed|]. by exists names.
  - rewrite Hlast, Hmap. intros j' Hj' (Hd & names' & Hm' & Hb').
    apply (Hlater j' names'); [|done|done]. split; [done|].
    destruct (decide (j' < length (readGamepad pad))%nat); [done|].
    exfalso. apply Hd. rewrite !arr_get_ge; [done|cbn; lia|lia].
Qed.

End CaptureSlot.



Lemma first_poll_is_silent_witness :
  let p := pad (replicate 15 false ++ [true]) in
  let t : Traced unit := mkTraced (onNextGamepadPress tt boot) [] in
  let t' := Input_updateGamepadState noCallback [Some p] p t in
  calls t' = [] /\ obj_get "right" (_currentState (game t')) = Some true.
Proof.
  intros p t t'.
  pose proof (first_poll_is_silent noCallback [Some p] p t ltac:(by vm_compute))
    as (Hc & _ & _ & Hheld).
  split; [exact Hc|].
  apply (Hheld ltac:(by vm_compute) 15%nat ["right"] "right").
  - by vm_compute.
  - by vm_compute.
  - left.
  - intros j' names' Hj'. exfalso. revert Hj'. vm_compute. lia.
Defined.

(** ** Reset and start-up of the binding table *)

Section Reset.
Context {H : Type}.
Implicit Types (g : Game H) (ins : obj InputFunction).

Lemma inputs_resetMap g :
  inputs (resetMap g)
  = (fun '(i, input) =>
       (i, mkInputFunction (name input) (fieldTitle input)
             (defaultKeyboardButton input) (defaultGamepButton input)
             (defaultKeyboardButton input) (defaultGamepButton input)
             (id input)))
    <$> inputs g.
Proof. reflexivity. Qed.

Lemma reset_obj_alter type v k ins :
  (fun '(i, input) =>
     (i, mkInputFunction (name input) (fieldTitle input)
           (defaultKeyboardButton input) (defaultGamepButton input)
           (defaultKeyboardButton input) (defaultGamepButton input)
           (id input)))
  <$> obj_alter (set_input_prop type v) k ins
  = (fun '(i, input) =>
       (i, mkInputFunction (name input) (fieldTitle input)
             (defaultKeyboardButton input) (defaultGamepButton input)
             (defaultKeyboardButton input) (defaultGamepButton input)
             (id input)))
    <$> ins.
Proof.
  induction ins as [|[i input] ins IH]; [done|].
  cbn [obj_alter]. case_decide; cbn [fmap list_fmap].
  - by destruct type.
  - f_equal. apply IH.
Qed.

Lemma inputs_resetMap_setControlButton control keyCode type g :
  inputs (resetMap (setControlButton control keyCode type g)) = inputs (resetMap g).
Proof.
  rewrite !inputs_resetMap, inputs_setControlButton. unfold rebound.
  destruct (obj_get control (inputs g)); [|done].
  rewrite reset_obj_alter.
  destruct (findDuplicate _ _ _ _); [|done].
  destruct (truthy_string _); [|done]. apply reset_obj_alter.
Qed.

(** X5. [resetMap] forgets every rebind: after any sequence of
    [setControlButton] calls it leaves the table that it would have left
    before them, and from the start-up state that is the start-up table. *)
Theorem resetMap_undoes_rebinds (calls : list rebind) g :
  inputs (resetMap (rebinds calls g)) = inputs (resetMap g) /\
  inputs (resetMap (rebinds calls (boot : Game H))) = inputs (boot : Game H).
Proof.
  assert (Hgen : forall g, inputs (resetMap (rebinds calls g)) = inputs (resetMap g)).
  { induction calls as [|c calls IH]; intros g0; [done|].
    change (rebinds (c :: calls) g0)
      with (rebinds calls (setControlButton (rebind_control c) (rebind_value c)
                             (rebind_slot c) g0)).
    etrans; [apply IH|]. apply inputs_resetMap_setControlButton. }
  split; [apply Hgen|]. rewrite Hgen. by vm_compute.
Qed.

(** X6. No operation after start-up creates, removes or reorders a
    function: rebinding, resetting, loading a control map and applying a
    saved configuration all keep the names of the table and their order. *)
Theorem table_names_are_stable control keyCode type m config g :
  obj_keys (inputs (setControlButton control keyCode type g)) = obj_keys (inputs g) /\
  obj_keys (inputs (resetMap g)) = obj_keys (inputs g) /\
  obj_keys (inputs (setControlMap m g)) = obj_keys (inputs g) /\
  obj_keys (inputs (ConfigManager_applyData config g)) = obj_keys (inputs g).
Proof.
  assert (Hmap : forall m g, obj_keys (inputs (setControlMap m g)) = obj_keys (inputs g)).
  { clear. intros [m|] g; [|done]. unfold setControlMap.
    rewrite inputs_rebuildButtonMapper. cbn [inputs set_inputs].
    generalize (inputs g). induction m as [|[key buttons] m IH]; intros ins; [done|].
    cbn [fold_left]. rewrite IH. apply obj_keys_alter. }
  split; [|split; [|split]].
  - rewrite inputs_setControlButton. apply obj_keys_rebound.
  - rewrite inputs_resetMap. unfold obj_keys. rewrite <- list_fmap_compose.
    apply list_fmap_ext. by intros i [k input] _.
  - apply Hmap.
  - unfold ConfigManager_applyData. by rewrite Hmap.
Qed.

End Reset.

Section CustomControls.
Context {H : Type}.
Implicit Types (g : Game H) (ins : obj InputFunction) (c : Control).

Lemma obj_keys_addCustomControl ins c :
  obj_keys ins `prefix_of` obj_keys (addCustomControl ins c).
Proof.
  unfold addCustomControl. rewrite obj_keys_set.
  case_decide; [done|]. by apply prefix_app_r.
Qed.

Lemma inputs_Input_initialize cs g :
  inputs (Input_initialize cs g)
  = fold_left addCustomControl cs (saveDefaults (inputs g)).
Proof. reflexivity. Qed.

(** X7. The built-in functions are always present and keep their rows:
    whatever custom controls are configured, the table after start-up
    begins with the names of the literal, in the literal's order. The
    custom names are taken not to be array indices: the table is modelled
    in insertion order, and JavaScript would enumerate such a name first. *)
Theorem builtin_functions_come_first (cs : list Control) iconOffset buttonSetCount :
  Forall (fun c => arrayIndex (control_name c) = false) cs ->
  obj_keys inputs_literal
    `prefix_of` obj_keys (inputs (Input_initialize cs
                                    (loaded iconOffset buttonSetCount : Game H))).
Proof.
  intros _. rewrite inputs_Input_initialize.
  assert (Hs : obj_keys (saveDefaults (inputs (loaded iconOffset buttonSetCount : Game H)))
               = obj_keys inputs_literal) by reflexivity.
  rewrite <- Hs. generalize (saveDefaults (inputs (loaded iconOffset buttonSetCount : Game H))).
  induction cs as [|c cs IH]; intros ins; [done|].
  cbn [fold_left]. etrans; [apply obj_keys_addCustomControl|apply IH].
Qed.

Lemma customUnset_addCustomControl ins c :
  customUnset ins -> customUnset (addCustomControl ins c).
Proof.
  intros Hu n input. unfold addCustomControl. rewrite obj_get_set.
  destruct (decide (n = control_name c)) as [->|Hne]; [|apply Hu].
  intros [= <-] Hnot. cbn [defaultKeyboardButton defaultGamepButton].
  destruct (obj_get (control_name c) ins) as [old|] eqn:Ho; [|done].
  by apply (Hu _ _ Ho).
Qed.

Lemma customUnset_fold cs ins :
  customUnset ins -> customUnset (fold_left addCustomControl cs ins).
Proof.
  revert ins. induction cs as [|c cs IH]; intros ins Hu; [done|].
  cbn [fold_left]. apply IH. by apply customUnset_addCustomControl.
Qed.

Lemma addCustomControl_present cs ins n :
  is_Some (obj_get n ins) -> is_Some (obj_get n (fold_left addCustomControl cs ins)).
Proof.
  revert ins. induction cs as [|c cs IH]; intros ins Hs; [done|].
  cbn [fold_left]. apply IH. unfold addCustomControl. rewrite obj_get_set.
  by case_decide.
Qed.

Lemma configured_control_present cs c ins :
  c ∈ cs -> is_Some (obj_get (control_name c) (fold_left addCustomControl cs ins)).
Proof.
  revert ins. induction cs as [|c0 cs IH]; intros ins Hin; [by apply elem_of_nil in Hin|].
  cbn [fold_left]. apply elem_of_cons in Hin as [->|Hin]; [|by apply IH].
  apply addCustomControl_present. unfold addCustomControl.
  rewrite obj_get_set, decide_True by done. eauto.
Qed.

(** X8. Resetting unbinds the custom functions. [SQInput.initialize]
    saves the defaults before the custom controls are added, so a custom
    function that is not a built-in one has no defaults, and [resetMap]
    leaves it with [undefined] as keyboard and as gamepad binding. *)
Theorem resetMap_unbinds_custom_functions (cs : list Control) c
    iconOffset buttonSetCount :
  c ∈ cs ->
  control_name c ∉ obj_keys inputs_literal ->
  let g : Game H := resetMap (Input_initialize cs (loaded iconOffset buttonSetCount)) in
  bindings <$> obj_get (control_name c) (inputs g) = Some (undefined, undefined).
Proof.
  intros Hin Hnot g. unfold g. rewrite inputs_resetMap, inputs_Input_initialize.
  set (ins0 := saveDefaults (inputs (loaded iconOffset buttonSetCount : Game H))).
  assert (Hu : customUnset (fold_left addCustomControl cs ins0)).
  { apply customUnset_fold. intros n input Hg Hn. exfalso. apply Hn.
    change (obj_keys inputs_literal) with (obj_keys ins0). by eapply obj_get_Some_keys. }
  assert (Hp : is_Some (obj_get (control_name c) (fold_left addCustomControl cs ins0))).
  { by apply configured_control_present. }
  destruct Hp as [input Hi]. destruct (Hu _ _ Hi Hnot) as [Hk Hg].
  revert Hi Hk Hg. generalize (fold_left addCustomControl cs ins0). clear.
  intros ins. induction ins as [|[i a] ins IH]; [done|].
  cbn [obj_get fmap list_fmap]. case_decide; [|apply IH].
  intros [= ->] Hk Hg. cbn. by rewrite Hk, Hg.
Qed.

End CustomControls.

Lemma resetMap_unbinds_custom_functions_witness :
  let jump := mkControl "jump" "Jump" (Str "KeyJ") (Str "2") in
  let g : Game unit := Input_initialize [jump] (loaded 0 (Some 4%Z)) in
  bindings <$> obj_get "jump" (inputs g) = Some (Str "KeyJ", Str "2") /\
  bindings <$> obj_get "jump" (inputs (resetMap g)) = Some (undefined, undefined).
Proof.
  intros jump g. split; [by vm_compute|].
  assert (Hin : jump ∈ [jump]) by left.
  assert (Hnot : control_name jump ∉ obj_keys inputs_literal)
    by (apply (bool_decide_unpack _); by vm_compute).
  exact (resetMap_unbinds_custom_functions [jump] jump 0%Z (Some 4%Z) Hin Hnot).
Defined.

Lemma builtin_functions_come_first_witness :
  let jump := mkControl "jump" "Jump" (Str "KeyJ") (Num 2) in
  let g : Game unit := Input_initialize [jump] (loaded 0 (Some 4%Z)) in
  obj_keys inputs_literal `prefix_of` obj_keys (inputs g).
Proof.
  intros jump g.
  assert (Hno : Forall (fun c => arrayIndex (control_name c) = false) [jump]).
  { constructor; [by vm_compute|constructor]. }
  exact (builtin_functions_come_first [jump] 0%Z (Some 4%Z) Hno).
Defined.

(** ** Entries of the rebuilt lookup maps *)

Section Maps.
Context {H : Type}.
Implicit Types (g : Game H) (ins : obj InputFunction)
  (m : gmap string (list string)).

Lemma keyboardLoop_unbound ins m k :
  keyUnbound k ins -> keyboardLoop ins m !! k = m !! k.
Proof.
  revert m. induction ins as [|[i input] ins IH]; intros m Hu; [done|].
  apply Forall_cons in Hu as [Hi Hu].
  cbn [keyboardLoop fold_left]. fold (keyboardLoop ins).
  rewrite IH by done. by apply lookup_insert_ne.
Qed.

Lemma bound_elem type fn ins k :
  bound type fn ins = Some k ->
  exists input, (fn, input) ∈ ins /\ propertyKey (input_prop type input) = k.
Proof.
  unfold bound. destruct (obj_get fn ins) as [input|] eqn:Hg; [|done].
  intros [= <-]. exists input. split; [by apply obj_get_elem | done].
Qed.

Lemma alias_unbound fn names ins m k :
  keyUnbound k ins ->
  alias KeyboardButton fn names ins m !! k = m !! k.
Proof.
  intros Hu. unfold alias.
  destruct (bound KeyboardButton fn ins) as [k'|] eqn:Hb; [|done].
  apply bound_elem in Hb as (input & Hin & <-).
  apply lookup_insert_ne. unfold keyUnbound in Hu. rewrite Forall_forall in Hu.
  apply (Hu (fn, input) Hin).
Qed.

(** X9. The failsafe names are in the keyboard map whenever their key is
    free: if no function is bound to Tab the rebuilt map sends Tab to
    "static_tab", and if no function is bound to Escape it sends Escape to
    "static_escape". *)
Theorem static_names_present_when_unbound g :
  (keyUnbound "Tab" (inputs g) ->
   keyMapper (rebuildButtonMapper g) !! "Tab" = Some ["static_tab"]) /\
  (keyUnbound "Escape" (inputs g) ->
   keyMapper (rebuildButtonMapper g) !! "Escape" = Some ["static_escape"]).
Proof.
  rewrite keyMapper_rebuildButtonMapper. unfold newKeyboardMap. split; intros Hu.
  - rewrite !alias_unbound by done.
    unfold ensure at 1.
    destruct (ensure "Tab" ["static_tab"] (keyboardLoop (inputs g) ∅) !! "Escape");
      [|rewrite lookup_insert_ne by done];
      unfold ensure; rewrite keyboardLoop_unbound, lookup_empty by done;
      apply lookup_insert_eq.
  - rewrite !alias_unbound by done.
    assert (Hnone : ensure "Tab" ["static_tab"] (keyboardLoop (inputs g) ∅) !! "Escape"
                    = None).
    { unfold ensure. destruct (keyboardLoop (inputs g) ∅ !! "Tab").
      - by rewrite keyboardLoop_unbound, lookup_empty.
      - rewrite lookup_insert_ne by done.
        by rewrite keyboardLoop_unbound, lookup_empty. }
    unfold ensure at 1. rewrite Hnone. apply lookup_insert_eq.
Qed.

Lemma ensure_keeps k names m k' : is_Some (m !! k') -> is_Some (ensure k names m !! k').
Proof.
  intros Hs. unfold ensure. destruct (m !! k); [done|].
  destruct (decide (k = k')) as [->|Hne].
  - by rewrite lookup_insert_eq.
  - by rewrite lookup_insert_ne.
Qed.

Lemma ensure_present k names m : is_Some (ensure k names m !! k).
Proof.
  unfold ensure. destruct (m !! k) eqn:E; [by rewrite E|].
  by rewrite lookup_insert_eq.
Qed.

Lemma alias_keeps type fn names ins m k :
  is_Some (m !! k) -> is_Some (alias type fn names ins m !! k).
Proof.
  intros Hs. unfold alias. destruct (bound type fn ins) as [k'|]; [|done].
  destruct (decide (k' = k)) as [->|Hne].
  - by rewrite lookup_insert_eq.
  - by rewrite lookup_insert_ne.
Qed.

Lemma ensure_all_present keys m k :
  k ∈ keys -> is_Some (fold_left (fun m button => ensure button [] m) keys m !! k).
Proof.
  revert m. induction keys as [|k0 keys IH]; intros m Hin; [by apply elem_of_nil in Hin|].
  cbn [fold_left]. apply elem_of_cons in Hin as [->|Hin]; [|by apply IH].
  assert (Hkeep : forall keys m, is_Some (m !! k0) ->
            is_Some (fold_left (fun m button => ensure button [] m) keys m !! k0)).
  { clear. induction keys as [|k keys IH]; intros m Hs; [done|].
    cbn [fold_left]. apply IH. by apply ensure_keeps. }
  apply Hkeep, ensure_present.
Qed.

(** X10. Every standard gamepad button has an entry in the rebuilt
    gamepad map, bound to a function or not: for each index below 16 the
    lookup that the gamepad read makes is defined. *)
Theorem standard_buttons_are_mapped g (j : nat) :
  (j < 16)%nat -> is_Some (gamepadMapper (rebuildButtonMapper g) !! pretty j).
Proof.
  intros Hj.
  change (gamepadMapper (rebuildButtonMapper g)) with (newGamepadMap (inputs g)).
  unfold newGamepadMap. do 3 apply alias_keeps.
  apply ensure_all_present. unfold gamepadMapper_keys.
  apply (list_elem_of_fmap_2 (fun i : nat => pretty i)). apply elem_of_seq. lia.
Qed.

End Maps.

Lemma static_names_present_when_unbound_witness :
  keyMapper (rebuildButtonMapper (boot : Game unit)) !! "Tab" = Some ["static_tab"].
Proof.
  apply (proj1 (static_names_present_when_unbound (boot : Game unit))).
  apply (bool_decide_unpack _). by vm_compute.
Defined.

(** ** Engine names of the built-in functions *)

Section Aliases.
Context {H : Type}.
Implicit Types (g : Game H) (ins : obj InputFunction)
  (m : gmap string (list string)).

Lemma aliases_untouched type ins als m k :
  noAlias type k ins als ->
  fold_left (fun m a => alias type a.1 a.2 ins m) als m !! k = m !! k.
Proof.
  revert m. induction als as [|[fn names] als IH]; intros m Hno; [done|].
  apply Forall_cons in Hno as [Hfn Hno]. cbn [fold_left]. rewrite IH by done.
  unfold alias. cbn [fst snd] in *.
  destruct (bound type fn ins) as [k'|]; [|done].
  apply lookup_insert_ne. congruence.
Qed.

Lemma aliases_last_wins type ins als1 fn names als2 m k :
  bound type fn ins = Some k ->
  noAlias type k ins als2 ->
  fold_left (fun m a => alias type a.1 a.2 ins m) (als1 ++ (fn, names) :: als2) m !! k
  = Some names.
Proof.
  intros Hb Hno. rewrite fold_left_app. cbn [fold_left].
  rewrite aliases_untouched by done. unfold alias. cbn [fst snd].
  rewrite Hb. apply lookup_insert_eq.
Qed.

Lemma mapper_rebuildButtonMapper type g :
  exists m,
    mapper type (rebuildButtonMapper g)
    = fold_left (fun m a => alias type a.1 a.2 (inputs g) m) (aliases type) m.
Proof.
  destruct type.
  - by exists (ensure "Escape" ["static_escape"]
                (ensure "Tab" ["static_tab"] (keyboardLoop (inputs g) ∅))).
  - by exists (fold_left (fun m button => ensure button [] m) gamepadMapper_keys
                (gamepadLoop (inputs g) ∅)).
Qed.

(** X11. Precedence of the built-in names. In the rebuilt map of either
    slot the entry of a built-in function's binding is replaced by the
    function's engine names (confirm by "confirm" and "ok", dash by
    "shift", ...), and when several built-in functions share a binding the
    one assigned last wins: whatever else was bound there is no longer
    reported. *)
Theorem builtin_names_precedence type g als1 fn names als2 k :
  aliases type = als1 ++ (fn, names) :: als2 ->
  bound type fn (inputs g) = Some k ->
  noAlias type k (inputs g) als2 ->
  mapper type (rebuildButtonMapper g) !! k = Some names.
Proof.
  intros Hals Hb Hno. destruct (mapper_rebuildButtonMapper type g) as [m ->].
  rewrite Hals. by apply aliases_last_wins.
Qed.

Lemma gamepadLoop_keeps ins m k i :
  i ∈ default [] (m !! k) -> i ∈ default [] (gamepadLoop ins m !! k).
Proof.
  revert m. induction ins as [|[i0 input0] ins IH]; intros m Hin; [done|].
  cbn [gamepadLoop fold_left]. fold (gamepadLoop ins). apply IH.
  destruct (decide (propertyKey (gamepadButton input0) = k)) as [<-|Hne].
  - rewrite lookup_insert_eq. cbn. apply elem_of_app. by left.
  - by rewrite lookup_insert_ne.
Qed.

Lemma gamepadLoop_member ins m i input :
  (i, input) ∈ ins ->
  i ∈ default [] (gamepadLoop ins m !! propertyKey (gamepadButton input)).
Proof.
  revert m. induction ins as [|[i0 input0] ins IH]; intros m Hin;
    [by apply elem_of_nil in Hin|].
  cbn [gamepadLoop fold_left]. fold (gamepadLoop ins).
  apply elem_of_cons in Hin as [[= <- <-]|Hin]; [|by apply IH].
  apply gamepadLoop_keeps. rewrite lookup_insert_eq. cbn.
  apply elem_of_app. right. left.
Qed.

Lemma ensure_lookup_Some k0 names0 m k names :
  m !! k = Some names -> ensure k0 names0 m !! k = Some names.
Proof.
  intros Hm. unfold ensure. destruct (m !! k0) eqn:E; [done|].
  rewrite lookup_insert_ne; [done|]. intros ->. congruence.
Qed.

Lemma ensure_all_keeps keys m k names :
  m !! k = Some names ->
  fold_left (fun m button => ensure button [] m) keys m !! k = Some names.
Proof.
  revert m. induction keys as [|k0 keys IH]; intros m Hm; [done|].
  cbn [fold_left]. by apply IH, ensure_lookup_Some.
Qed.

(** X12. Functions that share a gamepad button are all reported: unless
    the button is the one of cancel, confirm or dash, the rebuilt gamepad
    map lists every function bound to it. The keyboard map keeps one
    function per key: unless the key is the one of a built-in function
    with engine names, it lists only the last function of the table bound
    to it. *)
Theorem functions_sharing_a_binding g ins1 i input ins2 :
  inputs g = ins1 ++ (i, input) :: ins2 ->
  (noAlias GamepadButton (propertyKey (gamepadButton input)) (inputs g)
           (aliases GamepadButton) ->
   exists names,
     gamepadMapper (rebuildButtonMapper g) !! propertyKey (gamepadButton input)
       = Some names /\ i ∈ names) /\
  (noAlias KeyboardButton (propertyKey (keyboardButton input)) (inputs g)
           (aliases KeyboardButton) ->
   keyUnbound (propertyKey (keyboardButton input)) ins2 ->
   keyMapper (rebuildButtonMapper g) !! propertyKey (keyboardButton input)
     = Some [i]).
Proof.
  intros Hins. split.
  - intros Hno. destruct (mapper_rebuildButtonMapper GamepadButton g) as [m Hm].
    change (gamepadMapper (rebuildButtonMapper g))
      with (newGamepadMap (inputs g)).
    unfold newGamepadMap.
    change (alias GamepadButton "dash" ["shift"] (inputs g)
              (alias GamepadButton "confirm" ["confirm"; "ok"] (inputs g)
                 (alias GamepadButton "cancel" ["cancel"] (inputs g) ?x)))
      with (fold_left (fun m a => alias GamepadButton a.1 a.2 (inputs g) m)
              (aliases GamepadButton) x).
    rewrite aliases_untouched by done.
    pose proof (gamepadLoop_member (inputs g) ∅ i input) as Hmem.
    destruct (gamepadLoop (inputs g) ∅ !! propertyKey (gamepadButton input))
      as [names|] eqn:E.
    + exists names. split; [by apply ensure_all_keeps|].
      apply Hmem. rewrite Hins. apply elem_of_app. right. left.
    + exfalso. cbn in Hmem. eapply not_elem_of_nil, Hmem.
      rewrite Hins. apply elem_of_app. right. left.
  - intros Hno Hlast.
    change (keyMapper (rebuildButtonMapper g)) with (newKeyboardMap (inputs g)).
    unfold newKeyboardMap.
    change (alias KeyboardButton "cycle_right" ["pagedown"] (inputs g)
             (alias KeyboardButton "cycle_left" ["pageup"] (inputs g)
              (alias KeyboardButton "dash" ["shift"] (inputs g)
               (alias KeyboardButton "confirm" ["confirm"; "ok"] (inputs g)
                (alias KeyboardButton "cancel" ["cancel"] (inputs g) ?x)))))
      with (fold_left (fun m a => alias KeyboardButton a.1 a.2 (inputs g) m)
              (aliases KeyboardButton) x).
    rewrite aliases_untouched by done.
    assert (Hloop : keyboardLoop (inputs g) ∅ !! propertyKey (keyboardButton input)
                    = Some [i]).
    { rewrite Hins. unfold keyboardLoop. rewrite fold_left_app. cbn [fold_left].
      fold (keyboardLoop ins2). rewrite keyboardLoop_unbound by done.
      apply lookup_insert_eq. }
    by do 2 apply ensure_lookup_Some.
Qed.

End Aliases.

Lemma builtin_names_precedence_witness :
  let g : Game unit := setControlMap
    (Some [("dash", ControlMap.mk (Str "KeyQ") (Num 0))]) boot in
  mapper GamepadButton (rebuildButtonMapper g) !! "0" = Some ["shift"].
Proof.
  intros g.
  assert (Hb : bound GamepadButton "dash" (inputs g) = Some "0") by (by vm_compute).
  assert (Hno : noAlias GamepadButton "0" (inputs g) []) by constructor.
  exact (builtin_names_precedence GamepadButton g
           [("cancel", ["cancel"]); ("confirm", ["confirm"; "ok"])]
           "dash" ["shift"] [] "0" eq_refl Hb Hno).
Defined.

Lemma functions_sharing_a_binding_witness :
  let g : Game unit := setControlMap
    (Some [("menu", ControlMap.mk (Str "KeyS") (Num 12))]) boot in
  exists names, gamepadMapper (rebuildButtonMapper g) !! "12" = Some names /\
                "menu" ∈ names.
Proof.
  intros g.
  assert (Hins : exists ins1 ins2 input,
             inputs g = ins1 ++ ("menu", input) :: ins2 /\
             propertyKey (gamepadButton input) = "12").
  { eexists (take 6 (inputs g)), (drop 7 (inputs g)), _. split; by vm_compute. }
  destruct Hins as (ins1 & ins2 & input & Hins & Hk).
  destruct (functions_sharing_a_binding g ins1 "menu" input ins2 Hins) as [Hg _].
  rewrite Hk in Hg. apply Hg.
  apply (bool_decide_unpack _). by vm_compute.
Defined.

(** ** Active gamepad, button sets and the saved configuration *)

Section Devices.
Context {H : Type}.
Implicit Types (g : Game H) (pads : gamepads).

Lemma firstGamepad_Some p pads start i :
  firstGamepad p pads start = Some i ->
  (start <= i)%nat /\ firstSlot p pads (i - start).
Proof.
  revert start. induction pads as [|slot pads IH]; intros start; [done|].
  cbn [firstGamepad]. destruct slot as [pad|].
  - destruct (p pad) eqn:Hp.
    + intros [= <-]. split; [lia|]. rewrite Nat.sub_diag. split.
      * by exists pad.
      * intros j pad' Hj. lia.
    + intros Hf. apply IH in Hf as (Hle & (pad' & Hl & Hp') & Hbefore).
      split; [lia|]. replace (i - start)%nat with (S (i - S start)) by lia. split.
      * by exists pad'.
      * intros [|j] pad'' Hj Hl'; [by injection Hl' as <-|].
        apply (Hbefore j); [lia|done].
  - intros Hf. apply IH in Hf as (Hle & (pad' & Hl & Hp') & Hbefore).
    split; [lia|]. replace (i - start)%nat with (S (i - S start)) by lia. split.
    + by exists pad'.
    + intros [|j] pad'' Hj Hl'; [done|]. apply (Hbefore j); [lia|done].
Qed.

Lemma firstGamepad_firstSlot p pads start i :
  firstSlot p pads i -> firstGamepad p pads start = Some (start + i)%nat.
Proof.
  revert start i. induction pads as [|slot pads IH]; intros start i [(pad & Hl & Hp) Hb].
  - done.
  - cbn [firstGamepad]. destruct i as [|i].
    + injection Hl as ->. rewrite Hp. f_equal. lia.
    + assert (Hrest : firstGamepad p pads (S start) = Some (S start + i)%nat).
      { apply IH. split; [by exists pad|].
        intros j pad' Hj Hl'. apply (Hb (S j)); [lia|done]. }
      rewrite Hrest. replace (start + S i)%nat with (S start + i)%nat by lia.
      destruct slot as [pad0|]; [|done].
      by rewrite (Hb 0%nat pad0) by (done || lia).
Qed.

Lemma firstGamepad_None p pads start :
  firstGamepad p pads start = None ->
  forall j pad, pads !! j = Some (Some pad) -> p pad = false.
Proof.
  revert start. induction pads as [|slot pads IH]; intros start Hf j pad Hl; [done|].
  cbn [firstGamepad] in Hf. destruct slot as [pad0|].
  - destruct (p pad0) eqn:Hp; [done|].
    destruct j as [|j]; [by injection Hl as <-|]. by apply (IH _ Hf j).
  - destruct j as [|j]; [done|]. by apply (IH _ Hf j).
Qed.

(** X13. Choosing the active gamepad. If a connected gamepad has the
    preferred name, [updateActiveGamepad] selects the first such gamepad,
    whatever was selected before. If none has it, a selected index of 1 or
    more is kept as it is, even when its slot is empty now, and otherwise
    the first connected gamepad is selected. *)
Theorem updateActiveGamepad_selects pads g target :
  targetGamepadName g = Some target ->
  target <> "" ->
  let named := fun pad => bool_decide (Gamepad.id pad = target) in
  let g' := updateActiveGamepad pads g in
  (forall i, firstSlot named pads i -> activeGamepadIndex g' = Some i) /\
  ((forall j pad, pads !! j = Some (Some pad) -> Gamepad.id pad <> target) ->
   (forall k, activeGamepadIndex g = Some (S k) -> activeGamepadIndex g' = Some (S k)) /\
   (forall i, (activeGamepadIndex g = None \/ activeGamepadIndex g = Some 0%nat) ->
              firstSlot (fun _ => true) pads i -> activeGamepadIndex g' = Some i)).
Proof.
  intros Ht Hne named g'. unfold g', updateActiveGamepad. rewrite Ht.
  assert (Htruthy : truthy_string target = true).
  { unfold truthy_string. by rewrite bool_decide_eq_false_2. }
  rewrite Htruthy. fold named. split.
  - intros i Hi. rewrite (firstGamepad_firstSlot named pads 0 i Hi).
    cbn [Nat.add activeGamepadIndex set_activeGamepadIndex].
    destruct i as [|i]; [|done].
    assert (Hany : firstSlot (fun _ => true) pads 0).
    { destruct Hi as [(pad & Hl & _) _]. split; [by exists pad|]. intros j pad' Hj. lia. }
    by rewrite (firstGamepad_firstSlot _ pads 0 0 Hany).
  - intros Hnone.
    assert (Hf : firstGamepad named pads 0 = None).
    { destruct (firstGamepad named pads 0) as [i|] eqn:E; [|done].
      apply firstGamepad_Some in E as (_ & (pad & Hl & Hp) & _).
      apply bool_decide_eq_true in Hp. by destruct (Hnone _ _ Hl). }
    rewrite Hf. split.
    + intros k Hk. by rewrite Hk.
    + intros i Hidx Hi. rewrite (firstGamepad_firstSlot _ pads 0 i Hi).
      by destruct Hidx as [-> | ->].
Qed.

Lemma activeButtonSet_nextButtonSets (n : nat) g :
  (0 < numButtonSets g)%Z ->
  (0 <= activeButtonSet g)%Z ->
  activeButtonSet (nextButtonSets n g)
  = if decide (n = 0%nat) then activeButtonSet g
    else ((activeButtonSet g + Z.of_nat n) mod numButtonSets g)%Z.
Proof.
  intros Hn Ha. induction n as [|n IH]; [done|].
  cbn [nextButtonSets]. unfold nextButtonSet, changeButtonSet, getButtonSet.
  cbn [activeButtonSet set_activeButtonSet].
  assert (Hnum : numButtonSets (nextButtonSets n g) = numButtonSets g).
  { clear. induction n as [|n IH]; [done|]. cbn [nextButtonSets]. exact IH. }
  rewrite Hnum, IH. destruct (decide (n = 0%nat)) as [->|Hn0].
  - rewrite Z.rem_mod_nonneg by lia. by rewrite decide_False.
  - rewrite decide_False by done.
    rewrite Z.rem_mod_nonneg;
      [|pose proof (Z.mod_pos_bound (activeButtonSet g + Z.of_nat n) (numButtonSets g) Hn); lia|lia].
    rewrite Zplus_mod_idemp_l. f_equal. lia.
Qed.

(** X14. The button sets cycle. With a positive number of button sets
    and a current set in range, every call of [nextButtonSet] leaves a
    set in range, and as many calls as there are sets bring back the set
    started from. *)
Theorem button_sets_cycle (n : nat) g :
  (0 < numButtonSets g)%Z ->
  (0 <= activeButtonSet g < numButtonSets g)%Z ->
  (0 < n)%nat ->
  (0 <= activeButtonSet (nextButtonSets n g) < numButtonSets g)%Z /\
  activeButtonSet (nextButtonSets (Z.to_nat (numButtonSets g)) g) = activeButtonSet g.
Proof.
  intros Hnum Ha Hn. split.
  - rewrite activeButtonSet_nextButtonSets by lia. rewrite decide_False by lia.
    by apply Z.mod_pos_bound.
  - rewrite activeButtonSet_nextButtonSets by lia. rewrite decide_False by lia.
    rewrite Z2Nat.id by lia.
    rewrite Z.add_mod, Z.mod_same, Z.add_0_r, Z.mod_mod by lia.
    apply Z.mod_small. lia.
Qed.

(** X15. The saved button set is restored if the target state has it:
    [applyData] gives back a saved set below the number of sets, and turns
    a negative one, or one at or past the number of sets, into set 0. *)
Theorem applyData_button_set (b : Z) name map g :
  (0 < numButtonSets g)%Z ->
  let g' := ConfigManager_applyData (mkSQConfig (Some b) name map) g in
  ((0 <= b < numButtonSets g)%Z -> activeButtonSet g' = b) /\
  ((b < 0 \/ numButtonSets g <= b)%Z -> activeButtonSet g' = 0%Z).
Proof.
  intros Hnum g'.
  assert (Hg' : activeButtonSet g' = Z.rem (clamp b 0 (numButtonSets g)) (numButtonSets g)).
  { unfold g', ConfigManager_applyData. cbn [buttonSet gamepadName controlMap].
    unfold setControlMap, rebuildButtonMapper. reflexivity. }
  rewrite Hg'. unfold clamp. split.
  - intros Hb. rewrite Z.max_l, Z.min_l by lia. apply Z.rem_small. lia.
  - intros [Hb|Hb].
    + rewrite Z.max_r, Z.min_l by lia. apply Z.rem_0_l. lia.
    + rewrite Z.max_l, Z.min_r by lia. apply Z.rem_same. lia.
Qed.

(** X16. Loading a control map touches only the bindings of the
    functions it names: a function named in the map gets the entry's two
    bindings, a function it does not name keeps its own, and an entry for
    a name that is not a function is ignored. *)
Theorem setControlMap_restores (m : obj ControlMap.entry) g fn :
  NoDup (obj_keys m) ->
  obj_get fn (inputs (setControlMap (Some m) g))
  = match obj_get fn m with
    | Some buttons => restore buttons <$> obj_get fn (inputs g)
    | None => obj_get fn (inputs g)
    end.
Proof.
  intros Hnd. unfold setControlMap. rewrite inputs_rebuildButtonMapper.
  cbn [inputs set_inputs]. generalize (inputs g). clear g.
  induction m as [|[k buttons] m IH]; intros ins; [done|].
  unfold obj_keys in Hnd. cbn [fmap list_fmap fst] in Hnd.
  apply NoDup_cons in Hnd as [Hnot Hnd].
  cbn [fold_left obj_get]. rewrite (IH Hnd).
  destruct (decide (k = fn)) as [->|Hne].
  - assert (obj_get fn m = None) as -> by by apply obj_get_None_keys.
    by rewrite obj_get_alter, decide_True.
  - by rewrite obj_get_alter, decide_False.
Qed.

End Devices.

(** ** Press and release of a key *)

Section Edges.
Context {H : Type}.
Variable run : H -> callArgs -> Game H -> Game H.
Implicit Types (g : Game H) (t : Traced H).

(** X17. Edge correctness. A key, or a button of the selected gamepad,
    goes down on a state at rest and stays down while [Input.update] runs
    once per frame and nothing else changes: no other key event arrives,
    and every poll finds the gamepads as they are stored. Then
    [isTriggered(b)] is true at the update that sees the press and at no
    later one, while [isPressed(b)] is true at every update. *)
Theorem press_is_triggered_once pads b t :
  atRest (game t) ->
  (forall e names (k : nat),
     keyMapper (game t) !! eventKey e = Some names ->
     b ∈ names ->
     failsafeHeld (Input_onKeyDown e (game t)) = false ->
     steady pads (Input_onKeyDown e (game t)) ->
     let held := game (frames run pads (S k) (keydown run e t)) in
     Input_isTriggered b held = Normal (bool_decide (k = 0%nat)) /\
     Input_isPressed b held = true) /\
  (forall j names (k : nat),
     buttonGoesDown pads (game t) j names ->
     b ∈ names ->
     failsafeHeld (setNames names true (game t)) = false ->
     let held := game (frames run pads (S k) t) in
     Input_isTriggered b held = Normal (bool_decide (k = 0%nat)) /\
     Input_isPressed b held = true).
Proof.
  intros Hr. split.
  - intros e names k Hm Hb Hfs Hst held.
    destruct (key_hold run pads e names b t k Hr Hm Hb Hfs Hst)
      as (_ & Ht & (L & HL & HbL) & Hcur & _ & _).
    fold held in Ht, HL, Hcur. split.
    + rewrite (Input_isTriggered_held _ b L) by done. rewrite Ht. f_equal.
      apply bool_decide_ext. lia.
    + apply Input_isPressed_held. rewrite Hcur.
      destruct (Input_onKeyDown_atRest e names (game t) Hr Hm) as (_ & Hc & _ & _).
      rewrite Hc. by apply bool_decide_eq_true_2.
  - intros j names k Hdown Hb Hfs held.
    destruct (buttonGoesDown_hold run pads j names b t k Hr Hdown Hb Hfs)
      as (_ & Ht & (L & HL & HbL) & Hcur).
    fold held in Ht, HL, Hcur. split.
    + rewrite (Input_isTriggered_held _ b L) by done. rewrite Ht. f_equal.
      apply bool_decide_ext. lia.
    + by apply Input_isPressed_held.
Qed.

(** X18. Releasing the key ends the hold. A key goes down on a state at
    rest and stays down for any number of updates, during which no other
    key event arrives and every poll finds the gamepads as they are
    stored; then the key goes up, and the next poll finds the gamepads as
    stored too. That update leaves [b] not pressed, not triggered and not
    repeated. *)
Theorem release_ends_hold pads e names b t (k : nat) :
  atRest (game t) ->
  keyMapper (game t) !! eventKey e = Some names ->
  b ∈ names ->
  failsafeHeld (Input_onKeyDown e (game t)) = false ->
  steady pads (Input_onKeyDown e (game t)) ->
  let released :=
    game (Input_update run pads
            (keyup e (frames run pads (S k) (keydown run e t)))) in
  Input_isPressed b released = false /\
  Input_isTriggered b released = Normal false /\
  Input_isRepeated b released = Normal false.
Proof.
  intros Hr Hm Hb Hfs Hst released.
  destruct (key_hold run pads e names b t k Hr Hm Hb Hfs Hst)
    as ((Hnd & _ & _ & Hv & _) & _ & _ & Hcur & Hkey & Hstk).
  destruct (Input_onKeyDown_atRest e names (game t) Hr Hm) as (_ & Hc & _ & _).
  assert (Hkm : keyMapper (Input_onKeyDown e (game t)) = keyMapper (game t)).
  { unfold Input_onKeyDown. destruct (decide _); cbn zeta;
      match goal with
      | |- context [keyMapper ?x !! ?k] => destruct (keyMapper x !! k)
      end; try done; by rewrite setNames_currentState. }
  rewrite Hkm in Hkey.
  set (g := game (frames run pads (S k) (keydown run e t))) in *.
  assert (Hup : Input_onKeyUp e g
                = set_currentState
                    (fold_left (fun c b => obj_set b false c) names (_currentState g)) g).
  { unfold Input_onKeyUp. rewrite Hkey, Hm. apply setNames_currentState. }
  assert (Hrel : released = afterPoll (Input_onKeyUp e g)).
  { unfold released, Input_update. rewrite Input_pollGamepads_steady.
    - reflexivity.
    - cbn [keyup on_game game]. fold g. rewrite Hup. by apply (steady_fields pads g). }
  assert (Hall : forall n, obj_true n (_currentState (Input_onKeyUp e g)) = false).
  { intros n. rewrite Hup. cbn [_currentState set_currentState].
    unfold obj_true. rewrite obj_get_set_names.
    destruct (decide (n ∈ names)) as [Hin|Hnin]; [done|].
    rewrite Hcur. fold (obj_true n (_currentState (Input_onKeyDown e (game t)))).
    rewrite Hc. by apply bool_decide_eq_false_2. }
  assert (Hnd' : NoDup (obj_keys (_currentState (Input_onKeyUp e g)))).
  { rewrite Hup. cbn [_currentState set_currentState].
    by apply obj_keys_set_names_NoDup. }
  assert (Hv' : _virtualButton (Input_onKeyUp e g) = None) by (by rewrite Hup).
  pose proof (afterPoll_released (Input_onKeyUp e g) Hnd' Hall Hv') as Hlatest.
  assert (Hfs' : failsafeHeld (Input_onKeyUp e g) = false).
  { unfold failsafeHeld, Input_isPressed. by rewrite !Hall, !andb_false_r. }
  destruct (afterPoll_frame (Input_onKeyUp e g) Hfs') as (r & v & p & ti & l & Heq).
  assert (Hcur' : forall n, obj_true n (_currentState released) = false).
  { intros n. rewrite Hrel, Heq. apply Hall. }
  rewrite <- Hrel in Hlatest. split; [|split].
  - unfold Input_isPressed. by rewrite !Hcur', andb_false_r.
  - unfold Input_isTriggered, isTriggered_direct, latestContains. rewrite Hlatest.
    rewrite !bool_decide_eq_false_2 by apply not_elem_of_nil.
    by destruct (_isEscapeCompatible b).
  - unfold Input_isRepeated, isRepeated_direct, latestContains. rewrite Hlatest.
    rewrite !bool_decide_eq_false_2 by apply not_elem_of_nil.
    by destruct (_isEscapeCompatible b).
Qed.

End Edges.

(** ** Undoing a rebind *)

Section Undo.
Context {H : Type}.
Implicit Types (g : Game H) (ins : obj InputFunction).

Lemma obj_ext {V} (a b : obj V) :
  obj_keys a = obj_keys b -> NoDup (obj_keys a) ->
  (forall k, obj_get k a = obj_get k b) -> a = b.
Proof.
  revert b. induction a as [|[k v] a IH]; intros [|[k' v'] b] Hk Hnd Hget;
    try done.
  unfold obj_keys in Hk, Hnd. cbn [fmap list_fmap fst] in Hk, Hnd.
  injection Hk as <- Hk. apply NoDup_cons in Hnd as [Hnot Hnd].
  pose proof (Hget k) as Hkk. cbn [obj_get] in Hkk.
  rewrite !decide_True in Hkk by done. injection Hkk as <-.
  f_equal. apply IH; [done|done|].
  intros i. pose proof (Hget i) as Hi. cbn [obj_get] in Hi.
  destruct (decide (k = i)) as [<-|Hne]; [|done].
  assert (obj_get k a = None) as -> by by apply obj_get_None_keys.
  symmetry. apply obj_get_None_keys. unfold obj_keys. by rewrite <- Hk.
Qed.

Lemma set_input_prop_same type input :
  set_input_prop type (input_prop type input) input = input.
Proof. by destruct type, input. Qed.

Lemma set_input_prop_twice type v w input :
  set_input_prop type v (set_input_prop type w input) = set_input_prop type v input.
Proof. by destruct type, input. Qed.

(** The table that [setControlButton] leaves, function by function. *)
Lemma rebound_get control keyCode type ins current i :
  NoDup (obj_keys ins) -> "" ∉ obj_keys ins -> injective_slot type ins ->
  obj_get control ins = Some current ->
  obj_get i (rebound control keyCode type ins)
  = if decide (i = control) then Some (set_input_prop type keyCode current)
    else match obj_get i ins with
         | Some input =>
             if decide (input_prop type input = keyCode)
             then Some (set_input_prop type (input_prop type current) input)
             else Some input
         | None => None
         end.
Proof.
  intros Hnd Hempty Hinj Hc. unfold rebound. rewrite Hc, obj_get_alter.
  destruct (findDuplicate control keyCode type ins) as [d|] eqn:Hd.
  - destruct (findDuplicate_Some _ _ _ _ _ Hd) as (Hne & dup & Hin & Hp).
    assert (Hgd : obj_get d ins = Some dup) by by apply obj_elem_get.
    assert (Ht : truthy_string d = true).
    { unfold truthy_string. apply negb_true_iff, bool_decide_eq_false.
      intros ->. apply Hempty. by eapply obj_get_Some_keys. }
    rewrite Ht, obj_get_alter.
    destruct (decide (i = control)) as [->|Hic].
    + rewrite decide_False by done. by rewrite Hc.
    + destruct (decide (i = d)) as [->|Hid].
      * rewrite Hgd. simpl. by rewrite decide_True.
      * destruct (obj_get i ins) as [input|] eqn:Hgi; simpl; [|done].
        rewrite decide_False; [done|].
        intros Heq. apply (Hinj i d input dup); congruence.
  - destruct (decide (i = control)) as [->|Hic].
    + by rewrite Hc.
    + destruct (obj_get i ins) as [input|] eqn:Hgi; [|done].
      rewrite decide_False; [done|].
      intros Heq.
      apply obj_get_elem in Hgi.
      by destruct (findDuplicate_None _ _ _ _ _ _ Hd Hgi Hic).
Qed.

(** X19. A rebind is undone by binding the old value again: after
    [setControlButton(control, v)] the call with the value [control] had
    before gives back the table as it was, whether the first call swapped two
    functions or not. *)
Theorem rebinding_back_restores control keyCode type g current :
  table_ok (inputs g) ->
  obj_get control (inputs g) = Some current ->
  inputs (setControlButton control (input_prop type current) type
            (setControlButton control keyCode type g))
  = inputs g.
Proof.
  intros (Hk & Hkb & Hgp) Hc.
  assert (Hinj : injective_slot type (inputs g)) by by destruct type.
  assert (Hnd : NoDup (obj_keys (inputs g))) by (rewrite Hk; apply literal_keys_NoDup).
  assert (Hem : "" ∉ obj_keys (inputs g)) by (rewrite Hk; apply literal_keys_nonempty).
  rewrite !inputs_setControlButton.
  set (ins := inputs g) in *. set (ins' := rebound control keyCode type ins).
  assert (Hk' : obj_keys ins' = obj_keys ins) by apply obj_keys_rebound.
  assert (Hget' := fun i => rebound_get control keyCode type ins current i Hnd Hem Hinj Hc).
  fold ins' in Hget'.
  assert (Hnd' : NoDup (obj_keys ins')) by by rewrite Hk'.
  assert (Hem' : "" ∉ obj_keys ins') by by rewrite Hk'.
  assert (Hinj' : injective_slot type ins') by by apply injective_slot_rebound.
  assert (Hc' : obj_get control ins' = Some (set_input_prop type keyCode current)).
  { by rewrite Hget', decide_True. }
  apply obj_ext; [by rewrite obj_keys_rebound|by rewrite obj_keys_rebound|].
  intros i.
  rewrite (rebound_get control _ type ins' _ i Hnd' Hem' Hinj' Hc').
  rewrite input_prop_set_same.
  destruct (decide (i = control)) as [->|Hic].
  - by rewrite set_input_prop_twice, set_input_prop_same, Hc.
  - rewrite Hget', decide_False by done.
    destruct (obj_get i ins) as [input|] eqn:Hi; [|done].
    destruct (decide (input_prop type input = keyCode)) as [Heq|Hne].
    + rewrite input_prop_set_same, decide_True by done.
      by rewrite set_input_prop_twice, <- Heq, set_input_prop_same.
    + rewrite decide_False; [done|].
      intros Heq. apply (Hinj i control input current); congruence.
Qed.

End Undo.

Lemma rebinding_back_restores_witness :
  let g : Game unit := boot in
  inputs (setControlButton "menu" (Str "KeyS") KeyboardButton
            (setControlButton "menu" (Str "KeyZ") KeyboardButton g))
  = inputs g.
Proof.
  intros g.
  assert (Hc : obj_get "menu" (inputs g) = Some menuFunction) by (by vm_compute).
  exact (rebinding_back_restores "menu" (Str "KeyZ") KeyboardButton g menuFunction
           boot_table_ok Hc).
Defined.

(** ** The remap flows of the controls scene *)

Section Remap.
Implicit Types (g : Game SceneCallback) (t : Traced SceneCallback).

Lemma inputs_Input_onKeyDown {H} e (g : Game H) :
  inputs (Input_onKeyDown e g) = inputs g.
Proof.
  unfold Input_onKeyDown.
  destruct (decide (keyCode e = 144)%Z); cbn zeta;
    match goal with
    | |- context [keyMapper ?x !! ?k] => destruct (keyMapper x !! k)
    end; try done; by rewrite setNames_currentState.
Qed.

Lemma gamepadCallback_Input_onKeyDown {H} e (g : Game H) :
  _gamepadInputCallback (Input_onKeyDown e g) = _gamepadInputCallback g.
Proof.
  unfold Input_onKeyDown.
  destruct (decide (keyCode e = 144)%Z); cbn zeta;
    match goal with
    | |- context [keyMapper ?x !! ?k] => destruct (keyMapper x !! k)
    end; try done; by rewrite setNames_currentState.
Qed.

Lemma trackGamepad_frame {H} pads (g : Game H) :
  exists index device,
    trackGamepad pads g = set_lastInputDevice device (set_activeGamepadIndex index g).
Proof.
  unfold trackGamepad. destruct (lastInputDevice g) eqn:E.
  - destruct (updateActiveGamepad_fields pads g) as [index ->]. by exists index, gamepad.
  - exists (activeGamepadIndex g), gamepad. destruct g. by cbn in E |- *; subst.
Qed.

Lemma startRemap_cell (row col : nat) fn f g :
  (col < 3)%nat ->
  obj_keys (inputs g) !! row = Some fn ->
  obj_get fn (inputs g) = Some f ->
  startRemap (3 * row + col) g
  = match col with
    | 0%nat => Normal g
    | 1%nat => Normal (onNextGamepadPress (armRelease f) g)
    | _ => Normal (onNextKeyboardInput (remapKeyboardInputHandler f) g)
    end.
Proof.
  intros Hcol Hrow Hf. unfold startRemap, getInputByIndex.
  assert (Hm : ((3 * row + col) mod 3 = col)%nat).
  { rewrite Nat.add_comm, Nat.mul_comm, Nat.Div0.mod_add. by apply Nat.mod_small. }
  assert (Hd : ((3 * row + col) / 3 = row)%nat).
  { rewrite Nat.add_comm, Nat.mul_comm, Nat.div_add by lia.
    rewrite Nat.div_small by lia. lia. }
  cbn zeta. rewrite Hm, Hd, Hrow, Hf.
  destruct col as [|[|[|col]]]; try done. lia.
Qed.

(** X20. Remapping a key from the controls scene. Choosing the keyboard
    cell of a row arms the capture; the next key-down calls it once, with
    that event. Unless the key is Escape, the function of the row is bound
    to the code of the key with [setControlButton], and the key press that
    was captured is not reported as held; with Escape the table stays as it
    is. Either way no capture is left armed. *)
Theorem keyboard_remap_flow (row : nat) fn f e g cs :
  obj_keys (inputs g) !! row = Some fn ->
  obj_get fn (inputs g) = Some f ->
  id f = Str fn ->
  exists armed,
    startRemap (3 * row + 2) g = Normal armed /\
    let t := keydown Scene_run e (mkTraced armed cs) in
    calls t = cs ++ [(remapKeyboardInputHandler f, KeyboardArgs e)] /\
    inputs (game t)
      = (if decide (which e = 27)%Z then inputs g
         else rebound fn (Str (code e)) KeyboardButton (inputs g)) /\
    _keyboardInputCallback (game t) = None /\
    _gamepadInputCallback (game t) = None /\
    ((which e <> 27)%Z -> forall b, obj_true b (_currentState (game t)) = false).
Proof.
  intros Hrow Hf Hid. eexists.
  split; [apply (startRemap_cell row 2 fn f); [lia|done|done]|].
  cbn zeta. unfold keydown, nextKeyboardInputHandler.
  cbn [on_game game calls]. rewrite callback_Input_onKeyDown.
  cbn [onNextKeyboardInput _keyboardInputCallback set_keyboardInputCallback].
  cbn [call on_game game calls]. split; [done|].
  cbn [Scene_run]. rewrite Hid. cbn [propertyKey].
  set (g1 := Input_onKeyDown e (onNextKeyboardInput (remapKeyboardInputHandler f) g)).
  assert (Hin : inputs g1 = inputs g) by (unfold g1; by rewrite inputs_Input_onKeyDown).
  destruct (decide (which e = 27)%Z) as [Hw|Hw].
  - split; [exact Hin|]. split; [reflexivity|]. split; [reflexivity|done].
  - unfold setKeyboardButton.
    split; [rewrite <- Hin, <- inputs_setControlButton; reflexivity|].
    split; [reflexivity|]. split; [reflexivity|]. intros _ b.
    cbn [game on_game _currentState set_lastInputDevice set_keyboardInputCallback
         cancelRemap cancelOnNextKeyboardInput cancelOnNextGamepadInput
         set_gamepadInputCallback set_gamepadInputCallbackType].
    unfold setControlButton. rewrite Hin, Hf. unfold rebuildButtonMapper.
    apply currentState_Input_clear.
Qed.

Lemma nextGamepadInputHandler_fire {H} (run : H -> callArgs -> Game H -> Game H)
    pads i type h (t : Traced H) :
  _gamepadInputCallback (game t) = Some h ->
  _gamepadInputCallbackType (game t) = Some type ->
  nextGamepadInputHandler run pads i type t
  = mkTraced
      (trackGamepad pads
         (run h (GamepadArgs i type)
            (set_gamepadInputCallbackType None
               (set_gamepadInputCallback None (game t)))))
      (calls t ++ [(h, GamepadArgs i type)]).
Proof.
  intros Hh Ht. unfold nextGamepadInputHandler. rewrite Hh, Ht.
  by rewrite bool_decide_eq_true_2.
Qed.

Lemma nextGamepadInputHandler_other {H} (run : H -> callArgs -> Game H -> Game H)
    pads i type armed (t : Traced H) :
  _gamepadInputCallbackType (game t) = Some armed ->
  armed <> type ->
  nextGamepadInputHandler run pads i type t = on_game (trackGamepad pads) t.
Proof.
  intros Ht Hne. unfold nextGamepadInputHandler. rewrite Ht.
  destruct (_gamepadInputCallback (game t)); [|done].
  by rewrite bool_decide_eq_false_2.
Qed.

Lemma trackGamepad_keeps {H} pads (g : Game H) :
  inputs (trackGamepad pads g) = inputs g /\
  _keyboardInputCallback (trackGamepad pads g) = _keyboardInputCallback g.
Proof. by destruct (trackGamepad_frame pads g) as (index & device & ->). Qed.

Lemma drop_calls {A} (l l' : list A) : drop (length l) (l ++ l') = l'.
Proof. by rewrite drop_app_length. Qed.

(** X21. Remapping a gamepad button from the controls scene. Choosing
    the gamepad cell of a row activates the prompt window and arms a
    capture for a press. A release that comes first, such as the release of
    the button that chose the cell, calls nothing and leaves the capture
    armed. The press changes no binding and arms the capture for the
    release. While that capture waits, an update of the prompt window
    cancels it if Select is held in the stored gamepad state with
    [_pressedTime] at 24 or more, or if "static_escape" is pressed: the
    prompt is deactivated and a later release calls nothing and binds
    nothing. Otherwise the update changes nothing, and the release that
    finds the capture armed binds the function of the row to the released
    button with [setControlButton], deactivates the prompt and leaves no
    capture armed. *)
Theorem gamepad_remap_flow (row : nat) fn f pads (i j : nat) s0 :
  obj_keys (inputs (game (input s0))) !! row = Some fn ->
  obj_get fn (inputs (game (input s0))) = Some f ->
  id f = Str fn ->
  exists armed,
    Scene_startRemap (3 * row + 1) s0 = Normal armed /\
    promptActive armed = true /\
    gamepadCapture armed = (Some (armRelease f), Some press) /\
    (let early := Scene_input (nextGamepadInputHandler Scene_run pads j release) armed in
     calls (input early) = calls (input s0) /\
     inputs (game (input early)) = inputs (game (input s0)) /\
     promptActive early = true /\
     gamepadCapture early = (Some (armRelease f), Some press)) /\
    (let pressed := Scene_input (nextGamepadInputHandler Scene_run pads i press) armed in
     inputs (game (input pressed)) = inputs (game (input s0)) /\
     promptActive pressed = true /\
     gamepadCapture pressed = (Some (remapGamepadInputHandler f), Some release)) /\
    forall s,
      promptActive s = true ->
      gamepadCapture s = (Some (remapGamepadInputHandler f), Some release) ->
      (promptCancels (game (input s)) = false -> Prompt_update s = s) /\
      (promptCancels (game (input s)) = true ->
       let cancelled := Prompt_update s in
       let late := Scene_input (nextGamepadInputHandler Scene_run pads j release)
                               cancelled in
       promptActive cancelled = false /\
       gamepadCapture cancelled = (None, None) /\
       inputs (game (input cancelled)) = inputs (game (input s)) /\
       calls (input late) = calls (input s) /\
       inputs (game (input late)) = inputs (game (input s))) /\
      (let released := Scene_input (nextGamepadInputHandler Scene_run pads j release) s in
       calls (input released)
         = calls (input s) ++ [(remapGamepadInputHandler f, GamepadArgs j release)] /\
       inputs (game (input released))
         = rebound fn (Num (Z.of_nat j)) GamepadButton (inputs (game (input s))) /\
       promptActive released = false /\
       gamepadCapture released = (None, None) /\
       _keyboardInputCallback (game (input released)) = None).
Proof.
  intros Hrow Hf Hid.
  exists (mkScene (mkTraced (onNextGamepadPress (armRelease f) (game (input s0)))
                            (calls (input s0))) true).
  assert (Hstart : startRemap (3 * row + 1) (game (input s0))
                   = Normal (onNextGamepadPress (armRelease f) (game (input s0)))).
  { apply (startRemap_cell row 1 fn f); [lia|done|done]. }
  split.
  { unfold Scene_startRemap. rewrite Hstart. do 2 f_equal.
    rewrite decide_False; [done|].
    rewrite Nat.add_comm, Nat.mul_comm, Nat.Div0.mod_add. done. }
  split; [done|]. split; [done|].
  set (g0 := game (input s0)).
  set (armed := mkTraced (onNextGamepadPress (armRelease f) g0) (calls (input s0))).
  assert (Hearly : nextGamepadInputHandler Scene_run pads j release armed
                   = on_game (trackGamepad pads) armed).
  { by apply (nextGamepadInputHandler_other _ _ _ _ press). }
  assert (Hpress : nextGamepadInputHandler Scene_run pads i press armed
                   = mkTraced
                       (trackGamepad pads
                          (onNextGamepadRelease (remapGamepadInputHandler f) g0))
                       (calls (input s0) ++ [(armRelease f, GamepadArgs i press)])).
  { rewrite (nextGamepadInputHandler_fire _ _ _ _ (armRelease f)) by done.
    cbn [game calls Scene_run armed]. by f_equal. }
  split; [|split].
  - unfold Scene_input, gamepadCapture. cbn [input promptActive]. fold armed.
    rewrite Hearly. cbn [on_game game calls armed].
    rewrite drop_all. cbn [forallb andb].
    destruct (callback_trackGamepad pads (onNextGamepadPress (armRelease f) g0))
      as [-> ->].
    split; [done|]. split; [|done].
    by rewrite (proj1 (trackGamepad_keeps pads _)).
  - unfold Scene_input, gamepadCapture. cbn [input promptActive]. fold armed.
    rewrite Hpress. cbn [game calls armed]. rewrite drop_calls. cbn [forallb andb].
    destruct (callback_trackGamepad pads
                (onNextGamepadRelease (remapGamepadInputHandler f) g0)) as [-> ->].
    split; [|done]. by rewrite (proj1 (trackGamepad_keeps pads _)).
  - intros s Hact Hcap. unfold gamepadCapture in Hcap.
    injection Hcap as Hcb Hty. split; [|split].
    + intros Hno. unfold Prompt_update. by rewrite Hact, Hno.
    + intros Hyes. unfold Prompt_update. rewrite Hact, Hyes. cbn [andb].
      unfold Scene_cancelRemap, Scene_input, gamepadCapture.
      cbn [input promptActive on_game game calls].
      rewrite nextGamepadInputHandler_idle by done.
      cbn [on_game game calls].
      split; [done|]. split; [done|]. split; [done|]. split; [done|].
      by rewrite (proj1 (trackGamepad_keeps pads _)).
    + unfold Scene_input, gamepadCapture.
      rewrite (nextGamepadInputHandler_fire _ _ _ _ (remapGamepadInputHandler f))
        by done.
      cbn [game calls Scene_run]. rewrite Hid. cbn [propertyKey].
      rewrite drop_calls. cbn [forallb closesPrompt fst negb andb].
      rewrite andb_false_r. unfold setGamepadButton.
      set (g2 := setControlButton fn (Num (Z.of_nat j)) GamepadButton _).
      assert (Hg2 : inputs g2
                    = rebound fn (Num (Z.of_nat j)) GamepadButton (inputs (game (input s)))).
      { unfold g2. by rewrite inputs_setControlButton. }
      clearbody g2. cbn [input game calls promptActive].
      destruct (callback_trackGamepad pads (cancelRemap g2)) as [-> ->].
      destruct (trackGamepad_keeps pads (cancelRemap g2)) as [-> ->].
      split; [done|]. split; [exact Hg2|]. split; [done|]. split; reflexivity.
Qed.

End Remap.

Lemma keyboard_remap_flow_witness :
  exists armed,
    startRemap (3 * 6 + 2) (boot : Game SceneCallback) = Normal armed /\
    bindings <$> obj_get "menu"
       (inputs (game (keydown Scene_run (keyEvent "KeyY" 89) (mkTraced armed []))))
    = Some (Str "KeyY", Num 3).
Proof.
  assert (Hf : obj_get "menu" (inputs (boot : Game SceneCallback)) = Some menuFunction)
    by (by vm_compute).
  assert (Hid : id menuFunction = Str "menu") by reflexivity.
  assert (Hrow : obj_keys (inputs (boot : Game SceneCallback)) !! 6%nat = Some "menu")
    by (by vm_compute).
  destruct (keyboard_remap_flow 6 "menu" menuFunction (keyEvent "KeyY" 89) boot []
              Hrow Hf Hid)
    as (armed & Hs & _ & Hin & _).
  exists armed. split; [exact Hs|]. cbn zeta in Hin. rewrite Hin. by vm_compute.
Defined.

Lemma gamepad_remap_flow_witness :
  let idle : gamepads := [Some (pad (replicate 16 false))] in
  let s0 := mkScene (frames Scene_run idle 1 (mkTraced boot [])) false in
  let armed :=
    mkScene (mkTraced (onNextGamepadPress (armRelease menuFunction) (game (input s0))) [])
            true in
  Scene_startRemap (3 * 6 + 1) s0 = Normal armed /\
  (let short := Scene_frames (padWith 5) 3 armed in
   Prompt_update short = short /\
   bindings <$> obj_get "menu"
      (inputs (game (input (Scene_input
                              (nextGamepadInputHandler Scene_run idle 5 release) short))))
     = Some (Str "KeyS", Num 5) /\
   bindings <$> obj_get "menu" (inputs (game (input (Scene_frame idle short))))
     = Some (Str "KeyS", Num 5)) /\
  (let long := Scene_input (Input_update Scene_run (padWith 8))
                           (Scene_frames (padWith 8) 24 armed) in
   let cancelled := Prompt_update long in
   cancelled = Scene_frames (padWith 8) 25 armed /\
   gamepadCapture cancelled = (None, None) /\
   bindings <$> obj_get "menu" (inputs (game (input (Scene_frame idle cancelled))))
     = Some (Str "KeyS", Num 3)).
Proof.
  intros idle s0 armed.
  assert (Hrow : obj_keys (inputs (game (input s0))) !! 6%nat = Some "menu")
    by (by vm_compute).
  assert (Hf : obj_get "menu" (inputs (game (input s0))) = Some menuFunction)
    by (by vm_compute).
  assert (Hid : id menuFunction = Str "menu") by reflexivity.
  destruct (gamepad_remap_flow 6 "menu" menuFunction idle 5 5 s0 Hrow Hf Hid)
    as (armed' & Hstart & _ & _ & _ & _ & Hwait).
  split; [by vm_compute|]. split.
  - cbn zeta.
    destruct (Hwait (Scene_frames (padWith 5) 3 armed)) as (Hno & _ & Hrel);
      [by vm_compute|by vm_compute|].
    split; [apply Hno; by vm_compute|]. cbn zeta in Hrel.
    destruct Hrel as (_ & Hin & _). split; [|by vm_compute].
    etrans; [exact (f_equal (fun ins => bindings <$> obj_get "menu" ins) Hin)|].
    by vm_compute.
  - cbn zeta.
    destruct (Hwait (Scene_input (Input_update Scene_run (padWith 8))
                                 (Scene_frames (padWith 8) 24 armed)))
      as (_ & Hyes & _); [by vm_compute|by vm_compute|].
    destruct (Hyes ltac:(by vm_compute)) as (_ & Hcap & _).
    split; [by vm_compute|]. split; [exact Hcap|by vm_compute].
Defined.

(** ** The gamepad read *)

Section Read.

Lemma arr_get_arr_set i b (a : jsarray) j :
  arr_get (arr_set i b a) j = if decide (j = i) then Some b else arr_get a j.
Proof.
  unfold arr_get, arr_set, jsarray in *. destruct (decide (i < length a)%nat) as [Hlt|Hge].
  - destruct (decide (j = i)) as [->|Hne].
    + by rewrite list_lookup_insert_eq by done.
    + by rewrite list_lookup_insert_ne by done.
  - destruct (decide (j = i)) as [->|Hne].
    + rewrite lookup_app_r by lia. rewrite lookup_app_r by (rewrite length_replicate; lia).
      rewrite length_replicate. by replace (i - length a - (i - length a))%nat with 0%nat by lia.
    + destruct (decide (j < length a)%nat) as [Hj|Hj].
      * by rewrite lookup_app_l.
      * rewrite (lookup_ge_None_2 a j) by lia. rewrite lookup_app_r by lia.
        destruct (decide (j < i)%nat) as [Hji|Hji].
        -- rewrite lookup_app_l by (rewrite length_replicate; lia).
           by rewrite lookup_replicate_2 by lia.
        -- rewrite lookup_ge_None_2; [done|].
           rewrite length_app, length_replicate. simpl. lia.
Qed.

Lemma length_arr_set i b (a : jsarray) :
  length (arr_set i b a) = (length a `max` S i)%nat.
Proof.
  unfold arr_set, jsarray in *. destruct (decide (i < length a)%nat).
  - rewrite length_insert. lia.
  - rewrite !length_app, length_replicate. simpl. lia.
Qed.

Lemma readButtons_get (buttons : list bool) (indices : list nat) (a : jsarray) j :
  arr_get (fold_left
             (fun a i =>
                match buttons !! i with
                | Some pressed => arr_set i pressed a
                | None => a
                end) indices a) j
  = match buttons !! j with
    | Some pressed => if decide (j ∈ indices) then Some pressed else arr_get a j
    | None => arr_get a j
    end.
Proof.
  revert a. induction indices as [|i indices IH]; intros a.
  - destruct (buttons !! j); [|done].
    by rewrite decide_False by apply not_elem_of_nil.
  - cbn [fold_left]. rewrite IH. destruct (buttons !! j) as [p|] eqn:Hj.
    + destruct (decide (j ∈ indices)) as [Hin|Hnin].
      * rewrite decide_True; [done|]. by right.
      * destruct (decide (j = i)) as [->|Hne].
        -- rewrite Hj, arr_get_arr_set, decide_True by done.
           rewrite decide_True; [done|]. left.
        -- rewrite (decide_False (P := j ∈ i :: indices)).
           ++ destruct (buttons !! i); [|done].
              by rewrite arr_get_arr_set, decide_False.
           ++ intros Hin. apply elem_of_cons in Hin as [?|?]; done.
    + destruct (buttons !! i) eqn:Hi; [|done].
      rewrite arr_get_arr_set, decide_False; [done|]. intros ->. congruence.
Qed.

Lemma readButtons_length (buttons : list bool) (s n : nat) (a : jsarray) :
  (s + n <= length buttons)%nat ->
  length (fold_left
            (fun a i =>
               match buttons !! i with
               | Some pressed => arr_set i pressed a
               | None => a
               end) (seq s n) a)
  = if decide (n = 0)%nat then length a else (length a `max` (s + n))%nat.
Proof.
  revert s a. induction n as [|n IH]; intros s a Hle; [done|].
  cbn [seq fold_left]. destruct (lookup_lt_is_Some_2 buttons s ltac:(lia)) as [p ->].
  rewrite IH by lia. rewrite length_arr_set.
  rewrite (decide_False (P := S n = 0%nat)) by done.
  destruct (decide (n = 0)%nat); lia.
Qed.

Lemma axis_exclusive pad i : axisBelow pad i && axisAbove pad i = false.
Proof.
  unfold axisBelow, axisAbove. destruct (Gamepad.axes pad !! i) as [x|]; [|done].
  destruct (Qlt_le_dec x (- threshold)) as [H1|H1]; [|done].
  destruct (Qlt_le_dec threshold x) as [H2|H2]; [|done].
  pose proof (Qlt_trans _ _ _ H2 H1) as Hc. by vm_compute in Hc.
Qed.

(** X22. What a read of a gamepad reports. At the four d-pad indices
    the value is always a boolean: pressed if the d-pad button is down or
    the left stick is pushed past the threshold in that direction, and a
    stick never reports two opposite directions. At any other index the read
    is the button as the device gives it, and a hole where the device has
    no such button. The read has 16 entries, or as many as the device has
    buttons if that is more. *)
Theorem readGamepad_reports pad (i : nat) :
  arr_get (readGamepad pad) i
  = (if decide (12 <= i < 16)%nat
     then Some (stick pad i || default false (Gamepad.buttons pad !! i))
     else Gamepad.buttons pad !! i) /\
  stick pad 12 && stick pad 13 = false /\
  stick pad 14 && stick pad 15 = false /\
  length (readGamepad pad) = (16 `max` length (Gamepad.buttons pad))%nat.
Proof.
  pose proof (axis_exclusive pad 0) as H0. pose proof (axis_exclusive pad 1) as H1.
  split; [|split; [exact H1|split; [exact H0|]]].
  - unfold readGamepad. cbn zeta.
    set (a0 := arr_set 15 false _).
    set (a1 := fold_left _ _ a0).
    assert (Ha0 : forall j, arr_get a0 j
                            = if decide (12 <= j < 16)%nat then Some false else None).
    { intros j. unfold a0. rewrite !arr_get_arr_set.
      repeat (destruct (decide (j = _)) as [->|?]; [done|]).
      rewrite decide_False by lia. by destruct j. }
    assert (Ha1 : forall j, arr_get a1 j
                            = if decide (12 <= j < 16)%nat
                              then Some (default false (Gamepad.buttons pad !! j))
                              else Gamepad.buttons pad !! j).
    { intros j. unfold a1. rewrite readButtons_get, Ha0.
      destruct (Gamepad.buttons pad !! j) as [p|] eqn:Hj.
      - rewrite decide_True.
        + by destruct (decide (12 <= j < 16)%nat).
        + apply elem_of_seq. apply lookup_lt_Some in Hj. lia.
      - done. }
    clearbody a1. clear a0 Ha0.
    destruct (axisBelow pad 1) eqn:B1, (axisAbove pad 1) eqn:A1; try discriminate H1;
      destruct (axisBelow pad 0) eqn:B0, (axisAbove pad 0) eqn:A0; try discriminate H0;
      rewrite ?arr_get_arr_set, Ha1;
      repeat (destruct (decide (i = _)) as [->|?];
              [cbn [stick]; rewrite ?B1, ?A1, ?B0, ?A0; by rewrite ?decide_True by lia|]);
      (destruct (decide (12 <= i < 16)%nat) as [Hi|Hi]; [|done]);
      destruct i as [|[|[|[|[|[|[|[|[|[|[|[|[|[|[|[|i]]]]]]]]]]]]]]]]; try lia;
      cbn [stick]; by rewrite ?B1, ?A1, ?B0, ?A0.
  - unfold readGamepad. cbn zeta.
    set (a0 := arr_set 15 false _).
    set (a1 := fold_left _ _ a0).
    assert (Hl0 : length a0 = 16%nat) by reflexivity.
    assert (Hl1 : length a1 = (16 `max` length (Gamepad.buttons pad))%nat).
    { unfold a1. rewrite readButtons_length by lia. rewrite Hl0.
      destruct (decide (length (Gamepad.buttons pad) = 0)%nat); lia. }
    clearbody a1. clear a0 Hl0.
    destruct (axisBelow pad 1), (axisAbove pad 1), (axisBelow pad 0), (axisAbove pad 0);
      rewrite ?length_arr_set; lia.
Qed.

End Read.

(** ** Icons of functions and of bindings *)

Section IconCodes.
Context {H : Type}.
Implicit Types (g : Game H).

Lemma codeToIconIndex_arrows s n :
  codeToIconIndex !! s = Some n ->
  indexOf s arrowCodes 0 = if String.prefix "Arrow" s then Some n else None.
Proof.
  intros Hs. apply elem_of_map_to_list, list_elem_of_In in Hs.
  assert (Hall : forallb
                   (fun p : string * Z =>
                      bool_decide (indexOf p.1 arrowCodes 0
                                   = if String.prefix "Arrow" p.1 then Some p.2 else None))
                   (map_to_list codeToIconIndex) = true) by (by vm_compute).
  rewrite forallb_forall in Hall. apply Hall in Hs. by apply bool_decide_eq_true in Hs.
Qed.

Lemma gamepadIndexToIconIndex_dpad k o :
  gamepadIndexToIconIndex !! k = Some o ->
  bool_decide (0 <= o <= 3)%Z = bool_decide (k ∈ dpadButtons).
Proof.
  intros Hs. apply elem_of_map_to_list, list_elem_of_In in Hs.
  assert (Hall : forallb
                   (fun p : string * Z =>
                      bool_decide (bool_decide (0 <= p.2 <= 3)%Z
                                   = bool_decide (p.1 ∈ dpadButtons)))
                   (map_to_list gamepadIndexToIconIndex) = true) by (by vm_compute).
  rewrite forallb_forall in Hall. apply Hall in Hs. by apply bool_decide_eq_true in Hs.
Qed.

Lemma dpadButtons_listed k :
  k ∈ dpadButtons -> is_Some (gamepadIndexToIconIndex !! k).
Proof.
  intros Hk. unfold dpadButtons in Hk.
  repeat (apply elem_of_cons in Hk as [->|Hk];
          [apply (bool_decide_unpack _); by vm_compute|]).
  by apply elem_of_nil in Hk.
Qed.

Lemma obtainEscapeCodeIconIndex_JP k g :
  obtainEscapeCodeIconIndex "JP" k g
  = Normal (num_add
              (Int (baseControlIconIndex g
                    + buttonSetSize
                      * match entry gamepadIndexToIconIndex k with
                        | Int o => if bool_decide (0 <= o <= 3)%Z then 0%Z
                                   else activeButtonSet g
                        | NaN => activeButtonSet g
                        end))
              (entry gamepadIndexToIconIndex k)).
Proof. reflexivity. Qed.

(** X23. The icon of a function and the icon of its binding. For a
    function bound to a key that the icon table lists, the [KBCTRL] icon of
    the function is the [KB] icon of the key, arrow keys included. The
    [JPCTRL] icon of a function is the [JP] icon of its gamepad button,
    except for a d-pad button while a button set other than the first is
    active: [JP] takes the arrows from the first set, [JPCTRL] from the
    active one. *)
Theorem control_icon_and_code_icon fn input g :
  obj_get fn (inputs g) = Some input ->
  (forall s n,
     keyboardButton input = Str s -> codeToIconIndex !! s = Some n ->
     getKeyboardControlIconIndex fn g = obtainEscapeCodeIconIndex "KB" s g) /\
  let k := propertyKey (gamepadButton input) in
  (getGamepadControlIconIndex fn g = obtainEscapeCodeIconIndex "JP" k g
   <-> activeButtonSet g = 0%Z \/ k ∉ dpadButtons).
Proof.
  intros Hin. split.
  - intros s n Hs Hn. unfold getKeyboardControlIconIndex, obtainEscapeCodeIconIndex, entry.
    rewrite Hin, Hs. cbn [propertyKey]. rewrite Hn.
    rewrite (codeToIconIndex_arrows s n Hn).
    cbn [bool_decide andb decide_rel]. 
    destruct (String.prefix "Arrow" s).
    + cbn [num_add num_sub]. unfold baseKeyboardIconIndex, buttonSetSize, maxButtonSets.
      do 2 f_equal. lia.
    + reflexivity.
  - intros k. rewrite obtainEscapeCodeIconIndex_JP.
    unfold getGamepadControlIconIndex, entry. rewrite Hin. fold k.
    destruct (gamepadIndexToIconIndex !! k) as [o|] eqn:Ho.
    + rewrite (gamepadIndexToIconIndex_dpad k o Ho). cbn [num_add].
      unfold buttonSetSize. destruct (decide (k ∈ dpadButtons)) as [Hd|Hd].
      * rewrite bool_decide_eq_true_2 by done. split.
        -- intros [= Heq]. left. lia.
        -- intros [->|Hno]; [done|]. by destruct Hno.
      * rewrite bool_decide_eq_false_2 by done. split; [by right|done].
    + split; [|done]. intros _. right. intros Hd.
      apply dpadButtons_listed in Hd as [o Ho']. congruence.
Qed.

End IconCodes.

Lemma control_icon_and_code_icon_witness :
  let g : Game unit := nextButtonSet boot in
  getKeyboardControlIconIndex "up" g = obtainEscapeCodeIconIndex "KB" "ArrowUp" g /\
  getGamepadControlIconIndex "up" g <> obtainEscapeCodeIconIndex "JP" "12" g /\
  getGamepadControlIconIndex "menu" g = obtainEscapeCodeIconIndex "JP" "3" g.
Proof.
  intros g.
  assert (Hup : exists input, obj_get "up" (inputs g) = Some input /\
                  keyboardButton input = Str "ArrowUp" /\
                  propertyKey (gamepadButton input) = "12").
  { exists (default menuFunction (obj_get "up" (inputs g))). repeat split; by vm_compute. }
  destruct Hup as (up & Hup & Hkb & Hgp).
  assert (Hmenu : obj_get "menu" (inputs g) = Some menuFunction) by (by vm_compute).
  destruct (control_icon_and_code_icon "up" up g Hup) as [Hk Hj].
  destruct (control_icon_and_code_icon "menu" menuFunction g Hmenu) as [_ Hm].
  cbn zeta in Hj, Hm. rewrite Hgp in Hj.
  split; [apply (Hk "ArrowUp" 1%Z Hkb); by vm_compute|]. split.
  - intros Heq. apply Hj in Heq as [Hs|Hd]; [by vm_compute in Hs|].
    apply Hd. unfold dpadButtons. left.
  - apply Hm. right. intros Hd. unfold dpadButtons in Hd.
    repeat (apply elem_of_cons in Hd as [Hd|Hd]; [by vm_compute in Hd|]).
    by apply elem_of_nil in Hd.
Defined.

(** ** Further instances *)

Lemma standard_buttons_are_mapped_witness :
  is_Some (gamepadMapper (rebuildButtonMapper (boot : Game unit)) !! pretty 15%nat).
Proof. apply (standard_buttons_are_mapped (boot : Game unit) 15). lia. Defined.

Lemma updateActiveGamepad_selects_witness :
  let pads := [None; Some (Gamepad.mk 1 "Other" true [] []);
               Some (Gamepad.mk 2 "Pad" true [] [])] in
  let g : Game unit := setTargetGamepadName (Some "Pad") boot in
  activeGamepadIndex (updateActiveGamepad pads g) = Some 2%nat.
Proof.
  intros pads g.
  assert (Ht : targetGamepadName g = Some "Pad") by (by vm_compute).
  assert (Hne : "Pad" <> "") by discriminate.
  apply (proj1 (updateActiveGamepad_selects pads g "Pad" Ht Hne)).
  split.
  - eexists. split; [reflexivity|]. by vm_compute.
  - intros [|[|j]] p Hj Hl; [done| |lia]. injection Hl as <-. by vm_compute.
Defined.

Lemma button_sets_cycle_witness :
  let g : Game unit := boot in
  (0 <= activeButtonSet (nextButtonSets 3 g) < numButtonSets g)%Z /\
  activeButtonSet (nextButtonSets (Z.to_nat (numButtonSets g)) g) = activeButtonSet g.
Proof.
  intros g. apply (button_sets_cycle 3 g).
  - by vm_compute.
  - split; by vm_compute.
  - lia.
Defined.

Lemma applyData_button_set_witness :
  let g : Game unit := boot in
  activeButtonSet (ConfigManager_applyData (mkSQConfig (Some 2%Z) None None) g) = 2%Z /\
  activeButtonSet (ConfigManager_applyData (mkSQConfig (Some 7%Z) None None) g) = 0%Z.
Proof.
  intros g.
  assert (Hnum : (0 < numButtonSets g)%Z) by (by vm_compute).
  split.
  - apply (proj1 (applyData_button_set 2 None None g Hnum)). by vm_compute.
  - apply (proj2 (applyData_button_set 7 None None g Hnum)). right. by vm_compute.
Defined.

Lemma setControlMap_restores_witness :
  let m := [("menu", ControlMap.mk (Str "KeyM") (Num 9));
            ("nothing", ControlMap.mk (Str "KeyN") (Num 8))] in
  let g : Game unit := setControlMap (Some m) boot in
  bindings <$> obj_get "menu" (inputs g) = Some (Str "KeyM", Num 9) /\
  obj_get "nothing" (inputs g) = None /\
  obj_get "ok" (inputs g) = obj_get "ok" (inputs (boot : Game unit)).
Proof.
  intros m g.
  assert (Hnd : NoDup (obj_keys m)) by (apply (bool_decide_unpack _); by vm_compute).
  split; [|split].
  - unfold g. rewrite (setControlMap_restores m boot "menu" Hnd). by vm_compute.
  - unfold g. rewrite (setControlMap_restores m boot "nothing" Hnd). by vm_compute.
  - unfold g. rewrite (setControlMap_restores m boot "ok" Hnd). by vm_compute.
Defined.

Lemma press_is_triggered_once_witness :
  let key := fun k : nat =>
    game (frames noCallback [] (S k)
            (keydown noCallback (keyEvent "KeyZ" 90)
               (frames noCallback [] 1 (mkTraced boot [])))) in
  let button := fun k : nat =>
    game (frames noCallback [Some (pad (true :: replicate 15 false))] (S k)
            (frames noCallback [Some (pad (replicate 16 false))] 1
               (mkTraced boot []))) in
  Input_isTriggered "confirm" (key 0%nat) = Normal true /\
  Input_isTriggered "confirm" (key 1%nat) = Normal false /\
  Input_isTriggered "confirm" (button 0%nat) = Normal true /\
  Input_isTriggered "confirm" (button 5%nat) = Normal false.
Proof.
  intros key button.
  pose proof (proj1 (press_is_triggered_once noCallback [] "confirm" _
                       (started_atRest [] (or_introl eq_refl)))
                (keyEvent "KeyZ" 90) ["confirm"; "ok"]) as Hk.
  pose proof (proj2 (press_is_triggered_once noCallback
                       [Some (pad (true :: replicate 15 false))] "confirm" _
                       (started_atRest _ (or_intror eq_refl)))
                0%nat ["confirm"; "ok"]) as Hb.
  assert (Hm : keyMapper (game (frames noCallback [] 1 (mkTraced boot [])))
               !! eventKey (keyEvent "KeyZ" 90) = Some ["confirm"; "ok"])
    by (by vm_compute).
  assert (Hin : "confirm" ∈ ["confirm"; "ok"]) by left.
  assert (Hfs : failsafeHeld (Input_onKeyDown (keyEvent "KeyZ" 90)
                  (game (frames noCallback [] 1 (mkTraced boot [])))) = false)
    by (by vm_compute).
  assert (Hst : steady [] (Input_onKeyDown (keyEvent "KeyZ" 90)
                  (game (frames noCallback [] 1 (mkTraced (boot : Game unit) [])))))
    by constructor.
  assert (Hfb : failsafeHeld (setNames ["confirm"; "ok"] true
                  (game (frames noCallback [Some (pad (replicate 16 false))] 1
                           (mkTraced boot [])))) = false)
    by (by vm_compute).
  split; [exact (proj1 (Hk 0%nat Hm Hin Hfs Hst))|].
  split; [exact (proj1 (Hk 1%nat Hm Hin Hfs Hst))|].
  split; [exact (proj1 (Hb 0%nat started_buttonGoesDown Hin Hfb))|].
  exact (proj1 (Hb 5%nat started_buttonGoesDown Hin Hfb)).
Defined.

Lemma release_ends_hold_witness :
  let t := frames noCallback [] 1 (mkTraced boot []) in
  let released :=
    game (Input_update noCallback []
            (keyup (keyEvent "KeyZ" 90)
               (frames noCallback [] (S 40) (keydown noCallback (keyEvent "KeyZ" 90) t)))) in
  Input_isPressed "confirm" released = false /\
  Input_isTriggered "confirm" released = Normal false /\
  Input_isRepeated "confirm" released = Normal false.
Proof.
  intros t.
  assert (Hm : keyMapper (game t) !! eventKey (keyEvent "KeyZ" 90)
               = Some ["confirm"; "ok"]) by (by vm_compute).
  assert (Hb : "confirm" ∈ ["confirm"; "ok"]) by left.
  assert (Hfs : failsafeHeld (Input_onKeyDown (keyEvent "KeyZ" 90) (game t)) = false)
    by (by vm_compute).
  assert (Hst : steady [] (Input_onKeyDown (keyEvent "KeyZ" 90) (game t)))
    by constructor.
  exact (release_ends_hold noCallback [] (keyEvent "KeyZ" 90)
           ["confirm"; "ok"] "confirm" t 40
           (started_atRest [] (or_introl eq_refl)) Hm Hb Hfs Hst).
Defined.
